(** * Transis (formerly Ryno) model layer

    A shallow embedding of the model layer of the repository:

    - [src/attrs.js] and its later revision (the attribute converters);
    - [model.js]: association descriptors, the [hasOne]/[hasMany] setters,
      the inverse bookkeeping, the [id] accessor, [Model.load],
      [Model.empty], [Model.local];
    - [query_array.js]: the busy/queued life cycle of [QueryArray#query].

    Modelling conventions.

    - JavaScript values are the inductive type [value].  Numbers are the
      integers plus [NaN]; non-integral and infinite numbers behave like a
      non-zero integer for everything that is modelled here (truthiness and
      [===]).
    - Model instances live in a heap and are referred to by index.  Arrays
      and object literals are carried by value: the array held in a
      [hasMany] slot is owned by that slot, and an array or object handed to
      the library is a fresh literal that the caller does not keep.  Under
      that discipline [push], [splice] and iteration over the live slot are
      rendered by re-reading and re-writing the slot.
    - Private slots ([__name__], [nameBeforeCoercion], [__id__], ...) are
      read and written as own properties; class definitions are assumed not
      to declare accessors whose names are private slot keys, and to declare
      a property name once along a class chain, so that [this[name]] inside
      a [hasMany] helper is the [hasMany] getter and [associations[name]] is
      the descriptor of the accessor [name].  A [hasMany] slot holds an array
      or a falsy value (a string there would answer [slice] and [indexOf]);
      any other content makes the array operations raise [TypeError].
    - Exceptions are the constructors of [exn]; a throwing computation
      returns the state reached when the exception was raised.
    - Promises are records in a promise heap; their reactions are the
      handlers of the library (by name) and the handlers of consumers (by a
      tag, what they are called with being logged).  Settling a promise
      queues one job per reaction; jobs run in order when the running code
      has returned, as the microtask queue prescribes. *)

From Stdlib Require Import ZArith Ascii String List Bool Lia.
From stdpp Require Import gmap strings list.

Open Scope string_scope.
Open Scope list_scope.
Set Warnings "-register-all".

(** ** Values *)

Inductive value : Type :=
| VUndef
| VNull
| VBool (b : bool)
| VNum (n : Z)
| VNaN
| VStr (s : string)
| VModel (r : nat)                        (* a model instance, by reference *)
| VArr (l : list value)                   (* an array *)
| VObj (fields : list (string * value))   (* an object literal *)
| VNative (name : string).                (* a function of the runtime *)

(** [!!v] *)
Definition truthy (v : value) : bool :=
  match v with
  | VUndef | VNull | VNaN => false
  | VBool b => b
  | VNum n => negb (n =? 0)%Z
  | VStr s => negb (String.eqb s "")
  | VModel _ | VArr _ | VObj _ | VNative _ => true
  end.

(** [a === b].  Two array or object literals are distinct objects. *)
Definition strict_eq (a b : value) : bool :=
  match a, b with
  | VUndef, VUndef => true
  | VNull, VNull => true
  | VBool x, VBool y => Bool.eqb x y
  | VNum x, VNum y => (x =? y)%Z
  | VStr x, VStr y => String.eqb x y
  | VModel x, VModel y => Nat.eqb x y
  | VNative x, VNative y => String.eqb x y
  | _, _ => false
  end.

(** The key equality of an ES6 [Map] (SameValueZero): like [===] except that
    [NaN] equals itself. *)
Definition same_value_zero (a b : value) : bool :=
  match a, b with
  | VNaN, VNaN => true
  | _, _ => strict_eq a b
  end.

(** ** Exceptions and the state-and-exception monad *)

Inductive exn : Type :=
| UnresolvedClass (name : string)          (* checkAssociatedType: could not resolve model class *)
| TypeMismatch (prop : string) (o : value) (* expected an object of type ... but received ... *)
| UnknownAssociation (name : string)       (* inverseAdded / inverseRemoved *)
| MissingIdentity                          (* load: an `id` attribute is required *)
| IdentityImmutable (r : nat)              (* id=: overwriting a model's identity is not allowed *)
| UnknownAttrType (type : string)          (* attr: unknown attribute type *)
| DuplicateName (name : string)            (* registerClass / registerAttr *)
| NotAModelSubclass                        (* registerClass *)
| MissingName                              (* registerClass: no name given *)
| MapperContractError (what : string)      (* callMapper: no mapper, no method, no promise *)
| TypeError                                (* raised by the runtime *)
| Rejected (reason : value).               (* a value thrown or rejected as is *)

Inductive outcome (A : Type) : Type :=
| Ok (a : A)
| Throw (e : exn).
Arguments Ok {A} a.
Arguments Throw {A} e.

(** ** Attribute converters *)

(** [typeof v === 'number'] and [typeof v === 'string'] *)
Definition is_number (v : value) : bool :=
  match v with VNum _ | VNaN => true | _ => false end.

Definition is_string (v : value) : bool :=
  match v with VStr _ => true | _ => false end.

(** [v != null] *)
Definition not_nullish (v : value) : bool :=
  match v with VUndef | VNull => false | _ => true end.

(** [src/attrs.js], the revision the model registers.  The date converters
    are left out ([Date] objects are not modelled). *)
Module RynoAttrs.

Definition IdentityAttr_coerce (v : value) : value := v.

Definition BooleanAttr_coerce (v : value) : value := VBool (truthy v).

Section Builtins.

(** [String(v)] of the runtime and [parseNumber] of [parsers.js], which
    is not among the sources. *)
Variable String_ : value -> string.
Variable parseNumber : string -> value.

Definition StringAttr_coerce (v : value) : value :=
  if not_nullish v then VStr (String_ v) else v.

Definition NumberAttr_coerce (v : value) : value :=
  match v with
  | VNum _ | VNaN => v
  | VStr str => parseNumber str
  | _ => VNull
  end.

(** The converters that [model.js] registers, by name. *)
Definition registeredAttrs : gmap string (value -> outcome value) :=
  <["identity" := fun v => Ok (IdentityAttr_coerce v)]>
  (<["string" := fun v => Ok (StringAttr_coerce v)]>
  (<["number" := fun v => Ok (NumberAttr_coerce v)]>
  (<["boolean" := fun v => Ok (BooleanAttr_coerce v)]> ∅))).

End Builtins.

End RynoAttrs.

(** The later revision of [attrs.js]. *)
Module TransisAttrs.

Definition IdentityAttr_coerce (v : value) : value := v.

Definition BooleanAttr_coerce (v : value) : value :=
  if strict_eq v VUndef then v else VBool (truthy v).

End TransisAttrs.

(** ** Classes and property descriptors *)

(** A class is [Model] itself or a subclass, named by its index in the class
    table. *)
Inductive class_id : Type :=
| ModelClass
| Sub (n : nat).

#[global] Instance class_id_eq_dec : EqDecision class_id.
Proof. solve_decision. Defined.

(** [desc.klass]: a constructor function or the name it is registered
    under. *)
Inductive klass_ref : Type :=
| KFun (c : class_id)
| KName (n : string).

Inductive assoc_type : Type := HasOne | HasMany.

(** What [hasOne] and [hasMany] record besides the type and the name:
    [Object.assign({}, opts, {type, name, klass})]. *)
Record assoc_info : Type := {
  a_klass : klass_ref;
  a_inverse : option string
}.

(** An association descriptor. *)
Record desc : Type := {
  desc_type : assoc_type;
  desc_name : string;
  desc_klass : klass_ref;
  desc_inverse : option string
}.

Definition mk_desc (type : assoc_type) (name : string) (i : assoc_info) : desc :=
  {| desc_type := type; desc_name := name;
     desc_klass := a_klass i; desc_inverse := a_inverse i |}.

(** [desc.inverse] when it is truthy. *)
Definition inv_name (d : desc) : option string :=
  match desc_inverse d with
  | Some i => if String.eqb i "" then None else Some i
  | None => None
  end.

(** What a class definition puts on its prototype. *)
Inductive decl : Type :=
| DAttr (coerce : value -> outcome value) (def : value) (* by [attr] *)
| DHasOne (i : assoc_info)                              (* by [hasOne] *)
| DHasMany (i : assoc_info)                             (* by [hasMany] *)
| DMethod.                                              (* a generated method *)

(** A property found on the prototype chain of an instance. *)
Inductive pdesc : Type :=
| PAttr (coerce : value -> outcome value) (def : value)
| PHasOne (i : assoc_info)
| PHasMany (i : assoc_info)
| PId                          (* [get id] / [set id] of [Model.prototype] *)
| PReadonly (slot : string)    (* a getter without setter *)
| PData.                       (* a method or other data property *)

Definition pdesc_of (d : decl) : pdesc :=
  match d with
  | DAttr coerce def => PAttr coerce def
  | DHasOne i => PHasOne i
  | DHasMany i => PHasMany i
  | DMethod => PData
  end.

Record klass_def : Type := {
  k_name : string;             (* the function's name *)
  k_parent : class_id;         (* [class ... extends ...] *)
  k_proto : gmap string decl   (* the own properties of the prototype *)
}.

Record class_env : Type := {
  classes : list klass_def;
  registeredClasses : gmap string class_id
}.

(** The own property names of [Object.prototype] ([__proto__] is left out:
    assigning through it is not modelled). *)
Definition Object_prototype_names : list string :=
  [ "constructor"; "hasOwnProperty"; "isPrototypeOf"; "propertyIsEnumerable";
    "toLocaleString"; "toString"; "valueOf";
    "__defineGetter__"; "__defineSetter__"; "__lookupGetter__"; "__lookupSetter__" ].

Definition in_Object_prototype (k : string) : bool :=
  existsb (String.eqb k) Object_prototype_names.

(** [Model.prototype], followed by [Object.prototype]. *)
Definition Model_prototype (k : string) : option pdesc :=
  if String.eqb k "id" then Some PId
  else if String.eqb k "sourceState" then Some (PReadonly "__sourceState__")
  else if String.eqb k "isBusy" then Some (PReadonly "__isBusy__")
  else if String.eqb k "associations" then Some PData
  else if in_Object_prototype k then Some PData
  else None.

(** Property lookup along the prototype chain of class [c]. *)
Fixpoint proto_lookup_from (E : class_env) (fuel : nat) (c : class_id) (k : string)
  : option pdesc :=
  match c with
  | ModelClass => Model_prototype k
  | Sub n =>
      match classes E !! n with
      | None => None
      | Some kd =>
          match k_proto kd !! k with
          | Some p => Some (pdesc_of p)
          | None =>
              match fuel with
              | O => None
              | S fuel' => proto_lookup_from E fuel' (k_parent kd) k
              end
          end
      end
  end.

Definition proto_lookup (E : class_env) (c : class_id) (k : string) : option pdesc :=
  proto_lookup_from E (length (classes E)) c k.

(** [sub instanceof sup] on classes: [sup.prototype] is on the prototype
    chain of [sub.prototype], or is [sub.prototype]. *)
Fixpoint extends_from (E : class_env) (fuel : nat) (sub sup : class_id) : bool :=
  if decide (sub = sup) then true
  else match sub with
       | ModelClass => false
       | Sub n =>
           match classes E !! n, fuel with
           | Some kd, S fuel' => extends_from E fuel' (k_parent kd) sup
           | _, _ => false
           end
       end.

Definition extends (E : class_env) (sub sup : class_id) : bool :=
  extends_from E (length (classes E)) sub sup.

(** What [this.associations[name]] evaluates to. *)
Inductive assoc_lookup : Type :=
| ADesc (d : desc)   (* a descriptor recorded by [hasOne] or [hasMany] *)
| AForeign           (* a member of [Object.prototype]: truthy, without [type] *)
| ANone.             (* [undefined] *)

Definition associations (E : class_env) (c : class_id) (name : string) : assoc_lookup :=
  match proto_lookup E c name with
  | Some (PHasOne i) => ADesc (mk_desc HasOne name i)
  | Some (PHasMany i) => ADesc (mk_desc HasMany name i)
  | _ => if in_Object_prototype name then AForeign else ANone
  end.

(** ** The heap and the identity map *)

Record instance : Type := {
  i_class : class_id;
  i_own : gmap string value   (* own properties *)
}.

Record state : Type := {
  heap : list instance;
  idmap : list (class_id * value * nat)
}.

Definition M (A : Type) : Type := state -> outcome A * state.

Definition ret {A} (a : A) : M A := fun s => (Ok a, s).
Definition throw {A} (e : exn) : M A := fun s => (Throw e, s).
Definition bind {A B} (m : M A) (k : A -> M B) : M B :=
  fun s => match m s with
           | (Ok a, s') => k a s'
           | (Throw e, s') => (Throw e, s')
           end.

Notation "'do' x <- m ; k" := (bind m (fun x => k))
  (at level 10, x name, m at level 100, k at level 200).
Notation "'run' m ; k" := (bind m (fun _ => k))
  (at level 10, m at level 100, k at level 200).

Fixpoint for_each {A} (l : list A) (body : A -> M unit) : M unit :=
  match l with
  | [] => ret tt
  | x :: l' => run body x; for_each l' body
  end.

Definition class_of (r : nat) (s : state) : option class_id :=
  i_class <$> heap s !! r.

Definition own_lookup (r : nat) (k : string) (s : state) : option value :=
  match heap s !! r with
  | Some o => i_own o !! k
  | None => None
  end.

(** [o[k]] on own properties. *)
Definition own_get (r : nat) (k : string) (s : state) : value :=
  default VUndef (own_lookup r k s).

(** [o.hasOwnProperty(k)] *)
Definition has_own (r : nat) (k : string) (s : state) : bool :=
  bool_decide (is_Some (own_lookup r k s)).

Definition write_own (k : string) (v : value) (o : instance) : instance :=
  {| i_class := i_class o; i_own := <[k := v]> (i_own o) |}.

Definition put_own (r : nat) (k : string) (v : value) (s : state) : state :=
  {| heap := alter (write_own k v) r (heap s); idmap := idmap s |}.

(** [o[k] = v] on own properties. *)
Definition own_set (r : nat) (k : string) (v : value) : M unit :=
  fun s => (Ok tt, put_own r k v s).

(** [new klass] with no arguments. *)
Definition alloc (c : class_id) : M nat :=
  fun s => (Ok (length (heap s)),
            {| heap := heap s ++ [ {| i_class := c; i_own := ∅ |} ]; idmap := idmap s |}).

(** The key of the private slot of a property: [`__${name}__`]. *)
Definition slot (name : string) : string := "__" +:+ name +:+ "__".

(** The keys under which the library keeps its own data on an instance:
    [__name__] and [nameBeforeCoercion]. *)
Definition private_key (k : string) : bool :=
  bool_decide (list_ascii_of_string "__" `prefix_of` list_ascii_of_string k) ||
  bool_decide (list_ascii_of_string "BeforeCoercion" `suffix_of` list_ascii_of_string k).

(** A payload that names properties only. *)
Definition public_keys (attrs : list (string * value)) : bool :=
  forallb (fun kv => negb (private_key (fst kv))) attrs.

(** The array a [hasMany] getter answers with. *)
Definition collection (r : nat) (name : string) (s : state) : list value :=
  match own_get r (slot name) s with
  | VArr l => l
  | _ => []
  end.

(** Modelled from the spec: the identity map ([id_map.js] is not among the
    sources).  [get(class, id)] is an exact-match lookup on the pair;
    [insert(instance)] registers the instance under its class and id. *)
Definition idmap_find (c : class_id) (id : value) (im : list (class_id * value * nat))
  : option nat :=
  snd <$> List.find (fun e => bool_decide (fst (fst e) = c) && same_value_zero (snd (fst e)) id) im.

Definition IdMap_get (c : class_id) (id : value) (s : state) : option nat :=
  idmap_find c id (idmap s).

Definition IdMap_insert (r : nat) : M unit :=
  fun s => match class_of r s with
           | Some c => (Ok tt, {| heap := heap s; idmap := (c, own_get r "__id__" s, r) :: idmap s |})
           | None => (Throw TypeError, s)
           end.

(** ** model.js *)

Definition NEW : value := VStr "new".
Definition EMPTY : value := VStr "empty".
Definition LOADED : value := VStr "loaded".
Definition DELETED : value := VStr "deleted".
Definition NOTFOUND : value := VStr "notfound".

(** [o instanceof klass] for a model class. *)
Definition instanceof (E : class_env) (o : value) (k : class_id) (s : state) : bool :=
  match o with
  | VModel r =>
      match class_of r s with
      | Some c => extends E c k
      | None => false
      end
  | _ => false
  end.

(** The values a [for ... of] loop draws from [a]; [None] when [a] is not
    iterable. *)
Definition iter_values (a : value) : option (list value) :=
  match a with
  | VArr l => Some l
  | VStr str => Some (map (fun c => VStr (String c EmptyString)) (list_ascii_of_string str))
  | _ => None
  end.

(** [l.indexOf(m)] when it is not [-1]. *)
Fixpoint index_of (m : value) (l : list value) : option nat :=
  match l with
  | [] => None
  | x :: l' => if strict_eq x m then Some O else S <$> index_of m l'
  end.

(** [l] without the first element that is [=== m]. *)
Definition remove_first (m : value) (l : list value) : list value :=
  match index_of m l with
  | Some i => delete i l
  | None => l
  end.

Section Model.

Variable E : class_env.

(** [(typeof desc.klass === 'function') ? desc.klass : registeredClasses[desc.klass]],
    followed by the two checks. *)
Definition checkAssociatedType (this : nat) (d : desc) (o : value) : M unit :=
  fun s =>
    match desc_klass d with
    | KFun c =>
        if instanceof E o c s then (Ok tt, s)
        else (Throw (TypeMismatch (desc_name d) o), s)
    | KName n =>
        match registeredClasses E !! n with
        | Some c =>
            if instanceof E o c s then (Ok tt, s)
            else (Throw (TypeMismatch (desc_name d) o), s)
        | None =>
            if String.eqb n "constructor" then
              (* [Object]: every object is an instance *)
              match o with
              | VModel _ | VArr _ | VObj _ | VNative _ => (Ok tt, s)
              | _ => (Throw (TypeMismatch (desc_name d) o), s)
              end
            else if in_Object_prototype n then
              (* a built-in method has no [prototype] *)
              (Throw TypeError, s)
            else (Throw (UnresolvedClass n), s)
        end
    end.

(** The getter that [hasMany] defines:
    [this[`__${name}__`] = this[`__${name}__`] || []]. *)
Definition hasMany_get (this : nat) (name : string) : M value :=
  fun s =>
    let v := own_get this (slot name) s in
    if truthy v then (Ok v, s) else bind (own_set this (slot name) (VArr [])) (fun _ => ret (VArr [])) s.

(** [this[name]] where an array method is about to be called on it. *)
Definition read_array (this : nat) (name : string) : M (list value) :=
  do v <- hasMany_get this name;
  match v with
  | VArr l => ret l
  | _ => throw TypeError
  end.

(** [for (m of prev) body(m)] over the array that the slot [key] of
    [this] holds, read again at every step as the array iterator does.
    The bodies it is used with never lengthen that array, so its initial
    length bounds the number of steps. *)
Fixpoint for_of_slot (fuel i : nat) (this : nat) (key : string) (body : value -> M unit)
  : M unit :=
  match fuel with
  | O => ret tt
  | S fuel' =>
      fun s =>
        match own_get this key s with
        | VArr l =>
            match l !! i with
            | Some m => bind (body m) (fun _ => for_of_slot fuel' (S i) this key body) s
            | None => (Ok tt, s)
            end
        | _ => (Ok tt, s)
        end
  end.

Section Setters.

(** The two functions through which a setter notifies the inverse
    side. *)
Variables inverseRemoved inverseAdded : value -> string -> value -> M unit.

Definition hasOneSet_with (this : nat) (d : desc) (v : value) (sync : bool) : M unit :=
  let key := slot (desc_name d) in
  fun s =>
    let prev := own_get this key s in
    (run (if truthy v then checkAssociatedType this d v else ret tt);
     run own_set this key v;
     run (match inv_name d with
          | Some inv => if sync && truthy prev then inverseRemoved prev inv (VModel this)
                        else ret tt
          | None => ret tt
          end);
     match inv_name d with
     | Some inv => if sync && truthy v then inverseAdded v inv (VModel this)
                   else ret tt
     | None => ret tt
     end) s.

Definition hasManyAdd_with (this : nat) (d : desc) (models : list value) (sync : bool)
  : M unit :=
  let name := desc_name d in
  run read_array this name;                       (* prev = this[name].slice() *)
  for_each models (fun m =>
    run checkAssociatedType this d m;
    run (match inv_name d with
         | Some inv => if sync then inverseAdded m inv (VModel this) else ret tt
         | None => ret tt
         end);
    do l <- read_array this name;                 (* this[name].push(m) *)
    own_set this (slot name) (VArr (l ++ [m]))).

Definition hasManyRemove_with (this : nat) (d : desc) (models : list value) (sync : bool)
  : M unit :=
  let name := desc_name d in
  run read_array this name;                       (* prev = this[name].slice() *)
  for_each models (fun m =>
    do l <- read_array this name;
    match index_of m l with
    | Some i =>
        run (match inv_name d with
             | Some inv => if sync then inverseRemoved m inv (VModel this) else ret tt
             | None => ret tt
             end);
        do l' <- read_array this name;            (* this[name].splice(i, 1) *)
        own_set this (slot name) (VArr (delete i l'))
    | None => ret tt
    end).

End Setters.

(** With [sync] false the setters never reach the inverse side. *)
Definition unreachable : value -> string -> value -> M unit := fun _ _ _ => ret tt.

Definition inverseRemoved (this : value) (name : string) (model : value) : M unit :=
  match this with
  | VModel r =>
      fun s =>
        match class_of r s with
        | None => (Throw TypeError, s)
        | Some c =>
            match associations E c name with
            | ANone => (Throw (UnknownAssociation name), s)
            | AForeign => (Ok tt, s)
            | ADesc d =>
                match desc_type d with
                | HasOne => hasOneSet_with unreachable unreachable r d VUndef false s
                | HasMany => hasManyRemove_with unreachable r d [model] false s
                end
            end
        end
  | _ => throw TypeError    (* [this.associations] is undefined *)
  end.

Definition inverseAdded (this : value) (name : string) (model : value) : M unit :=
  match this with
  | VModel r =>
      fun s =>
        match class_of r s with
        | None => (Throw TypeError, s)
        | Some c =>
            match associations E c name with
            | ANone => (Throw (UnknownAssociation name), s)
            | AForeign => (Ok tt, s)
            | ADesc d =>
                match desc_type d with
                | HasOne => hasOneSet_with unreachable unreachable r d model false s
                | HasMany => hasManyAdd_with unreachable r d [model] false s
                end
            end
        end
  | _ => throw TypeError
  end.

Definition hasOneSet : nat -> desc -> value -> bool -> M unit :=
  hasOneSet_with inverseRemoved inverseAdded.

Definition hasManyAdd : nat -> desc -> list value -> bool -> M unit :=
  hasManyAdd_with inverseAdded.

Definition hasManyRemove : nat -> desc -> list value -> bool -> M unit :=
  hasManyRemove_with inverseRemoved.

Definition hasManySet (this : nat) (d : desc) (a : value) : M unit :=
  let name := desc_name d in
  do prev <- hasMany_get this name;
  match iter_values a with
  | None => throw TypeError
  | Some elems =>
      run for_each elems (checkAssociatedType this d);
      run (match inv_name d with
           | Some inv =>
               match prev with
               | VArr l =>
                   run for_of_slot (length l) 0 this (slot name)
                         (fun m => inverseRemoved m inv (VModel this));
                   for_each elems (fun m => inverseAdded m inv (VModel this))
               | _ => throw TypeError
               end
           | None => ret tt
           end);
      own_set this (slot name) a
  end.

(** [this.id = id] through the accessor of [Model.prototype]. *)
Definition set_id (this : nat) (id : value) : M unit :=
  fun s =>
    if truthy (own_get this "__id__" s) then (Throw (IdentityImmutable this), s)
    else (run own_set this "__id__" id; IdMap_insert this) s.

(** [k in model] *)
Definition has_prop (this : nat) (k : string) (s : state) : bool :=
  has_own this k s ||
  match class_of this s with
  | Some c => bool_decide (is_Some (proto_lookup E c k))
  | None => false
  end.

(** [model[k] = v] (strict mode). *)
Definition set_prop (this : nat) (k : string) (v : value) : M unit :=
  fun s =>
    match class_of this s with
    | None => (Throw TypeError, s)
    | Some c =>
        if has_own this k s then own_set this k v s
        else
          match proto_lookup E c k with
          | Some (PAttr coerce _) =>
              match coerce v with
              | Ok v' =>
                  (run own_set this (slot k) v';
                   own_set this (k +:+ "BeforeCoercion") v) s
              | Throw e => (Throw e, s)
              end
          | Some (PHasOne i) => hasOneSet this (mk_desc HasOne k i) v true s
          | Some (PHasMany i) => hasManySet this (mk_desc HasMany k i) v s
          | Some PId => set_id this v s
          | Some (PReadonly _) => (Throw TypeError, s)
          | Some PData | None => own_set this k v s
          end
    end.

(** [model[k]] *)
Definition get_prop (this : nat) (k : string) : M value :=
  fun s =>
    match class_of this s with
    | None => (Throw TypeError, s)
    | Some c =>
        if has_own this k s then (Ok (own_get this k s), s)
        else
          match proto_lookup E c k with
          | Some (PAttr _ def) =>
              let v := own_get this (slot k) s in
              (Ok (if strict_eq v VUndef then def else v), s)
          | Some (PHasOne _) => (Ok (own_get this (slot k) s), s)
          | Some (PHasMany _) => hasMany_get this k s
          | Some PId => (Ok (own_get this "__id__" s), s)
          | Some (PReadonly sl) => (Ok (own_get this sl s), s)
          | Some PData => (Ok (VNative k), s)
          | None => (Ok VUndef, s)
          end
    end.

(** [for (let k in attrs) { if (k in this) { this[k] = attrs[k]; } }] over
    the entries of [attrs] in enumeration order. *)
Definition assign_known (this : nat) (attrs : list (string * value)) : M unit :=
  for_each attrs (fun kv =>
    fun s => if has_prop this (fst kv) s then set_prop this (fst kv) (snd kv) s
             else (Ok tt, s)).

(** [new klass(attrs)] *)
Definition Model_new (c : class_id) (attrs : list (string * value)) : M nat :=
  do model <- alloc c;
  run assign_known model attrs;
  ret model.

(** [attrs[k]] on an object literal. *)
Definition obj_get (attrs : list (string * value)) (k : string) : value :=
  match List.find (fun kv => String.eqb (fst kv) k) attrs with
  | Some kv => snd kv
  | None => VUndef
  end.

(** [k in attrs] on an object literal. *)
Definition has_key (k : string) (attrs : list (string * value)) : bool :=
  existsb (fun kv => String.eqb (fst kv) k) attrs.

(** [delete attrs[k]] *)
Definition obj_delete (k : string) (attrs : list (string * value)) : list (string * value) :=
  List.filter (fun kv => negb (String.eqb (fst kv) k)) attrs.

Definition Model_empty (c : class_id) (id : value) : M nat :=
  do model <- Model_new c [("id", id)];
  run own_set model "__sourceState__" EMPTY;
  ret model.

Definition Model_load (c : class_id) (attrs : list (string * value)) : M nat :=
  let id := obj_get attrs "id" in
  if negb (truthy id) then throw MissingIdentity
  else
    let attrs := obj_delete "id" attrs in
    do model <- (fun s => match IdMap_get c id s with
                          | Some r => (Ok r, s)
                          | None => Model_new c [] s
                          end);
    run assign_known model attrs;
    do mid <- get_prop model "id";
    run (if strict_eq mid VUndef then set_prop model "id" id else ret tt);
    run own_set model "__sourceState__" LOADED;
    run own_set model "__isBusy__" (VBool false);
    ret model.

(** The body of [load] from the first loop on, for the instance [model]. *)
Definition load_into (model : nat) (id : value) (attrs : list (string * value)) : M nat :=
  run assign_known model attrs;
  do mid <- get_prop model "id";
  run (if strict_eq mid VUndef then set_prop model "id" id else ret tt);
  run own_set model "__sourceState__" LOADED;
  run own_set model "__isBusy__" (VBool false);
  ret model.

Definition Model_local (c : class_id) (id : value) : M nat :=
  fun s => match IdMap_get c id s with
           | Some r => (Ok r, s)
           | None => Model_empty c id s
           end.

(** The mapper call is commented out in the source, which leaves
    [local]. *)
Definition Model_get (c : class_id) (id : value) : M nat := Model_local c id.

End Model.

(** ** The later revision of the converters *)

(** The converters of the later revision of [attrs.js] that differ from
    those of [src/attrs.js], the integer and date converters left out.
    [StringAttr] has become a class whose instances carry the options of the
    attribute. *)
Module LaterAttrs.

(** White space and line terminators, for strings of code units below
    256. *)
Definition is_space (c : ascii) : bool :=
  let n := nat_of_ascii c in
  ((9 <=? n)%nat && (n <=? 13)%nat) || (n =? 32)%nat || (n =? 160)%nat.

Fixpoint drop_spaces (l : list ascii) : list ascii :=
  match l with
  | [] => []
  | c :: l' => if is_space c then drop_spaces l' else l
  end.

(** [s.trim()] *)
Definition trim (str : string) : string :=
  string_of_list_ascii
    (rev (drop_spaces (rev (drop_spaces (list_ascii_of_string str))))).

(** [Object.assign({trim: true}, opts).trim], as a truth value. *)
Definition trim_option (opts : list (string * value)) : bool :=
  if has_key "trim" opts then truthy (obj_get opts "trim") else true.

Section Builtins.

Variable String_ : value -> string.
Variable parseNumber : string -> value.

Definition StringAttr_coerce (opts : list (string * value)) (v : value) : value :=
  let v := if not_nullish v then VStr (String_ v) else v in
  match v with
  | VStr str => if trim_option opts then VStr (trim str) else v
  | _ => v
  end.

Definition NumberAttr_coerce (v : value) : value :=
  match v with
  | VNum _ | VNaN => v
  | VStr str => parseNumber str
  | VUndef => VUndef
  | _ => VNull
  end.

End Builtins.

End LaterAttrs.

(** ** Class definitions *)

Definition upcase (c : ascii) : ascii :=
  let n := Ascii.nat_of_ascii c in
  if (97 <=? n)%nat && (n <=? 122)%nat then Ascii.ascii_of_nat (n - 32) else c.

(** [s.charAt(0).toUpperCase() + s.slice(1)], on ASCII. *)
Definition capitalize (str : string) : string :=
  match str with
  | EmptyString => EmptyString
  | String c rest => String (upcase c) rest
  end.

(** [Object.defineProperty(klass.prototype, k, ...)] and
    [klass.prototype[k] = ...] *)
Definition define_property (k : string) (p : decl) (kd : klass_def) : klass_def :=
  {| k_name := k_name kd; k_parent := k_parent kd; k_proto := <[k := p]> (k_proto kd) |}.

Definition update_class (n : nat) (f : klass_def -> klass_def) (E : class_env) : class_env :=
  {| classes := alter f n (classes E); registeredClasses := registeredClasses E |}.

(** [class name extends parent {}] *)
Definition define_class (name : string) (parent : class_id) (E : class_env)
  : class_env * class_id :=
  ({| classes := classes E ++ [ {| k_name := name; k_parent := parent; k_proto := ∅ |} ];
      registeredClasses := registeredClasses E |},
   Sub (length (classes E))).

(** [Model.registerClass(klass, name = klass.name)] *)
Definition Model_registerClass (klass : class_id) (name : value) (E : class_env)
  : outcome class_env :=
  match klass with
  | ModelClass => Throw NotAModelSubclass
  | Sub n =>
      match classes E !! n with
      | None => Throw NotAModelSubclass
      | Some kd =>
          let name := if strict_eq name VUndef then VStr (k_name kd) else name in
          match name with
          | VStr nm =>
              if String.eqb nm "" then Throw MissingName
              else if bool_decide (is_Some (registeredClasses E !! nm)) || in_Object_prototype nm
              then Throw (DuplicateName nm)
              else Ok {| classes := classes E;
                         registeredClasses := <[nm := klass]> (registeredClasses E) |}
          | _ => Throw MissingName
          end
      end
  end.

(** [klass.attr(name, type, opts)]; [def] is [opts.default]. *)
Definition Model_attr (registered : gmap string (value -> outcome value))
    (n : nat) (name type : string) (def : value) (E : class_env) : outcome class_env :=
  match registered !! type with
  | None => Throw (UnknownAttrType type)
  | Some coerce => Ok (update_class n (define_property name (DAttr coerce def)) E)
  end.


(** [klass.hasOne(name, klass, opts)].  The descriptor is recorded once: the
    accessor and [associations[name]] read the same entry. *)
Definition Model_hasOne (n : nat) (name : string) (klass : klass_ref) (inverse : option string)
    (E : class_env) : class_env :=
  update_class n
    (define_property name
       (DHasOne {| a_klass := klass; a_inverse := inverse |})) E.

(** [klass.hasMany(name, klass, opts)], with the three generated methods. *)
Definition Model_hasMany (n : nat) (name : string) (klass : klass_ref) (inverse : option string)
    (E : class_env) : class_env :=
  let cap := capitalize name in
  update_class n
    (fun kd =>
       define_property ("clear" +:+ cap) DMethod
         (define_property ("remove" +:+ cap) DMethod
            (define_property ("add" +:+ cap) DMethod
               (define_property name
                  (DHasMany {| a_klass := klass; a_inverse := inverse |})
                  kd)))) E.

(** The generated [add<Name>], [remove<Name>] and [clear<Name>] methods. *)
Definition generated_add (E : class_env) (this : nat) (d : desc) (args : list value) : M unit :=
  hasManyAdd E this d args true.

Definition generated_remove (E : class_env) (this : nat) (d : desc) (args : list value)
  : M unit :=
  hasManyRemove E this d args true.


Definition empty_env : class_env := {| classes := []; registeredClasses := ∅ |}.
Definition empty_state : state := {| heap := []; idmap := [] |}.

(** ** The classes of the test suite *)

(** [String(v)] on primitives; the examples convert nothing else. *)
Definition String_of_primitive (v : value) : string :=
  match v with
  | VUndef => "undefined"
  | VNull => "null"
  | VBool true => "true"
  | VBool false => "false"
  | VNum n => pretty.pretty n
  | VNaN => "NaN"
  | VStr str => str
  | _ => "[object Object]"
  end.

(** Modelled from the spec: [parseNumber] of [parsers.js], "a numeric-string
    parser that fails to a null-like result on non-numeric text"; here on
    strings of decimal digits. *)
Fixpoint parse_digits (acc : Z) (cs : list ascii) : value :=
  match cs with
  | [] => VNum acc
  | c :: cs' =>
      let n := Ascii.nat_of_ascii c in
      if (48 <=? n)%nat && (n <=? 57)%nat
      then parse_digits (10 * acc + Z.of_nat (n - 48))%Z cs'
      else VNull
  end.

Definition parse_decimal (str : string) : value :=
  match list_ascii_of_string str with
  | [] => VNull
  | cs => parse_digits 0 cs
  end.

Definition registry : gmap string (value -> outcome value) :=
  RynoAttrs.registeredAttrs String_of_primitive parse_decimal.

(** A declaration that throws leaves the class table as it was. *)
Definition declare (f : class_env -> outcome class_env) (E : class_env) : class_env :=
  match f E with
  | Ok E' => E'
  | Throw _ => E
  end.

Module Blog.

Definition BasicModel : class_id := Sub 0.
Definition Author : class_id := Sub 1.
Definition Post : class_id := Sub 2.
Definition Tag : class_id := Sub 3.

Definition env : class_env :=
  let E := fst (define_class "BasicModel" ModelClass empty_env) in
  let E := declare (Model_attr registry 0 "str" "string" VUndef) E in
  let E := declare (Model_attr registry 0 "strWithDefault" "string" (VStr "zzz")) E in
  let E := declare (Model_attr registry 0 "num" "number" VUndef) E in
  let E := declare (Model_registerClass BasicModel VUndef) E in
  let E := fst (define_class "Author" ModelClass E) in
  let E := declare (Model_registerClass Author VUndef) E in
  let E := declare (Model_attr registry 1 "first" "string" VUndef) E in
  let E := declare (Model_attr registry 1 "last" "string" VUndef) E in
  let E := Model_hasMany 1 "posts" (KName "Post") (Some "author") E in
  let E := fst (define_class "Post" ModelClass E) in
  let E := declare (Model_registerClass Post VUndef) E in
  let E := declare (Model_attr registry 2 "title" "string" VUndef) E in
  let E := declare (Model_attr registry 2 "body" "string" VUndef) E in
  let E := Model_hasOne 2 "author" (KName "Author") (Some "posts") E in
  let E := Model_hasMany 2 "tags" (KName "Tag") (Some "posts") E in
  let E := fst (define_class "Tag" ModelClass E) in
  let E := declare (Model_registerClass Tag VUndef) E in
  let E := declare (Model_attr registry 3 "name" "string" VUndef) E in
  Model_hasMany 3 "posts" (KName "Post") (Some "tags") E.

End Blog.

(** [Foo.hasOne('bar', Bar, {inverse: 'foo'}); Bar.hasOne('foo', Foo, {inverse: 'bar'})] *)
Module OneOne.

Definition Foo : class_id := Sub 0.
Definition Bar : class_id := Sub 1.

Definition env : class_env :=
  let E := fst (define_class "Bar" ModelClass (fst (define_class "Foo" ModelClass empty_env))) in
  Model_hasOne 1 "foo" (KFun Foo) (Some "bar") (Model_hasOne 0 "bar" (KFun Bar) (Some "foo") E).

Definition bar : desc :=
  mk_desc HasOne "bar" {| a_klass := KFun Bar; a_inverse := Some "foo" |}.

End OneOne.

(** [Foo.hasOne('bar', Bar, {inverse: 'foos'}); Bar.hasMany('foos', Foo, {inverse: 'bar'})] *)
Module OneMany.

Definition Foo : class_id := Sub 0.
Definition Bar : class_id := Sub 1.

Definition env : class_env :=
  let E := fst (define_class "Bar" ModelClass (fst (define_class "Foo" ModelClass empty_env))) in
  Model_hasMany 1 "foos" (KFun Foo) (Some "bar") (Model_hasOne 0 "bar" (KFun Bar) (Some "foos") E).

Definition bar : desc :=
  mk_desc HasOne "bar" {| a_klass := KFun Bar; a_inverse := Some "foos" |}.

Definition foos : desc :=
  mk_desc HasMany "foos" {| a_klass := KFun Foo; a_inverse := Some "bar" |}.

End OneMany.

(** [Foo.hasMany('bars', Bar, {inverse: 'foos'}); Bar.hasMany('foos', Foo, {inverse: 'bars'})] *)
Module ManyMany.

Definition Foo : class_id := Sub 0.
Definition Bar : class_id := Sub 1.

Definition env : class_env :=
  let E := fst (define_class "Bar" ModelClass (fst (define_class "Foo" ModelClass empty_env))) in
  Model_hasMany 1 "foos" (KFun Foo) (Some "bars") (Model_hasMany 0 "bars" (KFun Bar) (Some "foos") E).

Definition bars : desc :=
  mk_desc HasMany "bars" {| a_klass := KFun Bar; a_inverse := Some "foos" |}.

Definition foos : desc :=
  mk_desc HasMany "foos" {| a_klass := KFun Foo; a_inverse := Some "bars" |}.

End ManyMany.

(** A symmetric relation: [Person.hasMany('friends', Person, {inverse: 'friends'})] *)
Module Friends.

Definition Person : class_id := Sub 0.

Definition env : class_env :=
  Model_hasMany 0 "friends" (KFun Person) (Some "friends")
    (fst (define_class "Person" ModelClass empty_env)).

Definition friends : desc :=
  mk_desc HasMany "friends" {| a_klass := KFun Person; a_inverse := Some "friends" |}.

End Friends.

(** [run_from s m]: the state in which [m] leaves [s]. *)
Definition run_from {A} (s : state) (m : M A) : state := snd (m s).

(** [var a = new Foo, b = new Bar, b2 = new Bar; b.addFoos(a); b2.addFoos(a);]
    with the classes of [OneMany]. *)
Definition shared_foo : state :=
  run_from empty_state
    (run alloc OneMany.Foo; run alloc OneMany.Bar; run alloc OneMany.Bar;
     run generated_add OneMany.env 1 OneMany.foos [VModel 0];
     generated_add OneMany.env 2 OneMany.foos [VModel 0]).

(** [var f = new Foo, b = new Bar;] ([Foo] and [Bar] are the first and the
    second class of each of the tables above). *)
Definition foo_and_bar : state :=
  run_from empty_state (run alloc (Sub 0); alloc (Sub 1)).

(** [var f = new Person, x = new Person; f.friends = [f, x];] *)
Definition befriended : state :=
  run_from empty_state
    (run alloc Friends.Person; run alloc Friends.Person;
     hasManySet Friends.env 0 Friends.friends (VArr [VModel 0; VModel 1])).

(** What a test observes of a state: the class and the own properties of
    every instance. *)
Definition dump (s : state) : list (class_id * list (string * value)) :=
  map (fun o => (i_class o, map_to_list (i_own o))) (heap s).

(** ** States and payloads that the properties refer to *)





(** A payload whose keys are property names and name either no property of
    class [c] or an attribute whose converter accepts the value. *)
Definition attribute_payload (E : class_env) (c : class_id) (attrs : list (string * value))
  : Prop :=
  forall k v, (k, v) ∈ attrs ->
    private_key k = false /\
    (proto_lookup E c k = None \/
     exists coerce def v', proto_lookup E c k = Some (PAttr coerce def) /\ coerce v = Ok v').

(** ** query_array.js *)

Module QueryArray.

(** A handler registered on a promise with [then] or [catch]. *)
Inductive reaction : Type :=
| OnMapper (derived : nat)   (* the two handlers that [query] passes to [then] when idle *)
| OnQueued (derived : nat)   (* the handler that [query] passes to [then] when busy *)
| Consumer (tag : nat)       (* [then(f1, f2)] of a consumer: both outcomes reach it *)
| Catcher (tag : nat)        (* [catch(f)] of a consumer: rejections reach it *)
| Adopt (derived : nat).     (* [derived] was resolved with this promise *)

Record promise : Type := {
  p_state : option (outcome value);   (* [None]: pending *)
  p_reactions : list reaction
}.

Inductive job : Type :=
| React (r : reaction) (o : outcome value)
| ResolveThenable (derived p : nat).  (* calls [p.then] with the resolving functions of [derived] *)

(** What [modelClass.mapper] is. *)
Inductive mapper_kind : Type :=
| NoMapper             (* [undefined] *)
| NoQueryMethod        (* an object without [query] *)
| ReturnsNoPromise     (* [query] returns something that is not a promise *)
| Working.             (* [query] returns a new pending promise *)

Record t : Type := {
  modelClass : class_id;
  isBusy : bool;
  queued : option value;                 (* [__queued__] *)
  error : option exn;                    (* [__error__] *)
  contents : list nat;                   (* the elements of the array *)
  current : nat;                         (* [__promise__] *)
  promises : list promise;
  jobs : list job;
  calls : list value;                    (* what the mapper's [query] received, oldest first *)
  observed : list (nat * outcome value); (* what the consumers' handlers received *)
  models : state
}.

Definition with_busy (b : bool) (q : t) : t :=
  {| modelClass := modelClass q; isBusy := b; queued := queued q; error := error q;
     contents := contents q; current := current q; promises := promises q; jobs := jobs q;
     calls := calls q; observed := observed q; models := models q |}.

Definition with_queued (o : option value) (q : t) : t :=
  {| modelClass := modelClass q; isBusy := isBusy q; queued := o; error := error q;
     contents := contents q; current := current q; promises := promises q; jobs := jobs q;
     calls := calls q; observed := observed q; models := models q |}.

Definition with_error (e : option exn) (q : t) : t :=
  {| modelClass := modelClass q; isBusy := isBusy q; queued := queued q; error := e;
     contents := contents q; current := current q; promises := promises q; jobs := jobs q;
     calls := calls q; observed := observed q; models := models q |}.

Definition with_contents (l : list nat) (st : state) (q : t) : t :=
  {| modelClass := modelClass q; isBusy := isBusy q; queued := queued q; error := error q;
     contents := l; current := current q; promises := promises q; jobs := jobs q;
     calls := calls q; observed := observed q; models := st |}.

Definition with_current (p : nat) (q : t) : t :=
  {| modelClass := modelClass q; isBusy := isBusy q; queued := queued q; error := error q;
     contents := contents q; current := p; promises := promises q; jobs := jobs q;
     calls := calls q; observed := observed q; models := models q |}.

Definition with_promises (ps : list promise) (js : list job) (q : t) : t :=
  {| modelClass := modelClass q; isBusy := isBusy q; queued := queued q; error := error q;
     contents := contents q; current := current q; promises := ps; jobs := js;
     calls := calls q; observed := observed q; models := models q |}.

Definition with_call (opts : value) (q : t) : t :=
  {| modelClass := modelClass q; isBusy := isBusy q; queued := queued q; error := error q;
     contents := contents q; current := current q; promises := promises q; jobs := jobs q;
     calls := calls q ++ [opts]; observed := observed q; models := models q |}.

Definition with_observed (tag : nat) (o : outcome value) (q : t) : t :=
  {| modelClass := modelClass q; isBusy := isBusy q; queued := queued q; error := error q;
     contents := contents q; current := current q; promises := promises q; jobs := jobs q;
     calls := calls q; observed := observed q ++ [(tag, o)]; models := models q |}.

(** [new Promise(...)], pending. *)
Definition new_promise (q : t) : nat * t :=
  (length (promises q),
   with_promises (promises q ++ [ {| p_state := None; p_reactions := [] |} ]) (jobs q) q).

(** [p.then(...)] with the handlers [r]: the reaction is kept while [p] is
    pending, and queued as a job when [p] is settled. *)
Definition subscribe (p : nat) (r : reaction) (q : t) : t :=
  match promises q !! p with
  | Some {| p_state := None; p_reactions := rs |} =>
      with_promises (<[p := {| p_state := None; p_reactions := rs ++ [r] |}]> (promises q))
        (jobs q) q
  | Some {| p_state := Some o; p_reactions := _ |} =>
      with_promises (promises q) (jobs q ++ [React r o]) q
  | None => q
  end.

(** Fulfilling or rejecting a pending promise queues its reactions. *)
Definition settle (p : nat) (o : outcome value) (q : t) : t :=
  match promises q !! p with
  | Some {| p_state := None; p_reactions := rs |} =>
      with_promises (<[p := {| p_state := Some o; p_reactions := [] |}]> (promises q))
        (jobs q ++ map (fun r => React r o) rs) q
  | _ => q
  end.

Section Collection.

Variable E : class_env.
Variable mapper : mapper_kind.

(** Modelled from the spec: [loadAll(array)] "applies [load] to each
    element, returning the resulting instances in the same order" (the
    revision of [model.js] among the sources has no [loadAll]). *)
Fixpoint loadAll_list (c : class_id) (objects : list value) : M (list nat) :=
  match objects with
  | [] => ret []
  | VObj attrs :: rest =>
      do m <- Model_load E c attrs;
      do ms <- loadAll_list c rest;
      ret (m :: ms)
  | _ :: _ => throw TypeError
  end.

Definition Model_loadAll (c : class_id) (objects : value) : M (list nat) :=
  match objects with
  | VArr l => loadAll_list c l
  | _ => throw TypeError
  end.

(** Modelled from the spec: [_callMapper('query', [opts])] "fails with a
    descriptive error if the class has no mapper, the mapper lacks a [query]
    method, or the method's return value is not promise-like"; otherwise it
    answers with the promise of the mapper. *)
Definition callMapper (opts : value) (q : t) : outcome nat * t :=
  match mapper with
  | NoMapper => (Throw (MapperContractError "no mapper defined"), q)
  | NoQueryMethod => (Throw (MapperContractError "mapper does not implement `query`"), q)
  | ReturnsNoPromise =>
      (Throw (MapperContractError "mapper's `query` method did not return a Promise"),
       with_call opts q)
  | Working => let (pm, q') := new_promise (with_call opts q) in (Ok pm, q')
  end.

(** [this.__queued__] is truthy. *)
Definition has_queued (q : t) : bool :=
  match queued q with
  | Some v => truthy v
  | None => false
  end.

(** The default of the parameter: [opts = {}]. *)
Definition default_opts (opts : value) : value :=
  if strict_eq opts VUndef then VObj [] else opts.

(** [query(opts = {})] *)
Definition query (opts : value) (q : t) : outcome unit * t :=
  let opts := default_opts opts in
  if isBusy q then
    let q1 :=
      if has_queued q then q
      else
        let (d, q') := new_promise q in
        with_current d (subscribe (current q) (OnQueued d) q') in
    (Ok tt, with_queued (Some opts) q1)
  else
    match callMapper opts (with_busy true q) with
    | (Ok pm, q1) =>
        let (d, q2) := new_promise q1 in
        (Ok tt, with_current d (subscribe pm (OnMapper d) q2))
    | (Throw e, q1) => (Throw e, q1)
    end.

(** [then(f1, f2)] and [catch(f)] of the collection. *)
Definition then_ (tag : nat) (q : t) : t := subscribe (current q) (Consumer tag) q.
Definition catch (tag : nat) (q : t) : t := subscribe (current q) (Catcher tag) q.

(** Running one job. *)
Definition run_job (j : job) (q : t) : t :=
  match j with
  | React (OnMapper d) (Ok objects) =>
      match Model_loadAll (modelClass q) objects (models q) with
      | (Ok ms, st) =>
          settle d (Ok VUndef) (with_error None (with_busy false (with_contents ms st q)))
      | (Throw e, st) => settle d (Throw e) (with_contents (contents q) st q)
      end
  | React (OnMapper d) (Throw e) =>
      settle d (Throw e) (with_error (Some e) (with_busy false q))
  | React (OnQueued d) (Ok _) =>
      match query (default VUndef (queued q)) q with
      | (Ok _, q1) =>
          let q2 := with_queued None q1 in
          if Nat.eqb (current q2) d then settle d (Throw TypeError) q2
          else with_promises (promises q2) (jobs q2 ++ [ResolveThenable d (current q2)]) q2
      | (Throw e, q1) => settle d (Throw e) q1
      end
  | React (OnQueued d) (Throw e) => settle d (Throw e) q
  | React (Consumer tag) o => with_observed tag o q
  | React (Catcher tag) (Throw e) => with_observed tag (Throw e) q
  | React (Catcher tag) (Ok _) => q
  | React (Adopt d) o => settle d o q
  | ResolveThenable d p => subscribe p (Adopt d) q
  end.

(** Running the queued jobs, oldest first, [fuel] of them at most. *)
Fixpoint drain (fuel : nat) (q : t) : t :=
  match fuel with
  | O => q
  | S fuel' =>
      match jobs q with
      | [] => q
      | j :: js => drain fuel' (run_job j (with_promises (promises q) js q))
      end
  end.

(** What a consumer does with a collection. *)
Inductive call : Type :=
| CallQuery (opts : value)
| CallThen (tag : nat)
| CallCatch (tag : nat).

Definition perform (c : call) (q : t) : t :=
  match c with
  | CallQuery opts => snd (query opts q)
  | CallThen tag => then_ tag q
  | CallCatch tag => catch tag q
  end.

Definition perform_all (cs : list call) (q : t) : t := fold_left (fun q c => perform c q) cs q.

(** The handlers that a sequence of calls registers, in order. *)
Definition handlers_of (cs : list call) : list nat :=
  concat (map (fun c => match c with
                        | CallQuery _ => []
                        | CallThen tag | CallCatch tag => [tag]
                        end) cs).

End Collection.

(** The promises that busy calls of [query] chain after the one at index
    [m]: each but the last has the reactions of its consumers followed by
    the [OnQueued] handler of the next. *)
Fixpoint chain_init (m : nat) (init : list (list reaction)) : list promise :=
  match init with
  | [] => []
  | seg :: init' =>
      {| p_state := None; p_reactions := seg ++ [OnQueued (S m)] |} :: chain_init (S m) init'
  end.

(** The collection [q0] once a call of [query] has been dispatched with
    [opts] and busy calls have followed. *)
Definition in_flight (q0 : t) (opts : value) (qd : option value)
    (init : list (list reaction)) (last : list reaction) : t :=
  let n := length (promises q0) in
  {| modelClass := modelClass q0; isBusy := true; queued := qd; error := error q0;
     contents := contents q0; current := S n + length init;
     promises := promises q0 ++ {| p_state := None; p_reactions := [OnMapper (S n)] |}
                 :: chain_init (S n) init ++ [ {| p_state := None; p_reactions := last |} ];
     jobs := []; calls := calls q0 ++ [opts]; observed := observed q0; models := models q0 |}.

(** A reaction of a consumer. *)
Definition is_consumer (r : reaction) : bool :=
  match r with
  | Consumer _ | Catcher _ => true
  | _ => false
  end.

Definition tag_of (r : reaction) : list nat :=
  match r with
  | Consumer tag | Catcher tag => [tag]
  | _ => []
  end.

Definition seg_tags (seg : list reaction) : list nat := concat (map tag_of seg).

(** The handlers of consumers on the promises of a collection in flight, in
    the order in which they were registered. *)
Definition all_tags (init : list (list reaction)) (last : list reaction) : list nat :=
  concat (map seg_tags init) ++ seg_tags last.

(** A promise rejected with [e] whose reactions have been queued. *)
Definition rejected (e : exn) : promise := {| p_state := Some (Throw e); p_reactions := [] |}.

Definition with_observed_all (l : list (nat * outcome value)) (q : t) : t :=
  {| modelClass := modelClass q; isBusy := isBusy q; queued := queued q; error := error q;
     contents := contents q; current := current q; promises := promises q; jobs := jobs q;
     calls := calls q; observed := observed q ++ l; models := models q |}.

(** [new QueryArray(modelClass)]: idle, empty, [__promise__] fulfilled. *)
Definition make (c : class_id) (st : state) : t :=
  {| modelClass := c; isBusy := false; queued := None; error := None; contents := [];
     current := 0; promises := [ {| p_state := Some (Ok VUndef); p_reactions := [] |} ];
     jobs := []; calls := []; observed := []; models := st |}.

End QueryArray.

(** ** Collections in the course of a request *)

Module QueryArrayStates.

Import QueryArray.

(** The reaction that a call of [then] or [catch] registers. *)
Definition reaction_of (c : call) : list reaction :=
  match c with
  | CallQuery _ => []
  | CallThen tag => [Consumer tag]
  | CallCatch tag => [Catcher tag]
  end.

(** The handlers that a fulfilment reaches: the first argument of
    [then]. *)
Definition fulfilment_handlers_of (cs : list call) : list nat :=
  concat (map (fun c => match c with CallThen tag => [tag] | _ => [] end) cs).

Definition is_query (c : call) : bool :=
  match c with CallQuery _ => true | _ => false end.

(** A promise fulfilled with [v] whose reactions have been queued. *)
Definition fulfilled (v : value) : promise := {| p_state := Some (Ok v); p_reactions := [] |}.

(** The collection once the request dispatched from [q0] with [opts] has
    been fulfilled and the models [ms] loaded, leaving the store [st]; [ps]
    are the promises chained after the one of the mapper. *)
Definition loaded (q0 : t) (opts : value) (qd : option value) (v : value)
    (ms : list nat) (st : state) (ps : list promise) (js : list job) : t :=
  {| modelClass := modelClass q0; isBusy := false; queued := qd; error := None;
     contents := ms; current := current q0; promises := promises q0 ++ fulfilled v :: ps;
     jobs := js; calls := calls q0 ++ [opts]; observed := observed q0; models := st |}.

(** The handlers among [seg] that a fulfilment reaches. *)
Definition then_tags (seg : list reaction) : list nat :=
  concat (map (fun r => match r with Consumer tag => [tag] | _ => [] end) seg).

(** The collection once the request dispatched from [q0] with [opts] has
    been rejected with [e]; [ps] are the promises chained after the one of
    the mapper and [c] is the current one. *)
Definition failed (q0 : t) (opts : value) (qd : option value) (e : exn)
    (ps : list promise) (c : nat) : t :=
  {| modelClass := modelClass q0; isBusy := false; queued := qd; error := Some e;
     contents := contents q0; current := c; promises := promises q0 ++ rejected e :: ps;
     jobs := []; calls := calls q0 ++ [opts]; observed := observed q0; models := models q0 |}.

(** The collection once the request dispatched from [q0] with [opts] has
    been fulfilled with [v] and [loadAll] has thrown, leaving the store
    [st]. *)
Definition stuck (q0 : t) (opts : value) (qd : option value) (v : value) (st : state)
    (ps : list promise) (js : list job) (c : nat) : t :=
  {| modelClass := modelClass q0; isBusy := true; queued := qd; error := error q0;
     contents := contents q0; current := c; promises := promises q0 ++ fulfilled v :: ps;
     jobs := js; calls := calls q0 ++ [opts]; observed := observed q0; models := st |}.

End QueryArrayStates.

(** ** Invariants used to state what an operation leaves alone *)

(** The classes of the instances are [cls], the identity map satisfies
    [IM], and every location in [L] holds what [snap] says. *)
Definition keeps (cls : nat -> option class_id)
    (IM : list (class_id * value * nat) -> Prop)
    (L : nat -> string -> Prop) (snap : nat -> string -> option value)
    (s : state) : Prop :=
  (forall r, class_of r s = cls r) /\
  IM (idmap s) /\
  forall r k, L r k -> own_lookup r k s = snap r k.

Definition preserves (cls : nat -> option class_id)
    (IM : list (class_id * value * nat) -> Prop)
    (L : nat -> string -> Prop) (snap : nat -> string -> option value)
    {A} (m : M A) : Prop :=
  forall s res s', m s = (res, s') -> keeps cls IM L snap s -> keeps cls IM L snap s'.

(** Only the property [k0] of the instance [r0] may differ between [s] and
    [s']. *)
Definition unchanged_except (r0 : nat) (k0 : string) (s s' : state) : Prop :=
  (forall r, class_of r s' = class_of r s) /\
  idmap s' = idmap s /\
  forall r k, r <> r0 \/ k <> k0 -> own_lookup r k s' = own_lookup r k s.

(** * Properties *)

(** ** The heap *)

Lemma class_of_put_own r k v s r' :
  class_of r' (put_own r k v s) = class_of r' s.
Proof.
  unfold class_of, put_own; simpl.
  destruct (decide (r = r')) as [->|Hne].
  - rewrite list_lookup_alter_eq. by destruct (heap s !! r').
  - by rewrite list_lookup_alter_ne.
Qed.

Lemma own_lookup_put_own_eq r k v s c :
  class_of r s = Some c -> own_lookup r k (put_own r k v s) = Some v.
Proof.
  unfold class_of, own_lookup, put_own; simpl. intros H.
  rewrite list_lookup_alter_eq.
  destruct (heap s !! r) as [o|]; [|done]. simpl.
  by rewrite lookup_insert_eq.
Qed.

Lemma own_lookup_put_own_ne r k v s r' k' :
  r' <> r \/ k' <> k -> own_lookup r' k' (put_own r k v s) = own_lookup r' k' s.
Proof.
  unfold own_lookup, put_own; simpl. intros H.
  destruct (decide (r = r')) as [->|Hne].
  - rewrite list_lookup_alter_eq.
    destruct (heap s !! r') as [o|]; [|done]. simpl.
    rewrite lookup_insert_ne; [done|]. destruct H; congruence.
  - by rewrite list_lookup_alter_ne.
Qed.

Lemma own_get_put_own_eq r k v s c :
  class_of r s = Some c -> own_get r k (put_own r k v s) = v.
Proof. intros H. unfold own_get. by rewrite (own_lookup_put_own_eq _ _ _ _ c H). Qed.

Lemma own_get_put_own_ne r k v s r' k' :
  r' <> r \/ k' <> k -> own_get r' k' (put_own r k v s) = own_get r' k' s.
Proof. intros H. unfold own_get. by rewrite own_lookup_put_own_ne. Qed.

Lemma idmap_put_own r k v s : idmap (put_own r k v s) = idmap s.
Proof. reflexivity. Qed.

Lemma heap_length_put_own r k v s :
  length (heap (put_own r k v s)) = length (heap s).
Proof. unfold put_own; simpl. by rewrite length_alter. Qed.

(** ** Attribute converters *)

(** C9.  The boolean converter of the later revision of [attrs.js] returns
    [undefined] unchanged and the truthiness [!!v] of every other value; the
    converter of [src/attrs.js], the one [model.js] registers, has no such
    guard and turns [undefined] into [false]. *)
Theorem BooleanAttr_coerce_undefined :
  (TransisAttrs.BooleanAttr_coerce VUndef = VUndef /\
   forall v, v <> VUndef -> TransisAttrs.BooleanAttr_coerce v = VBool (truthy v)) /\
  RynoAttrs.BooleanAttr_coerce VUndef = VBool false /\
  (registry !! "boolean" = Some (fun v => Ok (RynoAttrs.BooleanAttr_coerce v))).
Proof.
  repeat split.
  intros v Hv. unfold TransisAttrs.BooleanAttr_coerce.
  destruct v; try reflexivity. congruence.
Qed.

(** ** The [id] accessor *)

(** C10.  [set id] raises exactly when the current [__id__] is truthy, and
    then changes nothing; otherwise it stores the new id and registers the
    instance in the identity map under its class and that id.  An instance
    whose id is [0] or the empty string is therefore given a new id, and
    registered again, without an error. *)
Theorem id_guard_tests_truthiness (this : nat) (c : class_id) (id : value) (s : state) :
  class_of this s = Some c ->
  (truthy (own_get this "__id__" s) = true ->
     set_id this id s = (Throw (IdentityImmutable this), s)) /\
  (truthy (own_get this "__id__" s) = false ->
     exists s', set_id this id s = (Ok tt, s') /\
                own_get this "__id__" s' = id /\
                idmap s' = (c, id, this) :: idmap s /\
                (same_value_zero id id = true -> IdMap_get c id s' = Some this)) /\
  (own_get this "__id__" s = VNum 0 \/ own_get this "__id__" s = VStr "" ->
     exists s', set_id this id s = (Ok tt, s') /\ own_get this "__id__" s' = id).
Proof.
  intros Hc.
  assert (Hok : truthy (own_get this "__id__" s) = false ->
     exists s', set_id this id s = (Ok tt, s') /\
                own_get this "__id__" s' = id /\
                idmap s' = (c, id, this) :: idmap s /\
                (same_value_zero id id = true -> IdMap_get c id s' = Some this)).
  { intros Hf. unfold set_id. rewrite Hf.
    unfold bind, own_set, IdMap_insert.
    rewrite class_of_put_own, Hc.
    rewrite (own_get_put_own_eq _ _ _ _ c Hc).
    eexists; split; [reflexivity|]. simpl. repeat split.
    - unfold own_get, own_lookup, put_own in *. simpl.
      rewrite list_lookup_alter_eq. unfold class_of in Hc.
      destruct (heap s !! this); [|done]. simpl. by rewrite lookup_insert_eq.
    - intros Hrefl. unfold IdMap_get, idmap_find; simpl.
      rewrite bool_decide_eq_true_2 by done. simpl. by rewrite Hrefl. }
  split; [|split; [exact Hok|]].
  - intros Ht. unfold set_id. by rewrite Ht.
  - intros Hz. destruct Hok as (s' & H1 & H2 & _).
    + by destruct Hz as [-> | ->].
    + eauto.
Qed.

Lemma id_guard_tests_truthiness_witness :
  class_of 0 {| heap := [ {| i_class := Blog.BasicModel; i_own := {[ "__id__" := VNum 0 ]} |} ];
                idmap := [(Blog.BasicModel, VNum 0, 0)] |} = Some Blog.BasicModel /\
  exists s', set_id 0 (VNum 9)
               {| heap := [ {| i_class := Blog.BasicModel; i_own := {[ "__id__" := VNum 0 ]} |} ];
                  idmap := [(Blog.BasicModel, VNum 0, 0)] |} = (Ok tt, s') /\
             own_get 0 "__id__" s' = VNum 9.
Proof.
  split; [reflexivity|].
  apply (id_guard_tests_truthiness 0 Blog.BasicModel (VNum 9)
           {| heap := [ {| i_class := Blog.BasicModel; i_own := {[ "__id__" := VNum 0 ]} |} ];
              idmap := [(Blog.BasicModel, VNum 0, 0)] |}).
  - reflexivity.
  - left. reflexivity.
Defined.

(** ** [Model.load] *)

Lemma obj_get_absent attrs k : has_key k attrs = false -> obj_get attrs k = VUndef.
Proof.
  unfold has_key, obj_get. induction attrs as [|kv attrs IH]; simpl; [done|].
  destruct (String.eqb (fst kv) k); simpl; [done|]. exact IH.
Qed.

(** C7.  A payload without an [id] field makes [load] raise at once: no
    instance is created, nothing is registered, the state is the one before
    the call. *)
Theorem load_without_id_raises (E : class_env) (c : class_id)
    (attrs : list (string * value)) (s : state) :
  has_key "id" attrs = false ->
  Model_load E c attrs s = (Throw MissingIdentity, s).
Proof.
  intros H. unfold Model_load. by rewrite (obj_get_absent _ _ H).
Qed.

Lemma load_without_id_raises_witness :
  has_key "id" [("str", VStr "s")] = false /\
  Model_load Blog.env Blog.BasicModel [("str", VStr "s")] empty_state
  = (Throw MissingIdentity, empty_state).
Proof.
  split; [reflexivity|].
  apply (load_without_id_raises Blog.env Blog.BasicModel [("str", VStr "s")] empty_state).
  reflexivity.
Defined.

(** C2.  [load] hands the value of an association key to the property
    setter as it is: a nested payload, a bare id and an array of ids are
    rejected by the type check, and a foreign-key field, which names no
    property, is skipped, so that the association stays unset. *)
Theorem load_does_not_resolve_associations :
  fst (Model_load Blog.env Blog.Post
         [("id", VNum 184); ("title", VStr "the title"); ("body", VStr "the body");
          ("author", VObj [("id", VNum 9); ("first", VStr "Homer"); ("last", VStr "Simpson")])]
         empty_state)
  = Throw (TypeMismatch "author"
             (VObj [("id", VNum 9); ("first", VStr "Homer"); ("last", VStr "Simpson")])) /\
  fst (Model_load Blog.env Blog.Post [("id", VNum 186); ("author", VNum 12)] empty_state)
  = Throw (TypeMismatch "author" (VNum 12)) /\
  fst (Model_load Blog.env Blog.Post
         [("id", VNum 153); ("title", VStr "the title"); ("tags", VArr [VNum 42; VNum 43])]
         empty_state)
  = Throw (TypeMismatch "tags" (VNum 42)) /\
  (let r := Model_load Blog.env Blog.Post [("id", VNum 187); ("authorId", VNum 13)] empty_state in
   fst r = Ok 0 /\ own_get 0 (slot "author") (snd r) = VUndef) /\
  (let r := Model_load Blog.env Blog.Post
              [("id", VNum 154); ("tagIds", VArr [VNum 44; VNum 45])] empty_state in
   fst r = Ok 0 /\ fst (get_prop Blog.env 0 "tags" (snd r)) = Ok (VArr [])).
Proof. vm_compute. repeat split. Qed.

(** ** Property keys *)

Lemma chars_app (a b : string) :
  list_ascii_of_string (a +:+ b) = list_ascii_of_string a ++ list_ascii_of_string b.
Proof. induction a as [|c a IH]; simpl; [done|]. by rewrite IH. Qed.

Lemma chars_inj (a b : string) :
  list_ascii_of_string a = list_ascii_of_string b -> a = b.
Proof.
  intros H. rewrite <- (string_of_list_ascii_of_string a), <- (string_of_list_ascii_of_string b).
  by rewrite H.
Qed.

Lemma slot_chars n :
  list_ascii_of_string (slot n)
  = list_ascii_of_string "__" ++ list_ascii_of_string n ++ list_ascii_of_string "__".
Proof. unfold slot. by rewrite !chars_app. Qed.

Lemma slot_inj a b : slot a = slot b -> a = b.
Proof.
  intros H. apply (f_equal list_ascii_of_string) in H. rewrite !slot_chars in H.
  apply app_inv_head in H. apply app_inv_tail in H. by apply chars_inj.
Qed.

Lemma shadow_inj a b : a +:+ "BeforeCoercion" = b +:+ "BeforeCoercion" -> a = b.
Proof.
  intros H. apply (f_equal list_ascii_of_string) in H. rewrite !chars_app in H.
  apply app_inv_tail in H. by apply chars_inj.
Qed.

Lemma slot_ne_shadow a b : slot a <> b +:+ "BeforeCoercion".
Proof.
  intros H. apply (f_equal list_ascii_of_string) in H.
  rewrite slot_chars, chars_app in H.
  change (list_ascii_of_string "__") with (["_"; "_"]%char) in H.
  change (list_ascii_of_string "BeforeCoercion")
    with (list_ascii_of_string "BeforeCoercio" ++ ["n"%char]) in H.
  change (["_"; "_"]%char) with (["_"%char] ++ ["_"%char]) in H at 2.
  rewrite !app_assoc in H. apply app_inj_tail in H. destruct H as [_ H]. discriminate.
Qed.

Lemma private_slot n : private_key (slot n) = true.
Proof.
  unfold private_key. rewrite slot_chars.
  rewrite bool_decide_eq_true_2; [done|]. by eexists.
Qed.

Lemma private_shadow n : private_key (n +:+ "BeforeCoercion") = true.
Proof.
  unfold private_key. rewrite chars_app.
  rewrite (bool_decide_eq_true_2 (_ `suffix_of` _)); [apply orb_true_r|]. by eexists.
Qed.

Lemma public_ne_slot k n : private_key k = false -> k <> slot n.
Proof. intros H ->. by rewrite private_slot in H. Qed.

Lemma public_ne_shadow k n : private_key k = false -> k <> n +:+ "BeforeCoercion".
Proof. intros H ->. by rewrite private_shadow in H. Qed.

(** ** Frames: what the setters leave alone *)

Lemma proto_lookup_from_PId E fuel c k :
  proto_lookup_from E fuel c k = Some PId -> k = "id".
Proof.
  revert c. induction fuel as [|fuel IH]; intros c; destruct c as [|n]; simpl.
  - unfold Model_prototype. destruct (String.eqb_spec k "id"); [done|].
    repeat case_match; congruence.
  - destruct (classes E !! n) as [kd|]; [|done].
    destruct (k_proto kd !! k) as [p|]; [|done]. by destruct p.
  - unfold Model_prototype. destruct (String.eqb_spec k "id"); [done|].
    repeat case_match; congruence.
  - destruct (classes E !! n) as [kd|]; [|done].
    destruct (k_proto kd !! k) as [p|]; [by destruct p|]. apply IH.
Qed.

Lemma proto_lookup_PId E c k : proto_lookup E c k = Some PId -> k = "id".
Proof. apply proto_lookup_from_PId. Qed.

Lemma associations_ADesc E c n d :
  associations E c n = ADesc d ->
  desc_name d = n /\
  (exists i, (d = mk_desc HasOne n i /\ proto_lookup E c n = Some (PHasOne i)) \/
             (d = mk_desc HasMany n i /\ proto_lookup E c n = Some (PHasMany i))).
Proof.
  unfold associations. intros H.
  destruct (proto_lookup E c n) as [[]|] eqn:Hp;
    try (destruct (in_Object_prototype n); discriminate);
    inversion H; subst; simpl; eauto.
Qed.

Lemma checkAssociatedType_state E this d o s res s' :
  checkAssociatedType E this d o s = (res, s') -> s' = s.
Proof.
  unfold checkAssociatedType. intros H.
  repeat case_match; inversion H; reflexivity.
Qed.

Section Frames.

Variable E : class_env.
Variable cls : nat -> option class_id.
(** What is known of the identity map. *)
Variable IM : list (class_id * value * nat) -> Prop.
(** The locations under watch and what they hold. *)
Variable L : nat -> string -> Prop.
Variable snap : nat -> string -> option value.

Local Abbreviation keeps := (keeps cls IM L snap).
Local Abbreviation preserves := (preserves cls IM L snap).

Lemma keeps_put_own r k v s : ~ L r k -> keeps s -> keeps (put_own r k v s).
Proof.
  intros HL (Hc & Hi & Hk). repeat split.
  - intros r'. by rewrite class_of_put_own.
  - done.
  - intros r' k' HL'. rewrite own_lookup_put_own_ne; [by apply Hk|].
    destruct (decide (r' = r)) as [->|]; [|by left].
    destruct (decide (k' = k)) as [->|]; [done|by right].
Qed.

Lemma preserves_ret {A} (a : A) : preserves (ret a).
Proof. intros s res s' H. unfold ret in H. by inversion H; subst. Qed.

Lemma preserves_throw {A} e : preserves (@throw A e).
Proof. intros s res s' H. unfold throw in H. by inversion H; subst. Qed.

Lemma preserves_bind {A B} (m : M A) (f : A -> M B) :
  preserves m -> (forall a, preserves (f a)) -> preserves (bind m f).
Proof.
  intros Hm Hf s res s' H Hk. unfold bind in H.
  destruct (m s) as [[a|e] s1] eqn:Hms.
  - eapply Hf; eauto.
  - inversion H; subst. eauto.
Qed.

Lemma preserves_for_each {A} (l : list A) (body : A -> M unit) :
  (forall x, x ∈ l -> preserves (body x)) -> preserves (for_each l body).
Proof.
  induction l as [|x l IH]; intros Hb; simpl.
  - apply preserves_ret.
  - apply preserves_bind.
    + apply Hb. by left.
    + intros _. apply IH. intros y Hy. apply Hb. by right.
Qed.

Lemma preserves_own_set r k v : ~ L r k -> preserves (own_set r k v).
Proof.
  intros HL s res s' H Hk. unfold own_set in H. inversion H; subst.
  by apply keeps_put_own.
Qed.

Lemma preserves_check this d o : preserves (checkAssociatedType E this d o).
Proof.
  intros s res s' H Hk. by rewrite (checkAssociatedType_state _ _ _ _ _ _ _ H).
Qed.

Lemma preserves_hasMany_get this name :
  ~ L this (slot name) -> preserves (hasMany_get this name).
Proof.
  intros HL s res s' H Hk. unfold hasMany_get in H.
  destruct (truthy (own_get this (slot name) s)).
  - by inversion H; subst.
  - revert H Hk. apply preserves_bind.
    + by apply preserves_own_set.
    + intros _. apply preserves_ret.
Qed.

Lemma preserves_read_array this name :
  ~ L this (slot name) -> preserves (read_array this name).
Proof.
  intros HL. unfold read_array. apply preserves_bind.
  - by apply preserves_hasMany_get.
  - intros v. destruct v; auto using preserves_ret, preserves_throw.
Qed.

Section WithCallbacks.

Variables f g : value -> string -> value -> M unit.
Hypothesis Hf : forall a b c, preserves (f a b c).
Hypothesis Hg : forall a b c, preserves (g a b c).

Lemma preserves_hasOneSet_with this d v sync :
  ~ L this (slot (desc_name d)) -> preserves (hasOneSet_with E f g this d v sync).
Proof.
  intros HL s res s' H. unfold hasOneSet_with in H.
  revert H. generalize (own_get this (slot (desc_name d)) s) as prev.
  intros prev. revert s res s'.
  apply preserves_bind; [destruct (truthy v); auto using preserves_check, preserves_ret|].
  intros _. apply preserves_bind; [by apply preserves_own_set|].
  intros _. apply preserves_bind.
  - destruct (inv_name d); [|apply preserves_ret].
    destruct (sync && truthy prev); auto using preserves_ret.
  - intros _. destruct (inv_name d); [|apply preserves_ret].
    destruct (sync && truthy v); auto using preserves_ret.
Qed.

Lemma preserves_hasManyAdd_with this d models sync :
  ~ L this (slot (desc_name d)) -> preserves (hasManyAdd_with E g this d models sync).
Proof.
  intros HL. unfold hasManyAdd_with.
  apply preserves_bind; [by apply preserves_read_array|].
  intros _. apply preserves_for_each. intros m _.
  apply preserves_bind; [apply preserves_check|].
  intros _. apply preserves_bind.
  - destruct (inv_name d); [|apply preserves_ret].
    destruct sync; auto using preserves_ret.
  - intros _. apply preserves_bind; [by apply preserves_read_array|].
    intros l. by apply preserves_own_set.
Qed.

Lemma preserves_hasManyRemove_with this d models sync :
  ~ L this (slot (desc_name d)) -> preserves (hasManyRemove_with f this d models sync).
Proof.
  intros HL. unfold hasManyRemove_with.
  apply preserves_bind; [by apply preserves_read_array|].
  intros _. apply preserves_for_each. intros m _.
  apply preserves_bind; [by apply preserves_read_array|].
  intros l. destruct (index_of m l); [|apply preserves_ret].
  apply preserves_bind.
  - destruct (inv_name d); [|apply preserves_ret].
    destruct sync; auto using preserves_ret.
  - intros _. apply preserves_bind; [by apply preserves_read_array|].
    intros l'. by apply preserves_own_set.
Qed.

End WithCallbacks.

Lemma preserves_unreachable a b c : preserves (unreachable a b c).
Proof. apply preserves_ret. Qed.

(** The inverse side is touched at one slot only. *)
Lemma preserves_inverseRemoved_at r name model :
  ~ L r (slot name) -> preserves (inverseRemoved E (VModel r) name model).
Proof.
  intros HL s res s' H Hk. simpl in H.
  destruct (class_of r s) as [c|] eqn:Hc; [|by inversion H; subst].
  destruct (associations E c name) as [d| |] eqn:Ha; try (by inversion H; subst).
  destruct (associations_ADesc _ _ _ _ Ha) as [Hn _]. rewrite <- Hn in HL.
  destruct (desc_type d).
  - revert H Hk. apply preserves_hasOneSet_with; auto using preserves_unreachable.
  - revert H Hk. apply preserves_hasManyRemove_with; auto using preserves_unreachable.
Qed.

Lemma preserves_inverseAdded_at r name model :
  ~ L r (slot name) -> preserves (inverseAdded E (VModel r) name model).
Proof.
  intros HL s res s' H Hk. simpl in H.
  destruct (class_of r s) as [c|] eqn:Hc; [|by inversion H; subst].
  destruct (associations E c name) as [d| |] eqn:Ha; try (by inversion H; subst).
  destruct (associations_ADesc _ _ _ _ Ha) as [Hn _]. rewrite <- Hn in HL.
  destruct (desc_type d).
  - revert H Hk. apply preserves_hasOneSet_with; auto using preserves_unreachable.
  - revert H Hk. apply preserves_hasManyAdd_with; auto using preserves_unreachable.
Qed.

(** No watched location is the slot of an association of its owner. *)
Hypothesis Hfree :
  forall r c n d, cls r = Some c -> associations E c n = ADesc d -> ~ L r (slot n).

Lemma preserves_inverseRemoved this name model :
  preserves (inverseRemoved E this name model).
Proof.
  destruct this; try apply preserves_throw.
  intros s res s' H Hk.
  destruct (class_of r s) as [c|] eqn:Hc; [|by simpl in H; rewrite Hc in H; inversion H; subst].
  destruct (associations E c name) as [d| |] eqn:Ha;
    try (by simpl in H; rewrite Hc, Ha in H; inversion H; subst).
  assert (HL : ~ L r (slot name)).
  { eapply Hfree; eauto. destruct Hk as [Hk _]. by rewrite <- Hk. }
  revert H Hk. by apply preserves_inverseRemoved_at.
Qed.

Lemma preserves_inverseAdded this name model :
  preserves (inverseAdded E this name model).
Proof.
  destruct this; try apply preserves_throw.
  intros s res s' H Hk.
  destruct (class_of r s) as [c|] eqn:Hc; [|by simpl in H; rewrite Hc in H; inversion H; subst].
  destruct (associations E c name) as [d| |] eqn:Ha;
    try (by simpl in H; rewrite Hc, Ha in H; inversion H; subst).
  assert (HL : ~ L r (slot name)).
  { eapply Hfree; eauto. destruct Hk as [Hk _]. by rewrite <- Hk. }
  revert H Hk. by apply preserves_inverseAdded_at.
Qed.

Lemma preserves_hasOneSet this d v sync :
  ~ L this (slot (desc_name d)) -> preserves (hasOneSet E this d v sync).
Proof.
  apply preserves_hasOneSet_with;
    auto using preserves_inverseRemoved, preserves_inverseAdded.
Qed.

Lemma preserves_hasManyAdd this d models sync :
  ~ L this (slot (desc_name d)) -> preserves (hasManyAdd E this d models sync).
Proof. apply preserves_hasManyAdd_with; auto using preserves_inverseAdded. Qed.

Lemma preserves_hasManyRemove this d models sync :
  ~ L this (slot (desc_name d)) -> preserves (hasManyRemove E this d models sync).
Proof. apply preserves_hasManyRemove_with; auto using preserves_inverseRemoved. Qed.

Lemma preserves_for_of_slot fuel i this key body :
  (forall m, preserves (body m)) -> preserves (for_of_slot fuel i this key body).
Proof.
  intros Hb. revert i. induction fuel as [|fuel IH]; intros i; simpl.
  - apply preserves_ret.
  - intros s res s' H Hk.
    destruct (own_get this key s); try by inversion H; subst.
    destruct (l !! i); [|by inversion H; subst].
    revert H Hk. apply preserves_bind; auto.
Qed.

Lemma preserves_hasManySet this d a :
  ~ L this (slot (desc_name d)) -> preserves (hasManySet E this d a).
Proof.
  intros HL. unfold hasManySet.
  apply preserves_bind; [by apply preserves_hasMany_get|].
  intros prev. destruct (iter_values a) as [elems|]; [|apply preserves_throw].
  apply preserves_bind.
  { apply preserves_for_each. intros; apply preserves_check. }
  intros _. apply preserves_bind; [|intros _; by apply preserves_own_set].
  destruct (inv_name d); [|apply preserves_ret].
  destruct prev; try apply preserves_throw.
  apply preserves_bind.
  - apply preserves_for_of_slot. intros; apply preserves_inverseRemoved.
  - intros _. apply preserves_for_each. intros; apply preserves_inverseAdded.
Qed.

Lemma preserves_set_id this v :
  ~ L this "__id__" ->
  (forall im c id, IM im -> IM ((c, id, this) :: im)) ->
  preserves (set_id this v).
Proof.
  intros HL HIM s res s' H Hk. unfold set_id in H.
  destruct (truthy (own_get this "__id__" s)); [by inversion H; subst|].
  unfold bind, own_set, IdMap_insert in H.
  assert (Hk' := keeps_put_own this "__id__" v s HL Hk).
  destruct (class_of this (put_own this "__id__" v s)); inversion H; subst; [|done].
  destruct Hk' as (Hc & Hi & Hl). repeat split; auto.
  simpl. by apply HIM.
Qed.

Lemma preserves_set_prop this k v :
  (k = "id" -> ~ L this "__id__" /\ forall im c id, IM im -> IM ((c, id, this) :: im)) ->
  ~ L this k -> ~ L this (slot k) -> ~ L this (k +:+ "BeforeCoercion") ->
  preserves (set_prop E this k v).
Proof.
  intros Hid H1 H2 H3 s res s' H Hk. unfold set_prop in H.
  destruct (class_of this s) as [c|]; [|by inversion H; subst].
  destruct (has_own this k s).
  { revert H Hk. by apply preserves_own_set. }
  destruct (proto_lookup E c k) as [[coerce def|i|i| |sl|]|] eqn:Hp.
  - destruct (coerce v); [|by inversion H; subst].
    revert H Hk. apply preserves_bind; [by apply preserves_own_set|].
    intros _. by apply preserves_own_set.
  - revert H Hk. by apply preserves_hasOneSet.
  - revert H Hk. by apply preserves_hasManySet.
  - apply proto_lookup_PId in Hp. destruct (Hid Hp).
    revert H Hk. by apply preserves_set_id.
  - by inversion H; subst.
  - revert H Hk. by apply preserves_own_set.
  - revert H Hk. by apply preserves_own_set.
Qed.

Lemma preserves_get_prop this k :
  ~ L this (slot k) -> preserves (get_prop E this k).
Proof.
  intros HL s res s' H Hk. unfold get_prop in H.
  destruct (class_of this s) as [c|]; [|by inversion H; subst].
  destruct (has_own this k s); [by inversion H; subst|].
  destruct (proto_lookup E c k) as [[coerce def|i|i| |sl|]|];
    try (by inversion H; subst).
  revert H Hk. by apply preserves_hasMany_get.
Qed.

Lemma preserves_assign_known this attrs :
  (forall k v, (k, v) ∈ attrs ->
     (k = "id" -> ~ L this "__id__" /\ forall im c id, IM im -> IM ((c, id, this) :: im)) /\
     ~ L this k /\ ~ L this (slot k) /\ ~ L this (k +:+ "BeforeCoercion")) ->
  preserves (assign_known E this attrs).
Proof.
  intros Hkeys. unfold assign_known. apply preserves_for_each.
  intros [k v] Hin s res s' H Hk. simpl in H.
  destruct (has_prop E this k s); [|by inversion H; subst].
  destruct (Hkeys k v Hin) as (? & ? & ? & ?).
  revert H Hk. by apply preserves_set_prop.
Qed.

Lemma preserves_load_into this id attrs :
  (forall k v, (k, v) ∈ attrs ->
     k <> "id" /\ ~ L this k /\ ~ L this (slot k) /\ ~ L this (k +:+ "BeforeCoercion")) ->
  (forall im c i, IM im -> IM ((c, i, this) :: im)) ->
  ~ L this "id" -> ~ L this (slot "id") -> ~ L this ("id" +:+ "BeforeCoercion") ->
  ~ L this "__sourceState__" -> ~ L this "__isBusy__" ->
  preserves (load_into E this id attrs).
Proof.
  intros Hkeys HIM H1 H2 H3 H4 H5. unfold load_into.
  apply preserves_bind.
  { apply preserves_assign_known. intros k v Hin.
    destruct (Hkeys k v Hin) as (? & ? & ? & ?). repeat split; auto.
    all: intros ->; done. }
  intros _. apply preserves_bind; [by apply preserves_get_prop|].
  intros mid. apply preserves_bind.
  { destruct (strict_eq mid VUndef); [|apply preserves_ret].
    apply preserves_set_prop; auto. }
  intros _. apply preserves_bind; [by apply preserves_own_set|].
  intros _. apply preserves_bind; [by apply preserves_own_set|].
  intros _. apply preserves_ret.
Qed.

End Frames.

(** ** Running a computation step by step *)

Lemma bind_Ok {A B} (m : M A) (f : A -> M B) s b s' :
  bind m f s = (Ok b, s') ->
  exists a s1, m s = (Ok a, s1) /\ f a s1 = (Ok b, s').
Proof.
  unfold bind. destruct (m s) as [[a|e] s1]; [eauto|]. intros H; inversion H.
Qed.

Lemma for_each_app {A} (l1 l2 : list A) (body : A -> M unit) s :
  for_each (l1 ++ l2) body s = bind (for_each l1 body) (fun _ => for_each l2 body) s.
Proof.
  revert s. induction l1 as [|x l1 IH]; intros s; simpl.
  - reflexivity.
  - unfold bind. destruct (body x s) as [[[]|e] s1]; [|reflexivity].
    rewrite IH. reflexivity.
Qed.

Lemma load_into_result E model id attrs s r s' :
  load_into E model id attrs s = (Ok r, s') -> r = model.
Proof.
  unfold load_into. intros H.
  repeat (apply bind_Ok in H; destruct H as (? & ? & _ & H)).
  unfold ret in H. by inversion H.
Qed.

Lemma Model_load_unfold E c attrs s :
  truthy (obj_get attrs "id") = true ->
  Model_load E c attrs s =
  match IdMap_get c (obj_get attrs "id") s with
  | Some r => load_into E r (obj_get attrs "id") (obj_delete "id" attrs) s
  | None =>
      load_into E (length (heap s)) (obj_get attrs "id") (obj_delete "id" attrs)
        (snd (alloc c s))
  end.
Proof.
  intros Ht. unfold Model_load. rewrite Ht. simpl. unfold bind at 1.
  destruct (IdMap_get c (obj_get attrs "id") s); reflexivity.
Qed.

(** ** [Model.load] and the identity map *)

Lemma obj_delete_elem k0 attrs k v :
  (k, v) ∈ obj_delete k0 attrs <-> (k, v) ∈ attrs /\ k <> k0.
Proof.
  unfold obj_delete. rewrite !list_elem_of_In, filter_In. simpl.
  destruct (String.eqb_spec k k0); simpl; split; intros [? ?]; split; auto; done.
Qed.

Lemma public_keys_elem attrs k v :
  public_keys attrs = true -> (k, v) ∈ attrs -> private_key k = false.
Proof.
  unfold public_keys. rewrite forallb_forall. intros H Hin.
  apply list_elem_of_In in Hin. apply H in Hin. simpl in Hin.
  by destruct (private_key k).
Qed.

Lemma idmap_find_cons c id c' i r im :
  idmap_find c id im = Some r -> idmap_find c id ((c', i, r) :: im) = Some r.
Proof.
  unfold idmap_find. simpl. intros H.
  destruct (bool_decide (c' = c) && same_value_zero i id); [done|exact H].
Qed.

Lemma idmap_find_head c id r im :
  same_value_zero id id = true -> idmap_find c id ((c, id, r) :: im) = Some r.
Proof.
  intros H. unfold idmap_find. simpl.
  rewrite bool_decide_eq_true_2 by done. by rewrite H.
Qed.

Lemma get_prop_id E r c s :
  class_of r s = Some c -> own_lookup r "id" s = None ->
  proto_lookup E c "id" = Some PId ->
  get_prop E r "id" s = (Ok (own_get r "__id__" s), s).
Proof.
  intros Hc Ho Hp. unfold get_prop, has_own. rewrite Hc, Ho, Hp.
  rewrite bool_decide_eq_false_2; [done|]. by intros [? ?].
Qed.

Lemma set_prop_id E r c v s :
  class_of r s = Some c -> own_lookup r "id" s = None ->
  proto_lookup E c "id" = Some PId ->
  set_prop E r "id" v s = set_id r v s.
Proof.
  intros Hc Ho Hp. unfold set_prop, has_own. rewrite Hc, Ho, Hp.
  rewrite bool_decide_eq_false_2; [done|]. by intros [? ?].
Qed.

Lemma associations_PId E c d :
  proto_lookup E c "id" = Some PId -> associations E c "id" <> ADesc d.
Proof. unfold associations. intros ->. done. Qed.

(** Once [load] has returned an instance, the identity map answers with it
    for the payload's id. *)
Lemma load_registers E c attrs s r s1 :
  same_value_zero (obj_get attrs "id") (obj_get attrs "id") = true ->
  proto_lookup E c "id" = Some PId ->
  public_keys attrs = true ->
  Model_load E c attrs s = (Ok r, s1) ->
  IdMap_get c (obj_get attrs "id") s1 = Some r.
Proof.
  intros Hrefl Hid Hpub H.
  destruct (truthy (obj_get attrs "id")) eqn:Ht;
    [|unfold Model_load in H; rewrite Ht in H; inversion H].
  rewrite Model_load_unfold in H by done.
  set (id := obj_get attrs "id") in *.
  assert (Hkeys : forall k v, (k, v) ∈ obj_delete "id" attrs ->
                              k <> "id" /\ private_key k = false).
  { intros k v Hin. apply obj_delete_elem in Hin. destruct Hin as [Hin Hne].
    split; [done|]. eapply public_keys_elem; eauto. }
  destruct (IdMap_get c id s) as [r0|] eqn:Hget.
  - (* the instance is in the identity map *)
    assert (r = r0) as -> by (eapply load_into_result; eauto).
    assert (Hk : keeps (fun r' => class_of r' s) (fun im => idmap_find c id im = Some r0)
                   (fun _ _ => False) (fun _ _ => None) s1).
    { eapply (preserves_load_into E); [| | | | | | | |exact H|]; try tauto.
      - intros k v Hin. destruct (Hkeys k v Hin). tauto.
      - intros. by apply idmap_find_cons.
      - split; [done|split; [exact Hget|by intros]]. }
    by destruct Hk as (_ & Hk & _).
  - (* a new instance *)
    assert (r = length (heap s)) as -> by (eapply load_into_result; eauto).
    set (r := length (heap s)) in *.
    set (sa := snd (alloc c s)) in *.
    assert (Hca : class_of r sa = Some c).
    { unfold class_of, sa, alloc, r. simpl. by rewrite list_lookup_middle. }
    assert (Hempty : forall k, own_lookup r k sa = None).
    { intros k. unfold own_lookup, sa, alloc, r. simpl. by rewrite list_lookup_middle. }
    unfold load_into in H.
    apply bind_Ok in H. destruct H as ([] & t & Hloop & H).
    assert (Hk : keeps (fun r' => class_of r' sa) (fun im => im = idmap s)
                   (fun r' k => r' = r /\ (k = "__id__" \/ k = "id")) (fun _ _ => None) t).
    { eapply (preserves_assign_known E); [| |exact Hloop|].
      - intros r' c' n d Hc' Ha [-> [Hs|Hs]].
        + apply (slot_inj n "id") in Hs. subst n.
          rewrite Hca in Hc'. inversion Hc'; subst c'.
          by apply associations_PId in Ha.
        + exact (public_ne_slot "id" n eq_refl (eq_sym Hs)).
      - intros k v Hin. destruct (Hkeys k v Hin) as [Hne Hpk].
        split; [done|]. split; [|split].
        + intros [_ [->| ->]]; [|done]. by vm_compute in Hpk.
        + intros [_ [Hs|Hs]]; [by apply (slot_inj k "id") in Hs|].
          exact (public_ne_slot "id" k eq_refl (eq_sym Hs)).
        + intros [_ [Hs|Hs]]; [exact (slot_ne_shadow "id" k (eq_sym Hs))|].
          exact (public_ne_shadow "id" k eq_refl (eq_sym Hs)).
      - split; [done|split; [reflexivity|]]. intros r' k [-> _]. apply Hempty. }
    destruct Hk as (Hct & Himt & Hlt).
    assert (Hc : class_of r t = Some c) by (by rewrite Hct).
    assert (Ho : own_lookup r "id" t = None) by (apply Hlt; auto).
    assert (Hi : own_lookup r "__id__" t = None) by (apply Hlt; auto).
    apply bind_Ok in H. destruct H as (mid & t1 & Hg & H).
    rewrite (get_prop_id E r c t Hc Ho Hid) in Hg.
    unfold own_get in Hg. rewrite Hi in Hg. simpl in Hg. inversion Hg; subst mid t1.
    apply bind_Ok in H. destruct H as ([] & t2 & Hs & H). simpl in Hs.
    rewrite (set_prop_id E r c id t Hc Ho Hid) in Hs.
    unfold set_id, own_get in Hs. rewrite Hi in Hs. simpl in Hs.
    unfold bind, own_set, IdMap_insert in Hs.
    rewrite class_of_put_own, Hc in Hs.
    rewrite (own_get_put_own_eq _ _ _ _ c Hc) in Hs. inversion Hs; subst t2.
    unfold bind, own_set, ret in H.
    inversion H; subst s1. unfold IdMap_get. simpl. rewrite Himt.
    by apply idmap_find_head.
Qed.

Lemma load_into_app E r id l1 l2 s :
  load_into E r id (l1 ++ l2) s
  = bind (assign_known E r l1) (fun _ => load_into E r id l2) s.
Proof.
  unfold load_into, assign_known. unfold bind at 1. rewrite for_each_app.
  unfold bind. destruct (for_each l1 _ s) as [[[]|e] s1]; reflexivity.
Qed.

Lemma associations_PAttr E c a coerce def d :
  proto_lookup E c a = Some (PAttr coerce def) -> associations E c a <> ADesc d.
Proof. unfold associations. intros ->. by destruct (in_Object_prototype a). Qed.

(** An attribute named in the payload is coerced and stored by [load]. *)
Lemma load_into_attr E r id attrs s s' c a v coerce def :
  NoDup (fst <$> attrs) ->
  (a, v) ∈ attrs ->
  public_keys attrs = true ->
  (forall k w, (k, w) ∈ attrs -> k <> "id") ->
  class_of r s = Some c ->
  proto_lookup E c a = Some (PAttr coerce def) ->
  a <> "sourceState" -> a <> "isBusy" ->
  own_lookup r a s = None ->
  load_into E r id attrs s = (Ok r, s') ->
  exists v', coerce v = Ok v' /\
             own_lookup r (slot a) s' = Some v' /\
             own_lookup r (a +:+ "BeforeCoercion") s' = Some v /\
             own_lookup r a s' = None /\
             class_of r s' = Some c.
Proof.
  intros Hnd Hin Hpub Hnoid Hc Hp Hss Hib Hown H.
  assert (Hpa : private_key a = false) by (eapply public_keys_elem; eauto).
  assert (Haid : a <> "id") by eauto.
  apply list_elem_of_split in Hin. destruct Hin as (pre & post & ->).
  rewrite fmap_app, fmap_cons in Hnd. simpl in Hnd.
  apply NoDup_app in Hnd. destruct Hnd as (_ & Hpre & Hpost).
  apply NoDup_cons in Hpost. destruct Hpost as [Hpost _].
  assert (Hkpre : forall k w, (k, w) ∈ pre -> k <> a).
  { intros k w Hkw ->. apply (Hpre a); [|by left].
    apply list_elem_of_fmap. by exists (a, w). }
  assert (Hkpost : forall k w, (k, w) ∈ post -> k <> a).
  { intros k w Hkw ->. apply Hpost. apply list_elem_of_fmap. by exists (a, w). }
  assert (Hpk : forall k w, (k, w) ∈ pre \/ (k, w) ∈ post ->
                            private_key k = false /\ k <> "id").
  { intros k w Hkw.
    assert ((k, w) ∈ pre ++ (a, v) :: post).
    { apply elem_of_app. destruct Hkw; [by left|right; by right]. }
    split; [eapply public_keys_elem|]; eauto. }
  rewrite load_into_app in H.
  apply bind_Ok in H. destruct H as ([] & t1 & Hloop & H).
  (* the keys before [a] leave [model.a] undefined *)
  assert (Hk1 : keeps (fun r' => class_of r' s) (fun _ => True)
                  (fun r' k => r' = r /\ k = a) (fun _ _ => None) t1).
  { eapply (preserves_assign_known E); [| |exact Hloop|].
    - intros r' c' n d _ _ [_ Hs]. exact (public_ne_slot a n Hpa (eq_sym Hs)).
    - intros k w Hkw. destruct (Hpk k w (or_introl Hkw)) as [Hkp Hkid].
      split; [done|]. split; [|split].
      + intros [_ ->]. by apply (Hkpre a w).
      + intros [_ Hs]. exact (public_ne_slot a k Hpa (eq_sym Hs)).
      + intros [_ Hs]. exact (public_ne_shadow a k Hpa (eq_sym Hs)).
    - split; [done|split; [done|]]. by intros r' k [-> ->]. }
  destruct Hk1 as (Hc1 & _ & Hl1).
  assert (Hct1 : class_of r t1 = Some c) by (by rewrite Hc1).
  assert (Hown1 : own_lookup r a t1 = None) by (by apply Hl1).
  (* the key [a] itself *)
  change ((a, v) :: post) with ([(a, v)] ++ post) in H.
  rewrite load_into_app in H.
  apply bind_Ok in H. destruct H as ([] & t2 & Hstep & H).
  unfold assign_known in Hstep. simpl in Hstep.
  apply bind_Ok in Hstep. destruct Hstep as ([] & t2' & Hstep & Hret).
  unfold ret in Hret. inversion Hret; subst t2'. clear Hret.
  unfold has_prop, has_own, set_prop, has_own in Hstep.
  rewrite Hct1, Hown1, Hp in Hstep.
  rewrite bool_decide_eq_false_2 in Hstep by (by intros [? ?]).
  rewrite bool_decide_eq_true_2 in Hstep by done. simpl in Hstep.
  destruct (coerce v) as [v'|e] eqn:Hcv; [|inversion Hstep].
  unfold bind, own_set in Hstep. inversion Hstep; subst t2. clear Hstep.
  exists v'. split; [done|].
  set (t2 := put_own r (a +:+ "BeforeCoercion") v (put_own r (slot a) v' t1)) in *.
  assert (Hs2 : own_lookup r (slot a) t2 = Some v').
  { unfold t2. rewrite own_lookup_put_own_ne by (right; apply slot_ne_shadow).
    by apply (own_lookup_put_own_eq _ _ _ _ c). }
  assert (Hb2 : own_lookup r (a +:+ "BeforeCoercion") t2 = Some v).
  { unfold t2. apply (own_lookup_put_own_eq _ _ _ _ c). by rewrite class_of_put_own. }
  (* the keys after [a] and the end of [load] leave the two slots alone *)
  assert (Ha2 : own_lookup r a t2 = None).
  { unfold t2. rewrite !own_lookup_put_own_ne; [done|right..].
    - exact (public_ne_slot a a Hpa).
    - exact (public_ne_shadow a a Hpa). }
  assert (Hk2 : keeps (fun r' => class_of r' s) (fun _ => True)
                  (fun r' k => r' = r /\ (k = slot a \/ k = a +:+ "BeforeCoercion" \/ k = a))
                  (fun r' k => own_lookup r' k t2) s').
  { eapply (preserves_load_into E); [| | | | | | | |exact H|].
    - intros r' c' n d Hc' Ha [-> [Hs|[Hs|Hs]]].
      + apply slot_inj in Hs. subst n. rewrite Hc in Hc'. inversion Hc'; subst c'.
        by apply (associations_PAttr _ _ _ _ _ d) in Hp.
      + exact (slot_ne_shadow n a Hs).
      + exact (public_ne_slot a n Hpa (eq_sym Hs)).
    - intros k w Hkw. destruct (Hpk k w (or_intror Hkw)) as [Hkp Hkid].
      split; [done|]. split; [|split].
      + intros [_ [Hs|[Hs|Hs]]]; [exact (public_ne_slot k a Hkp Hs)| |].
        * exact (public_ne_shadow k a Hkp Hs).
        * by apply (Hkpost a w); subst.
      + intros [_ [Hs|[Hs|Hs]]]; [apply slot_inj in Hs; by apply (Hkpost a w); subst| |].
        * exact (slot_ne_shadow k a Hs).
        * exact (public_ne_slot a k Hpa (eq_sym Hs)).
      + intros [_ [Hs|[Hs|Hs]]]; [exact (slot_ne_shadow a k (eq_sym Hs))| |].
        * apply shadow_inj in Hs. by apply (Hkpost a w); subst.
        * exact (public_ne_shadow a k Hpa (eq_sym Hs)).
    - done.
    - intros [_ [Hs|[Hs|Hs]]]; [exact (public_ne_slot "id" a eq_refl Hs)| |].
      + exact (public_ne_shadow "id" a eq_refl Hs).
      + by subst.
    - intros [_ [Hs|[Hs|Hs]]]; [by apply slot_inj in Hs| |].
      + exact (slot_ne_shadow "id" a Hs).
      + exact (public_ne_slot a "id" Hpa (eq_sym Hs)).
    - intros [_ [Hs|[Hs|Hs]]]; [exact (slot_ne_shadow a "id" (eq_sym Hs))| |].
      + by apply shadow_inj in Hs.
      + exact (public_ne_shadow a "id" Hpa (eq_sym Hs)).
    - intros [_ [Hs|[Hs|Hs]]]; [by apply (slot_inj "sourceState" a) in Hs| |].
      + exact (slot_ne_shadow "sourceState" a Hs).
      + exact (public_ne_slot a "sourceState" Hpa (eq_sym Hs)).
    - intros [_ [Hs|[Hs|Hs]]]; [by apply (slot_inj "isBusy" a) in Hs| |].
      + exact (slot_ne_shadow "isBusy" a Hs).
      + exact (public_ne_slot a "isBusy" Hpa (eq_sym Hs)).
    - split; [|split; [done|done]].
      intros r'. unfold t2. by rewrite !class_of_put_own. }
  destruct Hk2 as (Hc2 & _ & Hl2).
  rewrite !Hl2 by auto. by rewrite Hc2.
Qed.

Lemma obj_delete_NoDup k0 attrs :
  NoDup (fst <$> attrs) -> NoDup (fst <$> obj_delete k0 attrs).
Proof.
  induction attrs as [|[k v] attrs IH]; simpl; [done|].
  rewrite NoDup_cons. intros [Hk Hnd].
  destruct (negb (String.eqb k k0)); simpl; [|by apply IH].
  apply NoDup_cons. split; [|by apply IH].
  intros Hin. apply Hk. apply list_elem_of_fmap in Hin.
  destruct Hin as ([k' v'] & -> & Hin). apply obj_delete_elem in Hin.
  apply list_elem_of_fmap. exists (k', v'). tauto.
Qed.

Lemma obj_delete_public k0 attrs :
  public_keys attrs = true -> public_keys (obj_delete k0 attrs) = true.
Proof.
  unfold public_keys. rewrite !forallb_forall. intros H x Hx.
  apply H. unfold obj_delete in Hx. apply filter_In in Hx. tauto.
Qed.

(** C1.  Two calls of [load] on a class with payloads that carry the same
    id return the same instance: the first call leaves the instance in the
    identity map, where the second call finds it.  Every attribute named in
    the second payload then holds the coerced value of that payload, its
    [BeforeCoercion] shadow holds the raw value, and reading the property
    gives the coerced value (or the default when that is [undefined]). *)
Theorem load_twice_same_instance E c p1 p2 s r1 s1 r2 s2 :
  obj_get p2 "id" = obj_get p1 "id" ->
  same_value_zero (obj_get p1 "id") (obj_get p1 "id") = true ->
  proto_lookup E c "id" = Some PId ->
  public_keys p1 = true ->
  public_keys p2 = true ->
  Model_load E c p1 s = (Ok r1, s1) ->
  Model_load E c p2 s1 = (Ok r2, s2) ->
  r2 = r1 /\
  forall a v coerce def c1,
    NoDup (fst <$> p2) ->
    (a, v) ∈ p2 ->
    class_of r1 s1 = Some c1 ->
    proto_lookup E c1 a = Some (PAttr coerce def) ->
    a <> "id" -> a <> "sourceState" -> a <> "isBusy" ->
    own_lookup r1 a s1 = None ->
    exists v', coerce v = Ok v' /\
               own_get r1 (slot a) s2 = v' /\
               own_get r1 (a +:+ "BeforeCoercion") s2 = v /\
               get_prop E r1 a s2 = (Ok (if strict_eq v' VUndef then def else v'), s2).
Proof.
  intros Hid Hrefl Hpid Hpub1 Hpub2 H1 H2.
  assert (Hreg := load_registers E c p1 s r1 s1 Hrefl Hpid Hpub1 H1).
  destruct (truthy (obj_get p2 "id")) eqn:Ht;
    [|unfold Model_load in H2; rewrite Ht in H2; inversion H2].
  rewrite Model_load_unfold in H2 by done.
  rewrite Hid, Hreg in H2.
  assert (r2 = r1) as -> by (eapply load_into_result; eauto).
  split; [done|].
  intros a v coerce def c1 Hnd Hin Hc1 Hp Haid Hss Hib Hown.
  destruct (load_into_attr E r1 (obj_get p1 "id") (obj_delete "id" p2) s1 s2
              c1 a v coerce def) as (v' & Hcv & Hs & Hb & Ha & Hc2); auto.
  - by apply obj_delete_NoDup.
  - by apply obj_delete_elem.
  - by apply obj_delete_public.
  - intros k w Hkw. apply obj_delete_elem in Hkw. tauto.
  - exists v'. unfold own_get. rewrite Hs, Hb. repeat split; auto.
    unfold get_prop, has_own, own_get. rewrite Hc2, Ha, Hp, Hs.
    rewrite bool_decide_eq_false_2; [done|]. by intros [? ?].
Qed.

Lemma load_twice_same_instance_witness :
  let p1 := [("id", VNum 200); ("str", VStr "s1"); ("num", VNum 1)] in
  let p2 := [("id", VNum 200); ("str", VStr "s2"); ("num", VNum 2)] in
  let s1 := snd (Model_load Blog.env Blog.BasicModel p1 empty_state) in
  let s2 := snd (Model_load Blog.env Blog.BasicModel p2 s1) in
  Model_load Blog.env Blog.BasicModel p1 empty_state = (Ok 0, s1) /\
  Model_load Blog.env Blog.BasicModel p2 s1 = (Ok 0, s2) /\
  own_get 0 (slot "str") s1 = VStr "s1" /\
  own_get 0 (slot "str") s2 = VStr "s2" /\
  fst (get_prop Blog.env 0 "num" s2) = Ok (VNum 2).
Proof.
  intros p1 p2 s1 s2.
  assert (H1 : Model_load Blog.env Blog.BasicModel p1 empty_state = (Ok 0, s1))
    by (vm_compute; reflexivity).
  assert (H2 : Model_load Blog.env Blog.BasicModel p2 s1 = (Ok 0, s2))
    by (vm_compute; reflexivity).
  destruct (load_twice_same_instance Blog.env Blog.BasicModel p1 p2 empty_state 0 s1 0 s2)
    as [_ Hattr]; [reflexivity|reflexivity|reflexivity|reflexivity|reflexivity|exact H1|exact H2|].
  split; [exact H1|]. split; [exact H2|]. split; [vm_compute; reflexivity|].
  assert (Hnd : NoDup (fst <$> p2))
    by (apply (bool_decide_unpack (NoDup (fst <$> p2))); vm_compute; exact I).
  assert (Hc : class_of 0 s1 = Some Blog.BasicModel) by (vm_compute; reflexivity).
  destruct (Hattr "str" (VStr "s2")
              (fun v => Ok (RynoAttrs.StringAttr_coerce String_of_primitive v))
              VUndef Blog.BasicModel Hnd) as (v1 & Hv1 & Hs1 & _);
    [right; left| exact Hc | reflexivity | discriminate | discriminate | discriminate
    | vm_compute; reflexivity |].
  destruct (Hattr "num" (VNum 2)
              (fun v => Ok (RynoAttrs.NumberAttr_coerce parse_decimal v))
              VUndef Blog.BasicModel Hnd) as (v2 & Hv2 & _ & _ & Hg2);
    [right; right; left| exact Hc | reflexivity | discriminate | discriminate | discriminate
    | vm_compute; reflexivity |].
  assert (v1 = VStr "s2") as -> by (injection Hv1 as <-; reflexivity).
  assert (v2 = VNum 2) as -> by (injection Hv2 as <-; reflexivity).
  split; [exact Hs1|]. rewrite Hg2. reflexivity.
Defined.

(** ** What the setters do on their own side *)

Lemma unchanged_except_refl r0 k0 s : unchanged_except r0 k0 s s.
Proof. by repeat split. Qed.

Lemma unchanged_except_trans r0 k0 s1 s2 s3 :
  unchanged_except r0 k0 s1 s2 -> unchanged_except r0 k0 s2 s3 ->
  unchanged_except r0 k0 s1 s3.
Proof.
  intros (Hc1 & Hi1 & Hl1) (Hc2 & Hi2 & Hl2). repeat split.
  - intros r. by rewrite Hc2.
  - by rewrite Hi2.
  - intros r k H. rewrite Hl2 by done. by apply Hl1.
Qed.

Lemma unchanged_except_put_own r k v s : unchanged_except r k s (put_own r k v s).
Proof.
  repeat split.
  - intros r'. apply class_of_put_own.
  - intros r' k' H. by apply own_lookup_put_own_ne.
Qed.

Lemma own_get_unchanged r0 k0 s s' r k :
  unchanged_except r0 k0 s s' -> r <> r0 \/ k <> k0 -> own_get r k s' = own_get r k s.
Proof. intros (_ & _ & H) Hne. unfold own_get. by rewrite H. Qed.

Lemma collection_unchanged r0 k0 s s' r n :
  unchanged_except r0 k0 s s' -> r <> r0 \/ slot n <> k0 ->
  collection r n s' = collection r n s.
Proof. intros H Hne. unfold collection. by rewrite (own_get_unchanged r0 k0 s s'). Qed.

Lemma read_array_array r name l s :
  own_get r (slot name) s = VArr l -> read_array r name s = (Ok l, s).
Proof.
  intros H. unfold read_array, bind, hasMany_get. rewrite H. reflexivity.
Qed.

Lemma read_array_run r name c s l s' :
  class_of r s = Some c ->
  read_array r name s = (Ok l, s') ->
  l = collection r name s /\
  own_get r (slot name) s' = VArr l /\
  unchanged_except r (slot name) s s'.
Proof.
  intros Hc H. unfold read_array, bind, hasMany_get, collection in *.
  destruct (own_get r (slot name) s) as [| | | | | | | l0 | |] eqn:Hv; simpl in H;
    try (inversion H; fail).
  - unfold own_set, ret in H. inversion H; subst.
    split; [done|]. split; [by apply (own_get_put_own_eq _ _ _ _ c)|].
    apply unchanged_except_put_own.
  - unfold own_set, ret in H. inversion H; subst.
    split; [done|]. split; [by apply (own_get_put_own_eq _ _ _ _ c)|].
    apply unchanged_except_put_own.
  - destruct b; simpl in H; [inversion H|].
    unfold own_set, ret in H. inversion H; subst.
    split; [done|]. split; [by apply (own_get_put_own_eq _ _ _ _ c)|].
    apply unchanged_except_put_own.
  - destruct (negb (n =? 0)%Z); simpl in H; [inversion H|].
    unfold own_set, ret in H. inversion H; subst.
    split; [done|]. split; [by apply (own_get_put_own_eq _ _ _ _ c)|].
    apply unchanged_except_put_own.
  - unfold own_set, ret in H. inversion H; subst.
    split; [done|]. split; [by apply (own_get_put_own_eq _ _ _ _ c)|].
    apply unchanged_except_put_own.
  - destruct (negb (String.eqb s0 "")); simpl in H; [inversion H|].
    unfold own_set, ret in H. inversion H; subst.
    split; [done|]. split; [by apply (own_get_put_own_eq _ _ _ _ c)|].
    apply unchanged_except_put_own.
  - inversion H; subst. split; [done|]. split; [done|]. apply unchanged_except_refl.
Qed.

(** With [sync] false, [hasOneSet] is the assignment to the slot. *)
Lemma hasOneSet_nosync_run E f g r d v s s' :
  hasOneSet_with E f g r d v false s = (Ok tt, s') ->
  s' = put_own r (slot (desc_name d)) v s.
Proof.
  unfold hasOneSet_with. intros H.
  apply bind_Ok in H. destruct H as ([] & s1 & Hchk & H).
  assert (s1 = s) as ->.
  { destruct (truthy v); [by apply checkAssociatedType_state in Hchk|].
    unfold ret in Hchk. by inversion Hchk. }
  apply bind_Ok in H. destruct H as ([] & s2 & Hset & H).
  unfold own_set in Hset. inversion Hset; subst s2.
  simpl in H. destruct (inv_name d); unfold bind, ret in H; by inversion H.
Qed.

(** With [sync] false, [hasManyAdd] of one model appends it. *)
Lemma hasManyAdd_nosync_run E g r d m c s s' :
  class_of r s = Some c ->
  hasManyAdd_with E g r d [m] false s = (Ok tt, s') ->
  own_get r (slot (desc_name d)) s' = VArr (collection r (desc_name d) s ++ [m]) /\
  unchanged_except r (slot (desc_name d)) s s'.
Proof.
  intros Hc H. unfold hasManyAdd_with in H.
  apply bind_Ok in H. destruct H as (l0 & s0 & Hr0 & H).
  destruct (read_array_run _ _ _ _ _ _ Hc Hr0) as (-> & Hv0 & Hu0).
  simpl in H. apply bind_Ok in H. destruct H as ([] & s1 & H & Hret).
  unfold ret in Hret. inversion Hret; subst s1. clear Hret.
  apply bind_Ok in H. destruct H as ([] & s1 & Hchk & H).
  apply checkAssociatedType_state in Hchk. subst s1.
  apply bind_Ok in H. destruct H as ([] & s1 & Hinv & H).
  assert (s1 = s0) as ->.
  { destruct (inv_name d); unfold ret in Hinv; by inversion Hinv. }
  apply bind_Ok in H. destruct H as (l1 & s1 & Hr1 & H).
  rewrite (read_array_array _ _ _ _ Hv0) in Hr1. inversion Hr1; subst l1 s1.
  unfold own_set in H. inversion H; subst s'.
  assert (Hc0 : class_of r s0 = Some c) by (destruct Hu0 as (Hu0 & _); by rewrite Hu0).
  split; [by apply (own_get_put_own_eq _ _ _ _ c)|].
  eapply unchanged_except_trans; [exact Hu0|apply unchanged_except_put_own].
Qed.

(** With [sync] false, [hasManyRemove] of one model removes its first
    occurrence. *)
Lemma hasManyRemove_nosync_run f r d m c s s' :
  class_of r s = Some c ->
  hasManyRemove_with f r d [m] false s = (Ok tt, s') ->
  own_get r (slot (desc_name d)) s' = VArr (remove_first m (collection r (desc_name d) s)) /\
  unchanged_except r (slot (desc_name d)) s s'.
Proof.
  intros Hc H. unfold hasManyRemove_with in H.
  apply bind_Ok in H. destruct H as (l0 & s0 & Hr0 & H).
  destruct (read_array_run _ _ _ _ _ _ Hc Hr0) as (-> & Hv0 & Hu0).
  simpl in H. apply bind_Ok in H. destruct H as ([] & s1 & H & Hret).
  unfold ret in Hret. inversion Hret; subst s1. clear Hret.
  apply bind_Ok in H. destruct H as (l1 & s1 & Hr1 & H).
  rewrite (read_array_array _ _ _ _ Hv0) in Hr1. inversion Hr1; subst l1 s1.
  unfold remove_first.
  destruct (index_of m (collection r (desc_name d) s)) as [i|].
  - apply bind_Ok in H. destruct H as ([] & s1 & Hinv & H).
    assert (s1 = s0) as ->.
    { destruct (inv_name d); unfold ret in Hinv; by inversion Hinv. }
    apply bind_Ok in H. destruct H as (l1 & s1 & Hr1' & H).
    rewrite (read_array_array _ _ _ _ Hv0) in Hr1'. inversion Hr1'; subst l1 s1.
    unfold own_set in H. inversion H; subst s'.
    assert (Hc0 : class_of r s0 = Some c) by (destruct Hu0 as (Hu0 & _); by rewrite Hu0).
    split; [by apply (own_get_put_own_eq _ _ _ _ c)|].
    eapply unchanged_except_trans; [exact Hu0|apply unchanged_except_put_own].
  - unfold ret in H. inversion H; subst s'. by split.
Qed.

(** ** What the inverse side receives *)

Lemma inverseRemoved_classes E this n m s res s' :
  inverseRemoved E this n m s = (res, s') -> forall r, class_of r s' = class_of r s.
Proof.
  intros H.
  assert (Hk : keeps (fun r => class_of r s) (fun _ => True) (fun _ _ => False)
                 (fun _ _ => None) s').
  { eapply (preserves_inverseRemoved E); [|exact H|]; [tauto|by repeat split]. }
  by destruct Hk.
Qed.

Lemma inverseAdded_classes E this n m s res s' :
  inverseAdded E this n m s = (res, s') -> forall r, class_of r s' = class_of r s.
Proof.
  intros H.
  assert (Hk : keeps (fun r => class_of r s) (fun _ => True) (fun _ _ => False)
                 (fun _ _ => None) s').
  { eapply (preserves_inverseAdded E); [|exact H|]; [tauto|by repeat split]. }
  by destruct Hk.
Qed.

Lemma inverseAdded_run E b cb inv d2 m s s' :
  class_of b s = Some cb ->
  associations E cb inv = ADesc d2 ->
  inverseAdded E (VModel b) inv m s = (Ok tt, s') ->
  unchanged_except b (slot inv) s s' /\
  match desc_type d2 with
  | HasOne => own_get b (slot inv) s' = m
  | HasMany => own_get b (slot inv) s' = VArr (collection b inv s ++ [m])
  end.
Proof.
  intros Hc Ha H. simpl in H. rewrite Hc, Ha in H.
  destruct (associations_ADesc _ _ _ _ Ha) as [Hn _].
  destruct (desc_type d2).
  - apply hasOneSet_nosync_run in H. rewrite Hn in H. subst s'.
    split; [apply unchanged_except_put_own|by apply (own_get_put_own_eq _ _ _ _ cb)].
  - apply (hasManyAdd_nosync_run _ _ _ _ _ cb) in H; [|done].
    rewrite Hn in H. tauto.
Qed.

Lemma inverseRemoved_run E b cb inv d2 m s s' :
  class_of b s = Some cb ->
  associations E cb inv = ADesc d2 ->
  inverseRemoved E (VModel b) inv m s = (Ok tt, s') ->
  unchanged_except b (slot inv) s s' /\
  match desc_type d2 with
  | HasOne => own_get b (slot inv) s' = VUndef
  | HasMany => own_get b (slot inv) s' = VArr (remove_first m (collection b inv s))
  end.
Proof.
  intros Hc Ha H. simpl in H. rewrite Hc, Ha in H.
  destruct (associations_ADesc _ _ _ _ Ha) as [Hn _].
  destruct (desc_type d2).
  - apply hasOneSet_nosync_run in H. rewrite Hn in H. subst s'.
    split; [apply unchanged_except_put_own|by apply (own_get_put_own_eq _ _ _ _ cb)].
  - apply (hasManyRemove_nosync_run _ _ _ _ cb) in H; [|done].
    rewrite Hn in H. tauto.
Qed.

(** Whatever the inverse side of [this] is, [inverseRemoved] changes one
    slot of [this] at most. *)
Lemma inverseRemoved_unchanged E r inv m s res s' :
  inverseRemoved E (VModel r) inv m s = (res, s') ->
  unchanged_except r (slot inv) s s'.
Proof.
  intros H.
  assert (Hk : keeps (fun r' => class_of r' s) (fun im => im = idmap s)
                 (fun r' k => r' <> r \/ k <> slot inv)
                 (fun r' k => own_lookup r' k s) s').
  { eapply (preserves_inverseRemoved_at E); [|exact H|by repeat split]. tauto. }
  destruct Hk as (? & ? & ?). by repeat split.
Qed.

Lemma remove_first_absent m l : index_of m l = None -> remove_first m l = l.
Proof. unfold remove_first. by intros ->. Qed.

Lemma index_of_snoc m l :
  index_of m l = None -> strict_eq m m = true -> index_of m (l ++ [m]) = Some (length l).
Proof.
  intros Hn Hm. induction l as [|x l IH]; simpl in *.
  - by rewrite Hm.
  - destruct (strict_eq x m); [done|].
    destruct (index_of m l); [done|]. by rewrite IH.
Qed.

Lemma remove_first_snoc m l :
  index_of m l = None -> strict_eq m m = true -> remove_first m (l ++ [m]) = l.
Proof.
  intros Hn Hm. unfold remove_first. rewrite index_of_snoc by done.
  induction l as [|x l IH]; simpl; [done|].
  simpl in Hn. destruct (strict_eq x m); [done|].
  destruct (index_of m l) eqn:Hi; [done|]. f_equal. by apply IH.
Qed.

(** ** [hasOne] and its inverse *)

(** The steps of a successful synchronising [hasOneSet]. *)
Lemma hasOneSet_sync_steps E a d v inv s s' :
  inv_name d = Some inv ->
  hasOneSet E a d v true s = (Ok tt, s') ->
  exists sB,
    (if truthy (own_get a (slot (desc_name d)) s)
     then inverseRemoved E (own_get a (slot (desc_name d)) s) inv (VModel a)
            (put_own a (slot (desc_name d)) v s) = (Ok tt, sB)
     else sB = put_own a (slot (desc_name d)) v s) /\
    (if truthy v then inverseAdded E v inv (VModel a) sB = (Ok tt, s') else s' = sB).
Proof.
  intros Hinv H. unfold hasOneSet, hasOneSet_with in H. rewrite Hinv in H.
  apply bind_Ok in H. destruct H as ([] & s0 & Hchk & H).
  assert (s0 = s) as ->.
  { destruct (truthy v); [by apply checkAssociatedType_state in Hchk|].
    unfold ret in Hchk. by inversion Hchk. }
  apply bind_Ok in H. destruct H as ([] & sA & Hset & H).
  unfold own_set in Hset. inversion Hset; subst sA. clear Hset.
  apply bind_Ok in H. destruct H as ([] & sB & Hrem & H).
  exists sB. simpl in Hrem, H. split.
  - destruct (truthy (own_get a (slot (desc_name d)) s)); [done|].
    unfold ret in Hrem. by inversion Hrem.
  - destruct (truthy v); [done|]. unfold ret in H. by inversion H.
Qed.

Lemma associations_HasOne E c p i :
  proto_lookup E c p = Some (PHasOne i) -> associations E c p = ADesc (mk_desc HasOne p i).
Proof. unfold associations. by intros ->. Qed.

Lemma inverseRemoved_model E this inv m s s' :
  inverseRemoved E this inv m s = (Ok tt, s') -> exists x, this = VModel x.
Proof. destruct this; simpl; unfold throw; intros H; inversion H. eauto. Qed.

(** C3, as the code has it.  After a successful [a.p = b] on a [hasOne]
    association whose inverse [inv] is declared on the class of [b], the
    inverse property of [b] is [a] (a [hasOne] inverse) or the inverse
    collection of [b] ends with [a] (a [hasMany] inverse).  Unless [a] was
    its own partner under a self-inverse association, [a.p] then is [b];
    setting it to a falsy value clears a [hasOne] inverse of [b] and removes
    the first occurrence of [a] from a [hasMany] inverse of [b], which gives
    back the collection [b] had before the assignment when [a] was not in
    it. *)
Theorem hasOne_inverse_follows E a b ca cb p i inv d2 s s1 :
  class_of a s = Some ca ->
  class_of b s = Some cb ->
  proto_lookup E ca p = Some (PHasOne i) ->
  inv_name (mk_desc HasOne p i) = Some inv ->
  associations E cb inv = ADesc d2 ->
  hasOneSet E a (mk_desc HasOne p i) (VModel b) true s = (Ok tt, s1) ->
  match desc_type d2 with
  | HasOne => own_get b (slot inv) s1 = VModel a
  | HasMany => exists l, own_get b (slot inv) s1 = VArr (l ++ [VModel a])
  end /\
  (own_get a (slot p) s <> VModel a \/ p <> inv -> own_get a (slot p) s1 = VModel b) /\
  forall v s2,
    truthy v = false ->
    own_get a (slot p) s1 = VModel b ->
    hasOneSet E a (mk_desc HasOne p i) v true s1 = (Ok tt, s2) ->
    match desc_type d2 with
    | HasOne => own_get b (slot inv) s2 = VUndef
    | HasMany =>
        own_get b (slot inv) s2 = VArr (remove_first (VModel a) (collection b inv s1)) /\
        (index_of (VModel a) (collection b inv s) = None ->
         own_get b (slot inv) s2 = VArr (collection b inv s))
    end.
Proof.
  intros Hca Hcb Hp Hinv Hd2 Hset.
  set (d := mk_desc HasOne p i) in *.
  (* when the two sides are the same slot the inverse is this [hasOne] *)
  assert (Hsame : a = b /\ p = inv -> d2 = d).
  { intros [-> ->]. rewrite Hca in Hcb. inversion Hcb; subst cb.
    rewrite (associations_HasOne _ _ _ _ Hp) in Hd2. by inversion Hd2. }
  assert (Hdiff : desc_type d2 = HasMany -> a <> b \/ slot p <> slot inv).
  { intros Hty. destruct (decide (a = b)) as [Hab|]; [|by left].
    right. intros Hs. apply slot_inj in Hs.
    rewrite (Hsame (conj Hab Hs)) in Hty. discriminate. }
  destruct (hasOneSet_sync_steps _ _ _ _ _ _ _ Hinv Hset) as (sB & Hrem & Hadd).
  simpl in Hrem, Hadd. fold d in Hrem.
  set (sA := put_own a (slot p) (VModel b) s) in *.
  assert (HcA : forall r, class_of r sA = class_of r s)
    by (intros r; apply class_of_put_own).
  assert (HuB : exists x, unchanged_except x (slot inv) sA sB /\
                          (truthy (own_get a (slot p) s) = true ->
                           own_get a (slot p) s = VModel x)).
  { destruct (truthy (own_get a (slot p) s)) eqn:Hprev.
    - destruct (inverseRemoved_model _ _ _ _ _ _ Hrem) as [x Hx]. rewrite Hx in Hrem.
      exists x. split; [by eapply inverseRemoved_unchanged|done].
    - subst sB. exists a. split; [apply unchanged_except_refl|done]. }
  destruct HuB as (x & HuB & Hx).
  assert (HcB : forall r, class_of r sB = class_of r s).
  { intros r. destruct HuB as (HuB & _). by rewrite HuB. }
  destruct (inverseAdded_run E b cb inv d2 (VModel a) sB s1) as [Hu1 Hres1]; auto.
  { by rewrite HcB. }
  split; [|split].
  - destruct (desc_type d2); [done|eauto].
  - intros Hnot.
    destruct (decide (a = b /\ p = inv)) as [[Hab Hpi]|Hne].
    { rewrite (Hsame (conj Hab Hpi)) in Hres1. simpl in Hres1. by subst. }
    rewrite (own_get_unchanged b (slot inv) sB s1); [|done|].
    2: { destruct (decide (a = b)); [right; intros Hs; apply slot_inj in Hs; tauto|by left]. }
    destruct (truthy (own_get a (slot p) s)) eqn:Hprev.
    + rewrite (own_get_unchanged x (slot inv) sA sB); [|done|].
      { by apply (own_get_put_own_eq _ _ _ _ ca). }
      destruct (decide (a = x)) as [->|]; [|by left].
      right. intros Hs. apply slot_inj in Hs. destruct Hnot; [|done].
      by rewrite Hx in *.
    + rewrite Hrem. by apply (own_get_put_own_eq _ _ _ _ ca).
  - intros v s2 Hv Hnow Hclear.
    destruct (hasOneSet_sync_steps _ _ _ _ _ _ _ Hinv Hclear) as (sB' & Hrem' & Hadd').
    simpl in Hrem', Hadd'. rewrite Hnow in Hrem'. simpl in Hrem'.
    rewrite Hv in Hadd'. subst sB'.
    assert (Hc1 : class_of b s1 = Some cb).
    { destruct Hu1 as (Hu1 & _). by rewrite Hu1, HcB. }
    destruct (inverseRemoved_run E b cb inv d2 (VModel a) _ s2
                ltac:(by rewrite class_of_put_own) Hd2 Hrem') as [Hu2 Hres2].
    destruct (desc_type d2) eqn:Hty; [done|].
    specialize (Hdiff eq_refl).
    assert (Hcoll : collection b inv (put_own a (slot p) v s1) = collection b inv s1).
    { apply (collection_unchanged a (slot p)); [apply unchanged_except_put_own|].
      destruct Hdiff; [left; congruence|right; congruence]. }
    rewrite Hcoll in Hres2. split; [done|].
    intros Habsent. rewrite Hres2. f_equal.
    assert (HcollA : collection b inv sA = collection b inv s).
    { apply (collection_unchanged a (slot p)); [apply unchanged_except_put_own|].
      destruct Hdiff; [left; congruence|right; congruence]. }
    assert (HcollB : collection b inv sB = collection b inv s).
    { destruct (truthy (own_get a (slot p) s)) eqn:Hprev.
      - destruct (decide (x = b)) as [->|Hxb].
        + rewrite (Hx eq_refl) in Hrem.
          destruct (inverseRemoved_run E b cb inv d2 (VModel a) sA sB) as [_ Hr]; auto.
          { by rewrite HcA. }
          rewrite Hty in Hr. unfold collection at 1. rewrite Hr, HcollA.
          by rewrite remove_first_absent.
        + rewrite <- HcollA. apply (collection_unchanged x (slot inv)); [done|].
          left. congruence.
      - by rewrite Hrem. }
    assert (Hcoll1 : collection b inv s1 = collection b inv s ++ [VModel a]).
    { unfold collection at 1. by rewrite Hres1, HcollB. }
    rewrite Hcoll1. apply remove_first_snoc; [done|]. simpl. apply Nat.eqb_refl.
Qed.

Lemma hasOne_inverse_follows_witness :
  let s1 := run_from foo_and_bar (hasOneSet OneOne.env 0 OneOne.bar (VModel 1) true) in
  let s2 := run_from s1 (hasOneSet OneOne.env 0 OneOne.bar VNull true) in
  hasOneSet OneOne.env 0 OneOne.bar (VModel 1) true foo_and_bar = (Ok tt, s1) /\
  own_get 1 (slot "foo") s1 = VModel 0 /\
  own_get 0 (slot "bar") s1 = VModel 1 /\
  hasOneSet OneOne.env 0 OneOne.bar VNull true s1 = (Ok tt, s2) /\
  own_get 1 (slot "foo") s2 = VUndef.
Proof.
  intros s1 s2.
  assert (H1 : hasOneSet OneOne.env 0 OneOne.bar (VModel 1) true foo_and_bar = (Ok tt, s1))
    by (vm_compute; reflexivity).
  assert (H2 : hasOneSet OneOne.env 0 OneOne.bar VNull true s1 = (Ok tt, s2))
    by (vm_compute; reflexivity).
  destruct (hasOne_inverse_follows OneOne.env 0 1 OneOne.Foo OneOne.Bar "bar"
              {| a_klass := KFun OneOne.Bar; a_inverse := Some "foo" |} "foo"
              (mk_desc HasOne "foo" {| a_klass := KFun OneOne.Foo; a_inverse := Some "bar" |})
              foo_and_bar s1)
    as (Hinv & Hset & Hclear);
    [reflexivity|reflexivity|reflexivity|reflexivity|reflexivity|exact H1|].
  assert (Hnow : own_get 0 (slot "bar") s1 = VModel 1) by (apply Hset; right; discriminate).
  split; [exact H1|]. split; [exact Hinv|]. split; [exact Hnow|]. split; [exact H2|].
  exact (Hclear VNull s2 eq_refl Hnow H2).
Defined.

(** C3 as stated fails when the inverse is a [hasMany] that already holds
    [a]: after [b.addFoos(a); b2.addFoos(a)], the assignment [a.bar = b]
    succeeds and [a.bar = undefined] succeeds, and [b.foos] still is
    [[a]]. *)
Lemma hasOne_clear_keeps_reference :
  exists s1 s2,
    hasOneSet OneMany.env 0 OneMany.bar (VModel 1) true shared_foo = (Ok tt, s1) /\
    own_get 0 (slot "bar") s1 = VModel 1 /\
    collection 1 "foos" s1 = [VModel 0; VModel 0] /\
    hasOneSet OneMany.env 0 OneMany.bar VUndef true s1 = (Ok tt, s2) /\
    own_get 0 (slot "bar") s2 = VUndef /\
    collection 1 "foos" s2 = [VModel 0].
Proof.
  exists (run_from shared_foo (hasOneSet OneMany.env 0 OneMany.bar (VModel 1) true)).
  exists (run_from (run_from shared_foo (hasOneSet OneMany.env 0 OneMany.bar (VModel 1) true))
            (hasOneSet OneMany.env 0 OneMany.bar VUndef true)).
  vm_compute. repeat split.
Qed.

(** ** [hasMany]: the generated [add] and [remove] methods *)

Lemma associations_HasMany E c p i :
  proto_lookup E c p = Some (PHasMany i) -> associations E c p = ADesc (mk_desc HasMany p i).
Proof. unfold associations. by intros ->. Qed.

Lemma index_of_snoc_found m l :
  strict_eq m m = true -> exists j, index_of m (l ++ [m]) = Some j.
Proof.
  intros Hm. induction l as [|x l IH]; simpl.
  - rewrite Hm. eauto.
  - destruct (strict_eq x m); [eauto|]. destruct IH as [j ->]. simpl. eauto.
Qed.

(** C4, as the code has it.  For a [hasMany] association of [f] whose
    inverse [inv] is declared on the class of [b], the two sides being
    different slots: a successful [f.add(b)] appends [b] to the collection of
    [f] and appends [f] to the inverse collection of [b] (or sets the inverse
    [hasOne] of [b] to [f]), whatever these collections held; a following
    [f.remove(b)] takes the first [b] out of the collection of [f] and the
    first [f] out of the inverse collection of [b] (or clears the inverse
    [hasOne]). *)
Theorem hasMany_add_then_remove E f b cf cb name i inv d2 s s1 :
  class_of f s = Some cf ->
  class_of b s = Some cb ->
  proto_lookup E cf name = Some (PHasMany i) ->
  inv_name (mk_desc HasMany name i) = Some inv ->
  associations E cb inv = ADesc d2 ->
  f <> b \/ name <> inv ->
  generated_add E f (mk_desc HasMany name i) [VModel b] s = (Ok tt, s1) ->
  own_get f (slot name) s1 = VArr (collection f name s ++ [VModel b]) /\
  match desc_type d2 with
  | HasOne => own_get b (slot inv) s1 = VModel f
  | HasMany => own_get b (slot inv) s1 = VArr (collection b inv s ++ [VModel f])
  end /\
  forall s2,
    generated_remove E f (mk_desc HasMany name i) [VModel b] s1 = (Ok tt, s2) ->
    own_get f (slot name) s2 = VArr (remove_first (VModel b) (collection f name s1)) /\
    match desc_type d2 with
    | HasOne => own_get b (slot inv) s2 = VUndef
    | HasMany =>
        own_get b (slot inv) s2 = VArr (remove_first (VModel f) (collection b inv s1))
    end.
Proof.
  intros Hcf Hcb Hp Hinv Hd2 Hslots Hadd.
  assert (Hfb : f <> b \/ slot name <> slot inv).
  { destruct Hslots; [by left|right]. intros Hs. by apply slot_inj in Hs. }
  assert (Hbf : b <> f \/ slot inv <> slot name).
  { destruct Hfb; [left|right]; congruence. }
  unfold generated_add, hasManyAdd, hasManyAdd_with in Hadd. simpl in Hadd.
  rewrite Hinv in Hadd.
  apply bind_Ok in Hadd. destruct Hadd as (l0 & s0 & Hr0 & Hadd).
  destruct (read_array_run _ _ _ _ _ _ Hcf Hr0) as (-> & Hv0 & Hu0).
  apply bind_Ok in Hadd. destruct Hadd as ([] & s' & Hadd & Hret).
  unfold ret in Hret. inversion Hret; subst s'. clear Hret.
  apply bind_Ok in Hadd. destruct Hadd as ([] & sC & Hchk & Hadd).
  apply checkAssociatedType_state in Hchk. subst sC.
  apply bind_Ok in Hadd. destruct Hadd as ([] & sI & Hinvadd & Hadd).
  assert (Hcb0 : class_of b s0 = Some cb) by (destruct Hu0 as (Hu0 & _); by rewrite Hu0).
  destruct (inverseAdded_run E b cb inv d2 (VModel f) s0 sI Hcb0 Hd2 Hinvadd) as [HuI HresI].
  assert (HvI : own_get f (slot name) sI = VArr (collection f name s)).
  { by rewrite (own_get_unchanged b (slot inv) s0 sI). }
  apply bind_Ok in Hadd. destruct Hadd as (l1 & sJ & Hr1 & Hadd).
  rewrite (read_array_array _ _ _ _ HvI) in Hr1. inversion Hr1; subst l1 sJ. clear Hr1.
  unfold own_set in Hadd. inversion Hadd; subst s1. clear Hadd.
  assert (HcfI : class_of f sI = Some cf).
  { destruct HuI as (HuI & _), Hu0 as (Hu0 & _). by rewrite HuI, Hu0. }
  assert (Hcoll0 : collection b inv s0 = collection b inv s).
  { by apply (collection_unchanged f (slot name)). }
  set (s1 := put_own f (slot name) (VArr (collection f name s ++ [VModel b])) sI).
  assert (Hf1 : own_get f (slot name) s1 = VArr (collection f name s ++ [VModel b])).
  { by apply (own_get_put_own_eq _ _ _ _ cf). }
  assert (Hb1 : own_get b (slot inv) s1 = own_get b (slot inv) sI).
  { by apply own_get_put_own_ne. }
  split; [exact Hf1|]. split.
  { rewrite Hb1. rewrite Hcoll0 in HresI. exact HresI. }
  (* remove *)
  intros s2 Hrem.
  unfold generated_remove, hasManyRemove, hasManyRemove_with in Hrem. simpl in Hrem.
  rewrite Hinv in Hrem.
  apply bind_Ok in Hrem. destruct Hrem as (l2 & sK & Hr2 & Hrem).
  rewrite (read_array_array _ _ _ _ Hf1) in Hr2. inversion Hr2; subst l2 sK. clear Hr2.
  apply bind_Ok in Hrem. destruct Hrem as ([] & s' & Hrem & Hret).
  unfold ret in Hret. inversion Hret; subst s'. clear Hret.
  apply bind_Ok in Hrem. destruct Hrem as (l2 & sK & Hr2 & Hrem).
  rewrite (read_array_array _ _ _ _ Hf1) in Hr2. inversion Hr2; subst l2 sK. clear Hr2.
  assert (Hcoll1 : collection f name s1 = collection f name s ++ [VModel b]).
  { unfold collection. by rewrite Hf1. }
  rewrite Hcoll1. unfold remove_first at 1.
  destruct (index_of_snoc_found (VModel b) (collection f name s)) as [j Hj];
    [simpl; apply Nat.eqb_refl|].
  rewrite Hj in Hrem |- *.
  apply bind_Ok in Hrem. destruct Hrem as ([] & sR & Hinvrem & Hrem).
  assert (Hcb1 : class_of b s1 = Some cb).
  { unfold s1. rewrite class_of_put_own. destruct HuI as (HuI & _). by rewrite HuI. }
  destruct (inverseRemoved_run E b cb inv d2 (VModel f) s1 sR Hcb1 Hd2 Hinvrem) as [HuR HresR].
  assert (HvR : own_get f (slot name) sR = VArr (collection f name s ++ [VModel b])).
  { by rewrite (own_get_unchanged b (slot inv) s1 sR). }
  apply bind_Ok in Hrem. destruct Hrem as (l3 & sL & Hr3 & Hrem).
  rewrite (read_array_array _ _ _ _ HvR) in Hr3. inversion Hr3; subst l3 sL. clear Hr3.
  unfold own_set in Hrem. inversion Hrem; subst s2. clear Hrem.
  assert (HcfR : class_of f sR = Some cf).
  { destruct HuR as (HuR & _). rewrite HuR. unfold s1. by rewrite class_of_put_own. }
  split; [by apply (own_get_put_own_eq _ _ _ _ cf)|].
  rewrite own_get_put_own_ne by done. exact HresR.
Qed.

Lemma hasMany_add_then_remove_witness :
  let s1 := run_from foo_and_bar (generated_add ManyMany.env 0 ManyMany.bars [VModel 1]) in
  let s2 := run_from s1 (generated_remove ManyMany.env 0 ManyMany.bars [VModel 1]) in
  generated_add ManyMany.env 0 ManyMany.bars [VModel 1] foo_and_bar = (Ok tt, s1) /\
  own_get 0 (slot "bars") s1 = VArr [VModel 1] /\
  own_get 1 (slot "foos") s1 = VArr [VModel 0] /\
  generated_remove ManyMany.env 0 ManyMany.bars [VModel 1] s1 = (Ok tt, s2) /\
  own_get 0 (slot "bars") s2 = VArr [] /\
  own_get 1 (slot "foos") s2 = VArr [].
Proof.
  intros s1 s2.
  assert (H1 : generated_add ManyMany.env 0 ManyMany.bars [VModel 1] foo_and_bar = (Ok tt, s1))
    by (vm_compute; reflexivity).
  assert (H2 : generated_remove ManyMany.env 0 ManyMany.bars [VModel 1] s1 = (Ok tt, s2))
    by (vm_compute; reflexivity).
  destruct (hasMany_add_then_remove ManyMany.env 0 1 ManyMany.Foo ManyMany.Bar "bars"
              {| a_klass := KFun ManyMany.Bar; a_inverse := Some "foos" |} "foos"
              ManyMany.foos foo_and_bar s1)
    as (Hf & Hb & Hrem);
    [reflexivity|reflexivity|reflexivity|reflexivity|reflexivity|left; discriminate|exact H1|].
  destruct (Hrem s2 H2) as [Hf2 Hb2].
  split; [exact H1|]. split; [exact Hf|]. split; [exact Hb|]. split; [exact H2|].
  split; [exact Hf2|exact Hb2].
Defined.

(** C4 as stated fails: [hasManyAdd] has no membership test, so adding the
    same instance twice leaves it twice in the collection, and the owner
    twice in the inverse collection. *)
Lemma hasMany_add_twice_duplicates :
  exists s1 s2,
    generated_add ManyMany.env 0 ManyMany.bars [VModel 1] foo_and_bar = (Ok tt, s1) /\
    generated_add ManyMany.env 0 ManyMany.bars [VModel 1] s1 = (Ok tt, s2) /\
    collection 0 "bars" s2 = [VModel 1; VModel 1] /\
    collection 1 "foos" s2 = [VModel 0; VModel 0].
Proof.
  exists (run_from foo_and_bar (generated_add ManyMany.env 0 ManyMany.bars [VModel 1])).
  exists (run_from (run_from foo_and_bar (generated_add ManyMany.env 0 ManyMany.bars [VModel 1]))
            (generated_add ManyMany.env 0 ManyMany.bars [VModel 1])).
  vm_compute. repeat split.
Qed.

(** ** [hasMany]: assigning the property *)

Lemma instanceof_classes E o k s s' :
  (forall r, class_of r s' = class_of r s) -> instanceof E o k s' = instanceof E o k s.
Proof. intros H. unfold instanceof. destruct o; try done. by rewrite H. Qed.

Lemma checkAssociatedType_classes E this d o s s' :
  (forall r, class_of r s' = class_of r s) ->
  fst (checkAssociatedType E this d o s') = fst (checkAssociatedType E this d o s).
Proof.
  intros H. unfold checkAssociatedType.
  destruct (desc_klass d) as [c|n].
  - rewrite (instanceof_classes E o c s s' H). by destruct (instanceof E o c s).
  - destruct (registeredClasses E !! n) as [c|].
    + rewrite (instanceof_classes E o c s s' H). by destruct (instanceof E o c s).
    + repeat case_match; reflexivity.
Qed.

Lemma for_each_check_throws E this d elems m s :
  m ∈ elems ->
  fst (checkAssociatedType E this d m s) <> Ok tt ->
  exists e, for_each elems (checkAssociatedType E this d) s = (Throw e, s).
Proof.
  intros Hin Hbad. induction elems as [|x elems IH]; [by apply not_elem_of_nil in Hin|].
  simpl. unfold bind.
  destruct (checkAssociatedType E this d x s) as [[[]|e] s1] eqn:Hx;
    pose proof (checkAssociatedType_state _ _ _ _ _ _ _ Hx) as ->.
  - apply IH. apply elem_of_cons in Hin. destruct Hin as [->|]; [|done].
    rewrite Hx in Hbad. done.
  - eauto.
Qed.

Lemma hasMany_get_classes this name s :
  forall r, class_of r (snd (hasMany_get this name s)) = class_of r s.
Proof.
  intros r. unfold hasMany_get. destruct (truthy (own_get this (slot name) s)); [done|].
  simpl. apply class_of_put_own.
Qed.

Lemma hasMany_get_Ok this name s : exists v, fst (hasMany_get this name s) = Ok v.
Proof.
  unfold hasMany_get. destruct (truthy (own_get this (slot name) s)); simpl; eauto.
Qed.

(** The part of C5 on rejected assignments.  Every element of the new
    array is checked before the inverse sides or the slot are written: when
    an element is not an instance of the target class, the assignment throws
    and the state is the one that reading [this[name]] produces (the getter
    stores an empty array in a slot that held none). *)
Lemma hasManySet_rejects_before_writing E this d a elems m s :
  iter_values a = Some elems ->
  m ∈ elems ->
  fst (checkAssociatedType E this d m s) <> Ok tt ->
  exists e, hasManySet E this d a s = (Throw e, snd (hasMany_get this (desc_name d) s)).
Proof.
  intros Hit Hin Hbad. unfold hasManySet. rewrite Hit. unfold bind at 1.
  destruct (hasMany_get_Ok this (desc_name d) s) as [prev Hprev].
  destruct (hasMany_get this (desc_name d) s) as [res s0] eqn:Hget.
  simpl in Hprev. subst res. simpl.
  assert (Hbad0 : fst (checkAssociatedType E this d m s0) <> Ok tt).
  { rewrite (checkAssociatedType_classes E this d m s s0); [done|].
    intros r. pose proof (hasMany_get_classes this (desc_name d) s r) as Hc.
    by rewrite Hget in Hc. }
  destruct (for_each_check_throws E this d elems m s0 Hin Hbad0) as [e He].
  exists e. unfold bind. by rewrite He.
Qed.

(** C5 on a symmetric relation.  With [f.friends = [f, x]] in place, the
    assignment [f.friends = []] succeeds and empties the collection of [f],
    and [x.friends] still is [[f]]: the loop over the previous members reads
    the live array, from which detaching [f] itself removes an element, so
    that [x] is never reached. *)
Theorem hasManySet_skips_a_previous_member :
  collection 0 "friends" befriended = [VModel 0; VModel 1] /\
  collection 1 "friends" befriended = [VModel 0] /\
  exists s',
    hasManySet Friends.env 0 Friends.friends (VArr []) befriended = (Ok tt, s') /\
    collection 0 "friends" s' = [] /\
    collection 1 "friends" s' = [VModel 0].
Proof.
  split; [vm_compute; reflexivity|]. split; [vm_compute; reflexivity|].
  exists (run_from befriended (hasManySet Friends.env 0 Friends.friends (VArr []))).
  vm_compute. repeat split.
Qed.

(** ** The query collection *)

Module QueryArrayFacts.

Import QueryArray.

Lemma insert_middle {A} (l1 l2 : list A) (x y : A) :
  <[length l1 := x]> (l1 ++ y :: l2) = l1 ++ x :: l2.
Proof. rewrite insert_app_r_alt by lia. by rewrite Nat.sub_diag. Qed.

Lemma chain_init_length m init : length (chain_init m init) = length init.
Proof. revert m. induction init as [|seg init IH]; intros m; simpl; [done|]. by rewrite IH. Qed.

Lemma chain_init_snoc m init seg :
  chain_init m (init ++ [seg])
  = chain_init m init
    ++ [ {| p_state := None; p_reactions := seg ++ [OnQueued (S (m + length init))] |} ].
Proof.
  revert m. induction init as [|x init IH]; intros m; simpl.
  - by rewrite Nat.add_0_r.
  - rewrite IH. by rewrite Nat.add_succ_r.
Qed.

(** The last promise of a collection in flight is the current one. *)
Lemma in_flight_current q0 opts qd init last :
  promises (in_flight q0 opts qd init last) !! current (in_flight q0 opts qd init last)
  = Some {| p_state := None; p_reactions := last |}.
Proof.
  simpl. rewrite lookup_app_r by lia.
  replace (S (length (promises q0) + length init) - length (promises q0))
    with (S (length init)) by lia.
  simpl. rewrite lookup_app_r by (rewrite chain_init_length; lia).
  rewrite chain_init_length. by replace (length init - length init) with 0 by lia.
Qed.

Lemma in_flight_insert_current q0 opts qd init last p :
  <[current (in_flight q0 opts qd init last) := p]> (promises (in_flight q0 opts qd init last))
  = promises q0 ++ {| p_state := None; p_reactions := [OnMapper (S (length (promises q0)))] |}
    :: chain_init (S (length (promises q0))) init ++ [p].
Proof.
  simpl. rewrite insert_app_r_alt by lia.
  replace (S (length (promises q0) + length init) - length (promises q0))
    with (S (length init)) by lia.
  simpl. f_equal. f_equal. rewrite insert_app_r_alt by (rewrite chain_init_length; lia).
  rewrite chain_init_length. by replace (length init - length init) with 0 by lia.
Qed.

Lemma subscribe_in_flight q0 opts qd init last r :
  subscribe (current (in_flight q0 opts qd init last)) r (in_flight q0 opts qd init last)
  = in_flight q0 opts qd init (last ++ [r]).
Proof.
  unfold subscribe. rewrite in_flight_current.
  unfold with_promises. rewrite in_flight_insert_current. reflexivity.
Qed.

(** An idle collection dispatches. *)
Lemma query_idle q0 opts :
  isBusy q0 = false -> jobs q0 = [] ->
  query Working opts q0 = (Ok tt, in_flight q0 (default_opts opts) (queued q0) [] []).
Proof.
  intros Hb Hj. unfold query. rewrite Hb. unfold callMapper, new_promise. simpl.
  unfold subscribe. simpl.
  rewrite lookup_app_l by (rewrite length_app; simpl; lia).
  rewrite list_lookup_middle by done.
  unfold with_current, with_promises, in_flight. simpl. rewrite Hj. repeat f_equal.
  - rewrite length_app. simpl. lia.
  - rewrite length_app. simpl. rewrite Nat.add_1_r.
    rewrite <- app_assoc. simpl. by rewrite insert_middle.
Qed.

(** A busy collection queues. *)
Lemma query_in_flight q0 opts qd init last o :
  exists qd' init' last',
    query Working o (in_flight q0 opts qd init last)
    = (Ok tt, in_flight q0 opts qd' init' last') /\
    all_tags init' last' = all_tags init last /\
    (Forall (Forall (fun r => is_consumer r = true)) (init ++ [last]) ->
     Forall (Forall (fun r => is_consumer r = true)) (init' ++ [last'])).
Proof.
  unfold query. simpl isBusy. cbv iota.
  destruct (has_queued (in_flight q0 opts qd init last)) eqn:Hq.
  - exists (Some (default_opts o)), init, last. repeat split; auto.
  - exists (Some (default_opts o)), (init ++ [last]), []. split; [|split].
    + set (q := in_flight q0 opts qd init last).
      assert (Hcur : promises q !! current q = Some {| p_state := None; p_reactions := last |})
        by apply in_flight_current.
      assert (Hlen : length (promises q) = S (current q)).
      { unfold q. simpl. rewrite length_app. simpl. rewrite length_app, chain_init_length.
        simpl. lia. }
      unfold new_promise, subscribe. cbn [promises with_promises].
      rewrite lookup_app_l by lia. rewrite Hcur.
      rewrite insert_app_l by lia.
      unfold q at 2 3. rewrite in_flight_insert_current. fold q.
      rewrite Hlen. unfold with_promises, with_current, with_queued, in_flight. simpl.
      f_equal. f_equal.
      * rewrite length_app. simpl. lia.
      * rewrite <- app_assoc. f_equal. simpl. f_equal.
        rewrite chain_init_snoc. reflexivity.
    + unfold all_tags. rewrite map_app, concat_app. simpl.
      unfold seg_tags at 3. simpl. by rewrite !app_nil_r.
    + intros H. apply Forall_app. split; [done|]. by repeat constructor.
Qed.

Lemma consumers_snoc init last r :
  is_consumer r = true ->
  Forall (Forall (fun r => is_consumer r = true)) (init ++ [last]) ->
  Forall (Forall (fun r => is_consumer r = true)) (init ++ [last ++ [r]]).
Proof.
  intros Hr H. rewrite Forall_app in *. destruct H as [H1 H2]. split; [done|].
  rewrite Forall_singleton in *. rewrite Forall_app. split; [done|].
  by apply Forall_singleton.
Qed.

Lemma perform_in_flight c q0 opts qd init last :
  exists qd' init' last',
    perform Working c (in_flight q0 opts qd init last) = in_flight q0 opts qd' init' last' /\
    all_tags init' last' = all_tags init last ++ handlers_of [c] /\
    (Forall (Forall (fun r => is_consumer r = true)) (init ++ [last]) ->
     Forall (Forall (fun r => is_consumer r = true)) (init' ++ [last'])).
Proof.
  destruct c as [o|tag|tag]; unfold perform.
  - destruct (query_in_flight q0 opts qd init last o) as (qd' & init' & last' & Hq & Ht & Hc).
    exists qd', init', last'. rewrite Hq. unfold handlers_of. simpl. rewrite app_nil_r. auto.
  - exists qd, init, (last ++ [Consumer tag]). unfold then_.
    rewrite subscribe_in_flight. split; [done|]. split.
    + unfold all_tags, seg_tags, handlers_of. rewrite map_app, concat_app. simpl.
      by rewrite app_assoc.
    + by apply consumers_snoc.
  - exists qd, init, (last ++ [Catcher tag]). unfold catch.
    rewrite subscribe_in_flight. split; [done|]. split.
    + unfold all_tags, seg_tags, handlers_of. rewrite map_app, concat_app. simpl.
      by rewrite app_assoc.
    + by apply consumers_snoc.
Qed.

Lemma perform_all_in_flight cs q0 opts qd init last :
  Forall (Forall (fun r => is_consumer r = true)) (init ++ [last]) ->
  exists qd' init' last',
    perform_all Working cs (in_flight q0 opts qd init last) = in_flight q0 opts qd' init' last' /\
    all_tags init' last' = all_tags init last ++ handlers_of cs /\
    Forall (Forall (fun r => is_consumer r = true)) (init' ++ [last']).
Proof.
  revert qd init last. induction cs as [|c cs IH]; intros qd init last Hc; simpl.
  - exists qd, init, last. unfold handlers_of. simpl. rewrite app_nil_r. auto.
  - destruct (perform_in_flight c q0 opts qd init last) as (qd1 & init1 & last1 & Hp & Ht & Hc1).
    unfold perform_all in *. simpl. rewrite Hp.
    destruct (IH qd1 init1 last1 (Hc1 Hc)) as (qd2 & init2 & last2 & Hp2 & Ht2 & Hc2).
    exists qd2, init2, last2. split; [done|]. split; [|done].
    rewrite Ht2, Ht. unfold handlers_of. simpl. rewrite app_nil_r.
    by rewrite <- app_assoc.
Qed.

Lemma drain_consumers E e seg : forall J q k,
  Forall (fun r => is_consumer r = true) seg ->
  jobs q = map (fun r => React r (Throw e)) seg ++ J ->
  drain E Working (length seg + k) q
  = drain E Working k
      (with_observed_all (map (fun t => (t, Throw e)) (seg_tags seg))
         (with_promises (promises q) J q)).
Proof.
  induction seg as [|r seg IH]; intros J q k Hc Hj.
  - simpl in *. f_equal. destruct q; simpl in *. subst.
    unfold with_observed_all, with_promises. simpl. by rewrite app_nil_r.
  - apply Forall_cons in Hc. destruct Hc as [Hr Hc].
    simpl. rewrite Hj. simpl.
    rewrite (IH J); [| done |].
    + f_equal. destruct r; try discriminate; destruct q; simpl; unfold with_observed_all;
        simpl; by rewrite <- app_assoc.
    + destruct r; try discriminate; reflexivity.
Qed.

Lemma all_tags_cons seg init last :
  all_tags (seg :: init) last = seg_tags seg ++ all_tags init last.
Proof. unfold all_tags. simpl. by rewrite app_assoc. Qed.

(** A rejection runs down the chain of queued promises and reaches every
    consumer. *)
Lemma drain_chain E e init : forall pre last q,
  Forall (Forall (fun r => is_consumer r = true)) (init ++ [last]) ->
  promises q = pre ++ chain_init (length pre) init ++ [ {| p_state := None; p_reactions := last |} ] ->
  jobs q = [] ->
  exists fuel,
    drain E Working fuel (settle (length pre) (Throw e) q)
    = with_observed_all (map (fun t => (t, Throw e)) (all_tags init last))
        (with_promises (pre ++ replicate (S (length init)) (rejected e)) [] q).
Proof.
  induction init as [|seg init IH]; intros pre last q Hc Hp Hj.
  - simpl in *. rewrite Forall_singleton in Hc.
    exists (length last + 0). unfold settle. rewrite Hp, list_lookup_middle by done.
    rewrite insert_middle.
    rewrite (drain_consumers E e last []); [| done | simpl; by rewrite Hj, app_nil_r].
    simpl. unfold all_tags. simpl. reflexivity.
  - simpl in Hp. simpl in Hc. rewrite Forall_cons in Hc. destruct Hc as [Hseg Hc].
    set (q2 := with_observed_all (map (fun t => (t, Throw e)) (seg_tags seg))
                 (with_promises ((pre ++ [rejected e]) ++ chain_init (S (length pre)) init
                                 ++ [ {| p_state := None; p_reactions := last |} ]) [] q)).
    destruct (IH (pre ++ [rejected e]) last q2 Hc) as [fuel Hfuel].
    { unfold q2. simpl. rewrite length_app. simpl. by rewrite Nat.add_1_r. }
    { reflexivity. }
    exists (length seg + S fuel). unfold settle. rewrite Hp, list_lookup_middle by done.
    rewrite insert_middle. rewrite Hj. simpl app. rewrite map_app. simpl map.
    rewrite (drain_consumers E e seg [React (OnQueued (S (length pre))) (Throw e)]);
      [| done | reflexivity].
    simpl drain. 
    replace (settle (S (length pre)) (Throw e) _)
      with (settle (length (pre ++ [rejected e])) (Throw e) q2).
    2: { rewrite length_app. simpl. rewrite Nat.add_1_r. f_equal.
         unfold q2, with_observed_all, with_promises. simpl. by rewrite <- app_assoc. }
    rewrite Hfuel. rewrite all_tags_cons, map_app.
    unfold q2, with_observed_all, with_promises. simpl. f_equal.
    + by rewrite <- app_assoc.
    + by rewrite <- app_assoc.
Qed.

End QueryArrayFacts.

Import QueryArray.

(** C8.  Let an idle collection dispatch a call of [query], let consumers
    call [query], [then] and [catch] while the request is in flight, and let
    the promise of the mapper, the one at index [length (promises q0)], be
    rejected with [e].  Once the queued jobs have run, the collection is
    idle, [error] is [e], the contents (and the models) are the ones before
    the call, the mapper has been called once, every handler registered
    through [then] or [catch] has been called with the rejection, in order,
    and so is a handler registered afterwards. *)
Theorem rejection_is_stored_and_raised_again E q0 opts cs e :
  isBusy q0 = false ->
  jobs q0 = [] ->
  exists fuel,
    let q := perform_all Working cs (snd (query Working opts q0)) in
    let q' := drain E Working fuel (settle (length (promises q0)) (Throw e) q) in
    fst (query Working opts q0) = Ok tt /\
    jobs q' = [] /\
    isBusy q' = false /\
    error q' = Some e /\
    contents q' = contents q0 /\
    models q' = models q0 /\
    calls q' = calls q0 ++ [default_opts opts] /\
    observed q' = observed q0 ++ map (fun t => (t, Throw e)) (handlers_of cs) /\
    (forall tag,
        observed (drain E Working 1 (then_ tag q')) = observed q' ++ [(tag, Throw e)]) /\
    (forall tag,
        observed (drain E Working 1 (catch tag q')) = observed q' ++ [(tag, Throw e)]).
Proof.
  intros Hb Hj. rewrite (QueryArrayFacts.query_idle q0 opts Hb Hj). simpl fst. simpl snd.
  destruct (QueryArrayFacts.perform_all_in_flight cs q0 (default_opts opts) (queued q0) [] [])
    as (qd & init & last & Hq & Ht & Hc).
  { by repeat constructor. }
  rewrite Hq. clear Hq.
  set (n := length (promises q0)).
  set (q1 := with_error (Some e) (with_busy false
               (with_promises (promises q0 ++ rejected e
                                 :: chain_init (S n) init
                                 ++ [ {| p_state := None; p_reactions := last |} ]) []
                  (in_flight q0 (default_opts opts) qd init last)))).
  destruct (QueryArrayFacts.drain_chain E e init (promises q0 ++ [rejected e]) last q1 Hc)
    as [fuel Hfuel].
  { unfold q1. simpl. rewrite length_app. simpl. rewrite Nat.add_1_r.
    by rewrite <- app_assoc. }
  { reflexivity. }
  exists (S fuel). cbv zeta.
  assert (Hdrain :
    drain E Working (S fuel)
      (settle n (Throw e) (in_flight q0 (default_opts opts) qd init last))
    = with_observed_all (map (fun t => (t, Throw e)) (all_tags init last))
        (with_promises ((promises q0 ++ [rejected e]) ++ replicate (S (length init)) (rejected e))
           [] q1)).
  { rewrite <- Hfuel. clear Hfuel.
    replace (length (promises q0 ++ [rejected e])) with (S n)
      by (rewrite length_app; simpl; unfold n; lia).
    unfold settle at 1. simpl promises.
    rewrite list_lookup_middle by done. unfold n.
    rewrite QueryArrayFacts.insert_middle. reflexivity. }
  rewrite Hdrain. rewrite Ht. simpl.
  assert (Hlook : forall r,
    subscribe (S (n + length init)) r
      (with_observed_all (map (fun t => (t, Throw e)) (handlers_of cs))
         (with_promises ((promises q0 ++ [rejected e])
                         ++ rejected e :: replicate (length init) (rejected e)) [] q1))
    = with_promises ((promises q0 ++ [rejected e])
                     ++ rejected e :: replicate (length init) (rejected e))
        [React r (Throw e)]
        (with_observed_all (map (fun t => (t, Throw e)) (handlers_of cs)) q1)).
  { intros r. unfold subscribe. simpl promises.
    rewrite lookup_app_r by (rewrite length_app; simpl; lia).
    rewrite length_app. simpl length.
    replace (S (n + length init) - (length (promises q0) + 1)) with (length init) by (unfold n; lia).
    change (rejected e :: replicate (length init) (rejected e))
      with (replicate (S (length init)) (rejected e)).
    rewrite lookup_replicate_2 by lia. reflexivity. }
  repeat split; try reflexivity.
  - intros tag. unfold then_. simpl current. rewrite Hlook. reflexivity.
  - intros tag. unfold catch. simpl current. rewrite Hlook. reflexivity.
Qed.

Lemma rejection_is_stored_and_raised_again_witness :
  isBusy (make Blog.BasicModel empty_state) = false /\
  jobs (make Blog.BasicModel empty_state) = [] /\
  exists fuel,
    let q := perform_all Working [CallCatch 7]
               (snd (query Working VUndef (make Blog.BasicModel empty_state))) in
    let q' := drain Blog.env Working fuel (settle 1 (Throw (Rejected (VStr "foo"))) q) in
    isBusy q' = false /\
    error q' = Some (Rejected (VStr "foo")) /\
    contents q' = [] /\
    observed q' = [(7, Throw (Rejected (VStr "foo")))].
Proof.
  split; [reflexivity|]. split; [reflexivity|].
  destruct (rejection_is_stored_and_raised_again Blog.env (make Blog.BasicModel empty_state)
              VUndef [CallCatch 7] (Rejected (VStr "foo")) eq_refl eq_refl)
    as (fuel & _ & _ & Hbusy & Herr & Hcont & _ & _ & Hobs & _).
  exists fuel. split; [exact Hbusy|]. split; [exact Herr|]. split; [exact Hcont|exact Hobs].
Defined.

(** * Further properties of the model layer *)

(** ** Attributes *)

Lemma chars_length (a : string) : length (list_ascii_of_string a) = String.length a.
Proof. induction a as [|c a IH]; simpl; [done|]. by rewrite IH. Qed.

Lemma slot_ne_self k : slot k <> k.
Proof.
  intros H. apply (f_equal list_ascii_of_string) in H. rewrite slot_chars in H.
  apply (f_equal length) in H. rewrite !length_app in H. simpl in H. lia.
Qed.

Lemma shadow_ne_self k : k +:+ "BeforeCoercion" <> k.
Proof.
  intros H. apply (f_equal list_ascii_of_string) in H. rewrite chars_app in H.
  apply (f_equal length) in H. rewrite length_app in H. simpl in H. lia.
Qed.

Lemma has_own_false r k s : own_lookup r k s = None -> has_own r k s = false.
Proof. intros H. unfold has_own. rewrite H. apply bool_decide_eq_false_2. by intros [? ?]. Qed.

Lemma has_own_true r k v s : own_lookup r k s = Some v -> has_own r k s = true.
Proof. intros H. unfold has_own. rewrite H. apply bool_decide_eq_true_2. eauto. Qed.

(** An attribute that is set and read back: the getter answers with the
    coerced value, or with the default when the coerced value is
    [undefined]; the raw value is kept under [<name>BeforeCoercion]; nothing
    else changes. *)
Theorem attr_set_then_get E this c k coerce def v v' s :
  class_of this s = Some c ->
  proto_lookup E c k = Some (PAttr coerce def) ->
  own_lookup this k s = None ->
  coerce v = Ok v' ->
  exists s',
    set_prop E this k v s = (Ok tt, s') /\
    get_prop E this k s' = (Ok (if strict_eq v' VUndef then def else v'), s') /\
    get_prop E this (k +:+ "BeforeCoercion") s' = (Ok v, s') /\
    (forall r, class_of r s' = class_of r s) /\
    idmap s' = idmap s /\
    forall r k', r <> this \/ (k' <> slot k /\ k' <> k +:+ "BeforeCoercion") ->
      own_lookup r k' s' = own_lookup r k' s.
Proof.
  intros Hc Hp Hown Hv.
  set (s1 := put_own this (slot k) v' s).
  set (s2 := put_own this (k +:+ "BeforeCoercion") v s1).
  assert (Hc1 : class_of this s1 = Some c) by (unfold s1; by rewrite class_of_put_own).
  assert (Hc2 : class_of this s2 = Some c) by (unfold s2; by rewrite class_of_put_own).
  assert (Hk2 : own_lookup this k s2 = None).
  { unfold s2, s1. rewrite !own_lookup_put_own_ne; [done| |].
    - right. intros Hk. by apply (slot_ne_self k).
    - right. intros Hk. by apply (shadow_ne_self k). }
  exists s2. split; [|split; [|split; [|split; [|split]]]].
  - unfold set_prop. rewrite Hc, (has_own_false _ _ _ Hown), Hp, Hv. reflexivity.
  - unfold get_prop. rewrite Hc2, (has_own_false _ _ _ Hk2), Hp.
    replace (own_get this (slot k) s2) with v'; [done|].
    unfold s2. rewrite own_get_put_own_ne by (right; apply slot_ne_shadow).
    unfold s1. symmetry. by apply (own_get_put_own_eq _ _ _ _ c).
  - unfold get_prop. rewrite Hc2.
    assert (Hs : own_lookup this (k +:+ "BeforeCoercion") s2 = Some v)
      by (unfold s2; by apply (own_lookup_put_own_eq _ _ _ _ c)).
    rewrite (has_own_true _ _ _ _ Hs). unfold own_get. by rewrite Hs.
  - intros r. unfold s2, s1. by rewrite !class_of_put_own.
  - reflexivity.
  - intros r k' Hne. unfold s2, s1. rewrite !own_lookup_put_own_ne; [done| |]; tauto.
Qed.

Lemma attr_set_then_get_witness :
  exists s',
    set_prop Blog.env 0 "num" (VStr "12") (run_from empty_state (alloc Blog.BasicModel))
    = (Ok tt, s') /\
    get_prop Blog.env 0 "num" s' = (Ok (VNum 12), s') /\
    get_prop Blog.env 0 "numBeforeCoercion" s' = (Ok (VStr "12"), s').
Proof.
  destruct (attr_set_then_get Blog.env 0 Blog.BasicModel "num"
              (fun v => Ok (RynoAttrs.NumberAttr_coerce parse_decimal v)) VUndef
              (VStr "12") (VNum 12) (run_from empty_state (alloc Blog.BasicModel))
              eq_refl eq_refl eq_refl eq_refl) as (s' & H1 & H2 & H3 & _).
  exists s'. split; [exact H1|]. split; [exact H2|exact H3].
Defined.

(** ** Assigning to a [hasOne] property *)

(** [a.p = v] rejects a truthy [v] that is not an instance of the target
    class before anything is written; a falsy [v] is stored without any
    check when there is no previous partner to notify. *)
Theorem hasOne_assignment_checks_truthy_values E this c p i ct v s :
  class_of this s = Some c ->
  proto_lookup E c p = Some (PHasOne i) ->
  own_lookup this p s = None ->
  a_klass i = KFun ct ->
  (truthy v = true -> instanceof E v ct s = false ->
   set_prop E this p v s = (Throw (TypeMismatch p v), s)) /\
  (truthy v = false -> truthy (own_get this (slot p) s) = false ->
   set_prop E this p v s = (Ok tt, put_own this (slot p) v s)).
Proof.
  intros Hc Hp Hown Hk.
  assert (Hset : set_prop E this p v s = hasOneSet E this (mk_desc HasOne p i) v true s).
  { unfold set_prop. by rewrite Hc, (has_own_false _ _ _ Hown), Hp. }
  rewrite Hset. unfold hasOneSet, hasOneSet_with. simpl desc_name. split.
  - intros Ht Hi. rewrite Ht. unfold bind at 1.
    unfold checkAssociatedType. simpl. by rewrite Hk, Hi.
  - intros Hf Hprev. rewrite Hf, Hprev. unfold bind, ret, own_set.
    by destruct (inv_name (mk_desc HasOne p i)).
Qed.

Lemma hasOne_assignment_checks_truthy_values_witness :
  set_prop OneOne.env 0 "bar" (VNum 5) foo_and_bar = (Throw (TypeMismatch "bar" (VNum 5)), foo_and_bar) /\
  set_prop OneOne.env 0 "bar" (VNum 0) foo_and_bar
  = (Ok tt, put_own 0 (slot "bar") (VNum 0) foo_and_bar).
Proof.
  destruct (hasOne_assignment_checks_truthy_values OneOne.env 0 OneOne.Foo "bar"
              {| a_klass := KFun OneOne.Bar; a_inverse := Some "foo" |} OneOne.Bar
              (VNum 5) foo_and_bar eq_refl eq_refl eq_refl eq_refl) as [H1 _].
  destruct (hasOne_assignment_checks_truthy_values OneOne.env 0 OneOne.Foo "bar"
              {| a_klass := KFun OneOne.Bar; a_inverse := Some "foo" |} OneOne.Bar
              (VNum 0) foo_and_bar eq_refl eq_refl eq_refl eq_refl) as [_ H2].
  split; [exact (H1 eq_refl eq_refl)|exact (H2 eq_refl eq_refl)].
Defined.

(** When the [inverse] option names no association of the partner's class,
    [a.p = b] stores [b] and then raises: the assignment is not undone.
    When it names a member of [Object.prototype], which [associations]
    inherits, the partner is not notified and nothing is raised. *)
Theorem hasOne_inverse_that_names_no_association E this c p i b cb inv s :
  class_of this s = Some c ->
  proto_lookup E c p = Some (PHasOne i) ->
  own_lookup this p s = None ->
  class_of b s = Some cb ->
  inv_name (mk_desc HasOne p i) = Some inv ->
  fst (checkAssociatedType E this (mk_desc HasOne p i) (VModel b) s) = Ok tt ->
  truthy (own_get this (slot p) s) = false ->
  (associations E cb inv = ANone ->
   set_prop E this p (VModel b) s
   = (Throw (UnknownAssociation inv), put_own this (slot p) (VModel b) s)) /\
  (associations E cb inv = AForeign ->
   set_prop E this p (VModel b) s = (Ok tt, put_own this (slot p) (VModel b) s)).
Proof.
  intros Hc Hp Hown Hcb Hinv Hchk Hprev.
  assert (Hrun : set_prop E this p (VModel b) s
                 = inverseAdded E (VModel b) inv (VModel this)
                     (put_own this (slot p) (VModel b) s)).
  { unfold set_prop. rewrite Hc, (has_own_false _ _ _ Hown), Hp.
    unfold hasOneSet, hasOneSet_with. rewrite Hinv. simpl desc_name. rewrite Hprev.
    simpl truthy. cbv iota.
    unfold bind at 1.
    destruct (checkAssociatedType E this (mk_desc HasOne p i) (VModel b) s)
      as [res s0] eqn:Hc0.
    pose proof (checkAssociatedType_state _ _ _ _ _ _ _ Hc0) as ->.
    simpl in Hchk. subst res.
    unfold bind, own_set, ret. reflexivity. }
  rewrite Hrun. unfold inverseAdded. rewrite class_of_put_own, Hcb.
  split; intros ->; reflexivity.
Qed.

Lemma hasOne_inverse_that_names_no_association_witness :
  let E := Model_hasOne 0 "bar" (KFun (Sub 1)) (Some "owner")
             (fst (define_class "Bar" ModelClass (fst (define_class "Foo" ModelClass empty_env)))) in
  set_prop E 0 "bar" (VModel 1) foo_and_bar
  = (Throw (UnknownAssociation "owner"), put_own 0 (slot "bar") (VModel 1) foo_and_bar).
Proof.
  cbv zeta.
  destruct (hasOne_inverse_that_names_no_association
              (Model_hasOne 0 "bar" (KFun (Sub 1)) (Some "owner")
                 (fst (define_class "Bar" ModelClass
                         (fst (define_class "Foo" ModelClass empty_env)))))
              0 (Sub 0) "bar" {| a_klass := KFun (Sub 1); a_inverse := Some "owner" |}
              1 (Sub 1) "owner" foo_and_bar eq_refl eq_refl eq_refl eq_refl eq_refl eq_refl
              eq_refl) as [H _].
  apply H. reflexivity.
Defined.

(** ** What a [hasOne] assignment leaves alone *)

Lemma inverseAdded_unchanged E r inv m s res s' :
  inverseAdded E (VModel r) inv m s = (res, s') ->
  unchanged_except r (slot inv) s s'.
Proof.
  intros H.
  assert (Hk : keeps (fun r' => class_of r' s) (fun im => im = idmap s)
                 (fun r' k => r' <> r \/ k <> slot inv)
                 (fun r' k => own_lookup r' k s) s').
  { eapply (preserves_inverseAdded_at E); [|exact H|by repeat split]. tauto. }
  destruct Hk as (? & ? & ?). by repeat split.
Qed.

(** The state in which the inverse side is left differs from the one in
    which it is called in the slot [inv] of the instance called, at most. *)
Lemma inverse_call_frame E (f : class_env -> value -> string -> value -> M unit) this inv m s res s' :
  f = inverseRemoved \/ f = inverseAdded ->
  f E this inv m s = (res, s') ->
  (forall r, class_of r s' = class_of r s) /\
  idmap s' = idmap s /\
  forall r k, VModel r <> this \/ k <> slot inv -> own_lookup r k s' = own_lookup r k s.
Proof.
  intros Hf H.
  destruct this as [| | | | | |r0| | |];
    try (destruct Hf as [-> | ->]; simpl in H; unfold throw in H; inversion H; subst;
         by repeat split).
  assert (Hu : unchanged_except r0 (slot inv) s s').
  { destruct Hf as [-> | ->];
      [eapply inverseRemoved_unchanged|eapply inverseAdded_unchanged]; exact H. }
  destruct Hu as (Hc & Hi & Hl). split; [done|]. split; [done|].
  intros r k Hne. apply Hl. destruct Hne as [Hne | Hne]; [left|by right]. congruence.
Qed.

(** An assignment to a [hasOne] property, however it ends, changes the slot
    of the owner and, when the association has an inverse, the inverse slot
    of the previous and of the new partner, and nothing else: the classes,
    the identity map and every other property are what they were.  The
    previous partner of the new partner, in particular, still refers to
    it. *)
Theorem hasOne_assignment_touches_three_slots E a d v sync s res s' :
  hasOneSet E a d v sync s = (res, s') ->
  (forall r, class_of r s' = class_of r s) /\
  idmap s' = idmap s /\
  forall r k,
    r <> a \/ k <> slot (desc_name d) ->
    (forall inv, inv_name d = Some inv -> k = slot inv ->
       VModel r <> own_get a (slot (desc_name d)) s /\ VModel r <> v) ->
    own_lookup r k s' = own_lookup r k s.
Proof.
  unfold hasOneSet, hasOneSet_with. intros H.
  set (name := desc_name d) in *. set (prev := own_get a (slot name) s) in *.
  unfold bind at 1 in H.
  destruct ((if truthy v then checkAssociatedType E a d v else ret tt) s) as [r0 s0] eqn:Hchk.
  assert (s0 = s) as ->.
  { destruct (truthy v); [by apply checkAssociatedType_state in Hchk|].
    unfold ret in Hchk. by inversion Hchk. }
  destruct r0 as [[]|e]; [|inversion H; subst; by repeat split].
  unfold bind at 1 in H. unfold own_set at 1 in H.
  set (s1 := put_own a (slot name) v s) in *.
  assert (F1 : (forall r, class_of r s1 = class_of r s) /\ idmap s1 = idmap s /\
               forall r k, r <> a \/ k <> slot name -> own_lookup r k s1 = own_lookup r k s).
  { split; [intros r; apply class_of_put_own|]. split; [reflexivity|].
    intros r k Hne. by apply own_lookup_put_own_ne. }
  destruct F1 as (Hc1 & Hi1 & Hl1).
  destruct (inv_name d) as [inv|] eqn:Hinv.
  - unfold bind at 1 in H.
    destruct ((if sync && truthy prev then inverseRemoved E prev inv (VModel a) else ret tt) s1)
      as [r2 s2] eqn:Hrem.
    assert (F2 : (forall r, class_of r s2 = class_of r s1) /\ idmap s2 = idmap s1 /\
                 forall r k, VModel r <> prev \/ k <> slot inv ->
                   own_lookup r k s2 = own_lookup r k s1).
    { destruct (sync && truthy prev).
      - eapply (inverse_call_frame E inverseRemoved); [by left|exact Hrem].
      - unfold ret in Hrem. inversion Hrem; subst. by repeat split. }
    destruct F2 as (Hc2 & Hi2 & Hl2).
    assert (F3 : (forall r, class_of r s' = class_of r s2) /\ idmap s' = idmap s2 /\
                 forall r k, VModel r <> v \/ k <> slot inv ->
                   own_lookup r k s' = own_lookup r k s2).
    { destruct r2 as [[]|e]; [|inversion H; subst; by repeat split].
      destruct (sync && truthy v).
      - eapply (inverse_call_frame E inverseAdded); [by right|exact H].
      - unfold ret in H. inversion H; subst. by repeat split. }
    destruct F3 as (Hc3 & Hi3 & Hl3).
    split; [intros r; by rewrite Hc3, Hc2, Hc1|]. split; [by rewrite Hi3, Hi2, Hi1|].
    intros r k Hne Hk.
    assert (Hside : (VModel r <> prev /\ VModel r <> v) \/ k <> slot inv).
    { destruct (decide (k = slot inv)) as [Heq | Hneq]; [left|by right].
      by apply (Hk inv). }
    rewrite Hl3, Hl2, Hl1; [done|done| |]; destruct Hside as [[? ?] | ?]; auto.
  - unfold bind, ret in H. inversion H; subst.
    split; [done|]. split; [done|]. intros r k Hne _. by apply Hl1.
Qed.

(** [a0.bar = b; a.bar = b] with the classes of [OneOne]: [b.foo] is [a]
    and [a0.bar] still is [b]. *)
Lemma hasOne_assignment_touches_three_slots_witness :
  let s0 := run_from empty_state
              (run alloc OneOne.Foo; run alloc OneOne.Bar; run alloc OneOne.Foo;
               hasOneSet OneOne.env 2 OneOne.bar (VModel 1) true) in
  let s1 := run_from s0 (hasOneSet OneOne.env 0 OneOne.bar (VModel 1) true) in
  own_get 2 (slot "bar") s0 = VModel 1 /\
  own_get 1 (slot "foo") s1 = VModel 0 /\
  own_lookup 2 (slot "bar") s1 = own_lookup 2 (slot "bar") s0.
Proof.
  cbv zeta. split; [reflexivity|]. split; [reflexivity|].
  set (s0 := run_from empty_state
               (run alloc OneOne.Foo; run alloc OneOne.Bar; run alloc OneOne.Foo;
                hasOneSet OneOne.env 2 OneOne.bar (VModel 1) true)).
  destruct (hasOne_assignment_touches_three_slots OneOne.env 0 OneOne.bar (VModel 1) true s0
              (fst (hasOneSet OneOne.env 0 OneOne.bar (VModel 1) true s0))
              (run_from s0 (hasOneSet OneOne.env 0 OneOne.bar (VModel 1) true)))
    as (_ & _ & H).
  - unfold run_from. by destruct (hasOneSet OneOne.env 0 OneOne.bar (VModel 1) true s0).
  - apply H.
    + left. discriminate.
    + intros inv Hinv Hk. apply slot_inj in Hk. subst inv. discriminate.
Defined.

(** ** The generated [add] and [remove] methods *)

(** Reading a [hasMany] property whose slot holds an array or a falsy
    value. *)
Lemma read_array_total this c name s :
  class_of this s = Some c ->
  truthy (own_get this (slot name) s) = false \/ (exists l, own_get this (slot name) s = VArr l) ->
  exists s0,
    read_array this name s = (Ok (collection this name s), s0) /\
    own_get this (slot name) s0 = VArr (collection this name s) /\
    unchanged_except this (slot name) s s0.
Proof.
  intros Hc [Hf | [l Hl]].
  - exists (put_own this (slot name) (VArr []) s).
    unfold read_array, bind, hasMany_get, collection. rewrite Hf.
    unfold own_set, ret. simpl.
    assert (Hcoll : match own_get this (slot name) s with VArr l => l | _ => [] end = []).
    { destruct (own_get this (slot name) s); try done. }
    rewrite Hcoll. split; [done|]. split; [by apply (own_get_put_own_eq _ _ _ _ c)|].
    apply unchanged_except_put_own.
  - exists s. rewrite (read_array_array _ _ _ _ Hl). unfold collection. rewrite Hl.
    split; [done|]. split; [done|]. apply unchanged_except_refl.
Qed.

(** The loop of [hasManyAdd] on an association without inverse, up to the
    first model that the type check rejects. *)
Lemma hasManyAdd_loop_stops E g this c d good bad rest e : forall l s,
  class_of this s = Some c ->
  inv_name d = None ->
  own_get this (slot (desc_name d)) s = VArr l ->
  (forall m, m ∈ good -> fst (checkAssociatedType E this d m s) = Ok tt) ->
  fst (checkAssociatedType E this d bad s) = Throw e ->
  exists s',
    for_each (good ++ bad :: rest) (fun m =>
      run checkAssociatedType E this d m;
      run (match inv_name d with
           | Some inv => if true then g m inv (VModel this) else ret tt
           | None => ret tt
           end);
      do l <- read_array this (desc_name d);
      own_set this (slot (desc_name d)) (VArr (l ++ [m]))) s
    = (Throw e, s') /\
    own_get this (slot (desc_name d)) s' = VArr (l ++ good) /\
    unchanged_except this (slot (desc_name d)) s s'.
Proof.
  induction good as [|m good IH]; intros l s Hc Hinv Hl Hgood Hbad.
  - exists s. simpl. unfold bind at 1. unfold bind at 1.
    destruct (checkAssociatedType E this d bad s) as [res s0] eqn:Hchk.
    pose proof (checkAssociatedType_state _ _ _ _ _ _ _ Hchk) as ->.
    simpl in Hbad. subst res. rewrite app_nil_r.
    split; [done|]. split; [done|]. apply unchanged_except_refl.
  - set (s1 := put_own this (slot (desc_name d)) (VArr (l ++ [m])) s).
    assert (Hcls : forall r, class_of r s1 = class_of r s)
      by (intros r; apply class_of_put_own).
    destruct (IH (l ++ [m]) s1) as (s' & Hrun & Hget & Hun).
    + by rewrite Hcls.
    + done.
    + by apply (own_get_put_own_eq _ _ _ _ c).
    + intros x Hx. rewrite (checkAssociatedType_classes E this d x s s1 Hcls).
      apply Hgood. by right.
    + by rewrite (checkAssociatedType_classes E this d bad s s1 Hcls).
    + exists s'. split; [|split].
      * simpl. unfold bind at 1. unfold bind at 1.
        destruct (checkAssociatedType E this d m s) as [res s0] eqn:Hchk.
        pose proof (checkAssociatedType_state _ _ _ _ _ _ _ Hchk) as ->.
        assert (Hm : res = Ok tt).
        { specialize (Hgood m). rewrite Hchk in Hgood. apply Hgood. by left. }
        subst res. rewrite Hinv. unfold bind at 1. unfold ret at 1.
        unfold bind at 1. rewrite (read_array_array _ _ _ _ Hl).
        unfold own_set at 1. fold s1. rewrite Hinv in Hrun. exact Hrun.
      * rewrite Hget. by rewrite <- app_assoc.
      * eapply unchanged_except_trans; [apply unchanged_except_put_own|exact Hun].
Qed.

(** [add<Name>] stops at the first argument that is not an instance of the
    target class and keeps the models that it has added before. *)
Theorem hasMany_add_keeps_the_models_before_a_rejected_one
    E this c d good bad rest e s :
  class_of this s = Some c ->
  inv_name d = None ->
  truthy (own_get this (slot (desc_name d)) s) = false
    \/ (exists l, own_get this (slot (desc_name d)) s = VArr l) ->
  (forall m, m ∈ good -> fst (checkAssociatedType E this d m s) = Ok tt) ->
  fst (checkAssociatedType E this d bad s) = Throw e ->
  exists s',
    generated_add E this d (good ++ bad :: rest) s = (Throw e, s') /\
    own_get this (slot (desc_name d)) s' = VArr (collection this (desc_name d) s ++ good) /\
    unchanged_except this (slot (desc_name d)) s s'.
Proof.
  intros Hc Hinv Hslot Hgood Hbad.
  destruct (read_array_total this c (desc_name d) s Hc Hslot) as (s0 & Hr & Hv & Hu).
  assert (Hcls : forall r, class_of r s0 = class_of r s) by apply Hu.
  destruct (hasManyAdd_loop_stops E (inverseAdded E) this c d good bad rest e
              (collection this (desc_name d) s) s0) as (s' & Hrun & Hget & Hun).
  - by rewrite Hcls.
  - done.
  - done.
  - intros m Hm. rewrite (checkAssociatedType_classes E this d m s s0 Hcls). by apply Hgood.
  - by rewrite (checkAssociatedType_classes E this d bad s s0 Hcls).
  - exists s'. split; [|split; [done|]].
    + unfold generated_add, hasManyAdd, hasManyAdd_with. unfold bind at 1. rewrite Hr.
      exact Hrun.
    + eapply unchanged_except_trans; [exact Hu|exact Hun].
Qed.

Lemma hasMany_add_keeps_the_models_before_a_rejected_one_witness :
  let E := Model_hasMany 0 "bars" (KFun (Sub 1)) None
             (fst (define_class "Bar" ModelClass (fst (define_class "Foo" ModelClass empty_env)))) in
  let bars := mk_desc HasMany "bars" {| a_klass := KFun (Sub 1); a_inverse := None |} in
  exists s',
    generated_add E 0 bars ([VModel 1] ++ VNum 5 :: [VModel 1]) foo_and_bar
    = (Throw (TypeMismatch "bars" (VNum 5)), s') /\
    own_get 0 (slot "bars") s' = VArr [VModel 1].
Proof.
  cbv zeta.
  destruct (hasMany_add_keeps_the_models_before_a_rejected_one
              (Model_hasMany 0 "bars" (KFun (Sub 1)) None
                 (fst (define_class "Bar" ModelClass
                         (fst (define_class "Foo" ModelClass empty_env)))))
              0 (Sub 0)
              (mk_desc HasMany "bars" {| a_klass := KFun (Sub 1); a_inverse := None |})
              [VModel 1] (VNum 5) [VModel 1] (TypeMismatch "bars" (VNum 5)) foo_and_bar)
    as (s' & H1 & H2 & _).
  - reflexivity.
  - reflexivity.
  - left. reflexivity.
  - intros m Hm. apply list_elem_of_singleton in Hm. subst m. reflexivity.
  - reflexivity.
  - exists s'. split; [exact H1|exact H2].
Defined.

(** [remove<Name>] of models that the collection does not hold changes
    nothing and notifies nobody. *)
Theorem hasMany_remove_of_absent_models E this c d ms sync s :
  class_of this s = Some c ->
  truthy (own_get this (slot (desc_name d)) s) = false
    \/ (exists l, own_get this (slot (desc_name d)) s = VArr l) ->
  (forall m, m ∈ ms -> index_of m (collection this (desc_name d) s) = None) ->
  exists s',
    hasManyRemove E this d ms sync s = (Ok tt, s') /\
    own_get this (slot (desc_name d)) s' = VArr (collection this (desc_name d) s) /\
    unchanged_except this (slot (desc_name d)) s s'.
Proof.
  intros Hc Hslot Habs.
  destruct (read_array_total this c (desc_name d) s Hc Hslot) as (s0 & Hr & Hv & Hu).
  exists s0. split; [|by split].
  unfold hasManyRemove, hasManyRemove_with. unfold bind at 1. rewrite Hr.
  clear Hr Hu Hslot Hc.
  induction ms as [|m ms IH]; [reflexivity|].
  simpl. unfold bind at 1. unfold bind at 1.
  rewrite (read_array_array _ _ _ _ Hv).
  rewrite (Habs m) by by left. unfold ret at 1.
  apply IH. intros x Hx. apply Habs. by right.
Qed.

Lemma hasMany_remove_of_absent_models_witness :
  exists s',
    hasManyRemove ManyMany.env 0 ManyMany.bars [VModel 1] true foo_and_bar = (Ok tt, s') /\
    own_get 0 (slot "bars") s' = VArr [] /\
    own_get 1 (slot "foos") s' = VUndef.
Proof.
  destruct (hasMany_remove_of_absent_models ManyMany.env 0 ManyMany.Foo ManyMany.bars
              [VModel 1] true foo_and_bar) as (s' & H1 & H2 & H3).
  - reflexivity.
  - left. reflexivity.
  - intros m Hm. apply list_elem_of_singleton in Hm. subst m. reflexivity.
  - exists s'. split; [exact H1|]. split; [exact H2|].
    rewrite (own_get_unchanged _ _ _ _ 1 (slot "foos") H3) by (left; discriminate).
    reflexivity.
Defined.

(** [f.bars = [b, 5]] with the classes of [ManyMany]. *)
Lemma hasManySet_rejects_before_writing_witness :
  exists e,
    hasManySet ManyMany.env 0 ManyMany.bars (VArr [VModel 1; VNum 5]) foo_and_bar
    = (Throw e, snd (hasMany_get 0 "bars" foo_and_bar)).
Proof.
  apply (hasManySet_rejects_before_writing ManyMany.env 0 ManyMany.bars
           (VArr [VModel 1; VNum 5]) [VModel 1; VNum 5] (VNum 5) foo_and_bar).
  - reflexivity.
  - right. left.
  - discriminate.
Defined.

(** ** [clear<Name>] on a one-to-many association *)












(** ** Assigning to a [hasMany] property of a one-to-many association *)












(** ** [Model.load] on payloads of attributes *)



Lemma has_prop_unknown E r c k s :
  class_of r s = Some c -> own_lookup r k s = None -> proto_lookup E c k = None ->
  has_prop E r k s = false.
Proof.
  intros Hc Ho Hp. unfold has_prop. rewrite (has_own_false _ _ _ Ho), Hc, Hp. reflexivity.
Qed.

Lemma has_prop_known E r c k p s :
  class_of r s = Some c -> proto_lookup E c k = Some p -> has_prop E r k s = true.
Proof.
  intros Hc Hp. unfold has_prop. rewrite Hc, Hp.
  rewrite (bool_decide_eq_true_2 (is_Some (Some p))) by eauto. apply orb_true_r.
Qed.

(** The first loop of [load] and of the constructor on such a payload. *)
Lemma assign_known_attributes E r c attrs : forall s,
  class_of r s = Some c ->
  (forall k, private_key k = false -> own_lookup r k s = None) ->
  attribute_payload E c attrs ->
  exists s',
    assign_known E r attrs s = (Ok tt, s') /\
    (forall r', class_of r' s' = class_of r' s) /\
    idmap s' = idmap s /\
    (forall k, private_key k = false -> own_lookup r k s' = None) /\
    (forall r' k',
       r' <> r \/ (forall k v, (k, v) ∈ attrs -> k' <> slot k /\ k' <> k +:+ "BeforeCoercion") ->
       own_lookup r' k' s' = own_lookup r' k' s).
Proof.
  induction attrs as [|[k v] attrs IH]; intros s Hc Hpub Hattrs.
  - exists s. by repeat split.
  - destruct (Hattrs k v) as [Hk Hcase]; [by left|].
    assert (Hrest : attribute_payload E c attrs).
    { intros k' v' Hin. apply Hattrs. by right. }
    unfold assign_known in *. simpl for_each. unfold bind at 1. simpl fst. simpl snd.
    destruct Hcase as [Hnone | (coerce & def & v' & Hp & Hv)].
    + rewrite (has_prop_unknown E r c k s Hc (Hpub k Hk) Hnone).
      destruct (IH s Hc Hpub Hrest) as (s' & Hrun & Hcl & Him & Hpub' & Hfr).
      exists s'. split; [exact Hrun|]. split; [done|]. split; [done|]. split; [done|].
      intros r' k' Hne. apply Hfr. destruct Hne as [Hne | Hne]; [by left|right].
      intros k0 v0 Hin. apply (Hne k0 v0). by right.
    + rewrite (has_prop_known E r c k _ s Hc Hp).
      unfold set_prop. rewrite Hc, (has_own_false _ _ _ (Hpub k Hk)), Hp, Hv.
      unfold bind at 1. unfold own_set at 1. unfold own_set at 1.
      set (s1 := put_own r (k +:+ "BeforeCoercion") v (put_own r (slot k) v' s)).
      assert (Hcl1 : forall r', class_of r' s1 = class_of r' s).
      { intros r'. unfold s1. by rewrite !class_of_put_own. }
      destruct (IH s1) as (s' & Hrun & Hcl & Him & Hpub' & Hfr).
      * by rewrite Hcl1.
      * intros k0 Hk0. unfold s1. rewrite !own_lookup_put_own_ne; [by apply Hpub| |].
        -- right. by apply public_ne_slot.
        -- right. by apply public_ne_shadow.
      * exact Hrest.
      * exists s'. split; [exact Hrun|]. split; [|split; [by rewrite Him|split; [done|]]].
        -- intros r'. by rewrite Hcl, Hcl1.
        -- intros r' k' Hne. rewrite Hfr.
           ++ unfold s1. rewrite !own_lookup_put_own_ne; [done| |].
              ** destruct Hne as [Hne | Hne]; [by left|right].
                 destruct (Hne k v) as [H1 _]; [by left|done].
              ** destruct Hne as [Hne | Hne]; [by left|right].
                 destruct (Hne k v) as [_ H2]; [by left|done].
           ++ destruct Hne as [Hne | Hne]; [by left|right].
              intros k0 v0 Hin. apply (Hne k0 v0). by right.
Qed.

Lemma id_slot_untouched (attrs : list (string * value)) k' :
  k' = "__id__" \/ k' = "id" ->
  (forall k v, (k, v) ∈ attrs -> k <> "id" /\ private_key k = false) ->
  forall k v, (k, v) ∈ attrs -> k' <> slot k /\ k' <> k +:+ "BeforeCoercion".
Proof.
  intros Hk' Hkeys k v Hin. destruct (Hkeys k v Hin) as [Hne Hpub].
  destruct Hk' as [-> | ->]; split.
  - intros Hs. by apply (slot_inj "id" k) in Hs.
  - intros Hs. exact (slot_ne_shadow "id" k Hs).
  - exact (public_ne_slot "id" k eq_refl).
  - exact (public_ne_shadow "id" k eq_refl).
Qed.

Lemma attribute_payload_keys E c attrs :
  attribute_payload E c (obj_delete "id" attrs) ->
  forall k v, (k, v) ∈ obj_delete "id" attrs -> k <> "id" /\ private_key k = false.
Proof.
  intros Hattrs k v Hin. split.
  - by apply obj_delete_elem in Hin as [_ Hne].
  - by destruct (Hattrs k v Hin).
Qed.

(** What [load] does once the attributes are assigned, on an instance
    without an id. *)
Lemma load_tail_new E r c id t :
  class_of r t = Some c ->
  own_lookup r "id" t = None ->
  own_lookup r "__id__" t = None ->
  proto_lookup E c "id" = Some PId ->
  (do mid <- get_prop E r "id";
   run (if strict_eq mid VUndef then set_prop E r "id" id else ret tt);
   run own_set r "__sourceState__" LOADED;
   run own_set r "__isBusy__" (VBool false);
   ret r) t
  = (Ok r,
     put_own r "__isBusy__" (VBool false)
       (put_own r "__sourceState__" LOADED
          {| heap := heap (put_own r "__id__" id t); idmap := (c, id, r) :: idmap t |})).
Proof.
  intros Hc Ho Hi Hid. unfold bind at 1.
  rewrite (get_prop_id E r c t Hc Ho Hid).
  unfold own_get at 1. rewrite Hi. simpl strict_eq. cbv iota.
  unfold bind at 1. rewrite (set_prop_id E r c id t Hc Ho Hid).
  unfold set_id, own_get. rewrite Hi. simpl.
  unfold bind, own_set, IdMap_insert, ret.
  rewrite class_of_put_own, Hc.
  fold (own_get r "__id__" (put_own r "__id__" id t)).
  by rewrite (own_get_put_own_eq _ _ _ _ c Hc).
Qed.

(** [load] of a payload of attributes whose id is not in the identity map:
    the call returns a new instance of the class, registered under the id,
    in the [loaded] state and not busy; the instances that existed are left
    alone. *)
Theorem load_creates_a_registered_instance E c attrs s :
  truthy (obj_get attrs "id") = true ->
  same_value_zero (obj_get attrs "id") (obj_get attrs "id") = true ->
  proto_lookup E c "id" = Some PId ->
  attribute_payload E c (obj_delete "id" attrs) ->
  IdMap_get c (obj_get attrs "id") s = None ->
  exists s',
    Model_load E c attrs s = (Ok (length (heap s)), s') /\
    class_of (length (heap s)) s' = Some c /\
    IdMap_get c (obj_get attrs "id") s' = Some (length (heap s)) /\
    own_get (length (heap s)) "__id__" s' = obj_get attrs "id" /\
    own_get (length (heap s)) "__sourceState__" s' = LOADED /\
    own_get (length (heap s)) "__isBusy__" s' = VBool false /\
    forall r k, r < length (heap s) ->
      class_of r s' = class_of r s /\ own_lookup r k s' = own_lookup r k s.
Proof.
  intros Ht Hrefl Hid Hattrs Hget.
  rewrite (Model_load_unfold E c attrs s Ht), Hget.
  set (id := obj_get attrs "id") in *.
  set (r := length (heap s)).
  set (sa := snd (alloc c s)).
  assert (Hca : class_of r sa = Some c).
  { unfold class_of, sa, alloc, r. simpl. by rewrite list_lookup_middle. }
  assert (Hempty : forall k, own_lookup r k sa = None).
  { intros k. unfold own_lookup, sa, alloc, r. simpl. by rewrite list_lookup_middle. }
  assert (Hold : forall r' k, r' < r ->
            class_of r' sa = class_of r' s /\ own_lookup r' k sa = own_lookup r' k s).
  { intros r' k Hlt. unfold class_of, own_lookup, sa, alloc. simpl.
    by rewrite lookup_app_l by exact Hlt. }
  destruct (assign_known_attributes E r c (obj_delete "id" attrs) sa Hca)
    as (t & Hrun & Hcl & Him & Hpub & Hfr); [by intros|done|].
  pose proof (attribute_payload_keys E c attrs Hattrs) as Hkeys.
  assert (Hct : class_of r t = Some c) by (by rewrite Hcl).
  assert (Hot : own_lookup r "id" t = None) by (by apply Hpub).
  assert (Hit : own_lookup r "__id__" t = None).
  { rewrite Hfr; [apply Hempty|]. right. apply id_slot_untouched; auto. }
  eexists. split.
  { unfold load_into. unfold bind at 1. rewrite Hrun.
    apply (load_tail_new E r c id t Hct Hot Hit Hid). }
  set (t1 := {| heap := heap (put_own r "__id__" id t); idmap := (c, id, r) :: idmap t |}).
  assert (Hc1 : class_of r t1 = Some c).
  { change (class_of r (put_own r "__id__" id t) = Some c). by rewrite class_of_put_own. }
  assert (Hid1 : own_get r "__id__" t1 = id).
  { change (own_get r "__id__" (put_own r "__id__" id t) = id).
    by apply (own_get_put_own_eq _ _ _ _ c). }
  split; [by rewrite !class_of_put_own|].
  split; [unfold IdMap_get; simpl; by apply idmap_find_head|].
  split; [by rewrite !own_get_put_own_ne by (right; discriminate)|].
  split.
  { rewrite own_get_put_own_ne by (right; discriminate).
    apply (own_get_put_own_eq _ _ _ _ c). exact Hc1. }
  split.
  { apply (own_get_put_own_eq _ _ _ _ c). by rewrite class_of_put_own. }
  intros r' k Hlt. destruct (Hold r' k Hlt) as [Ho1 Ho2].
  assert (Hne : r' <> r) by (unfold r; lia).
  split.
  - rewrite !class_of_put_own.
    change (class_of r' (put_own r "__id__" id t) = class_of r' s).
    by rewrite class_of_put_own, Hcl.
  - rewrite !own_lookup_put_own_ne by by left.
    change (own_lookup r' k (put_own r "__id__" id t) = own_lookup r' k s).
    rewrite own_lookup_put_own_ne by by left.
    rewrite Hfr by by left. exact Ho2.
Qed.

(** [load] of a payload of attributes whose id is in the identity map: the
    call returns the registered instance, which keeps its id, and leaves it
    in the [loaded] state and not busy; nothing is registered and the other
    instances are left alone. *)
Theorem load_updates_the_registered_instance E c attrs r s :
  truthy (obj_get attrs "id") = true ->
  proto_lookup E c "id" = Some PId ->
  attribute_payload E c (obj_delete "id" attrs) ->
  IdMap_get c (obj_get attrs "id") s = Some r ->
  class_of r s = Some c ->
  (forall k, private_key k = false -> own_lookup r k s = None) ->
  strict_eq (own_get r "__id__" s) VUndef = false ->
  exists s',
    Model_load E c attrs s = (Ok r, s') /\
    own_get r "__id__" s' = own_get r "__id__" s /\
    own_get r "__sourceState__" s' = LOADED /\
    own_get r "__isBusy__" s' = VBool false /\
    idmap s' = idmap s /\
    length (heap s') = length (heap s) /\
    forall r' k, r' <> r ->
      class_of r' s' = class_of r' s /\ own_lookup r' k s' = own_lookup r' k s.
Proof.
  intros Ht Hid Hattrs Hget Hc Hpub0 Hhas.
  rewrite (Model_load_unfold E c attrs s Ht), Hget.
  destruct (assign_known_attributes E r c (obj_delete "id" attrs) s Hc Hpub0 Hattrs)
    as (t & Hrun & Hcl & Him & Hpub & Hfr).
  pose proof (attribute_payload_keys E c attrs Hattrs) as Hkeys.
  assert (Hct : class_of r t = Some c) by (by rewrite Hcl).
  assert (Hot : own_lookup r "id" t = None) by (by apply Hpub).
  assert (Hit : own_get r "__id__" t = own_get r "__id__" s).
  { unfold own_get. rewrite Hfr; [done|]. right. apply id_slot_untouched; auto. }
  assert (Hlen : length (heap t) = length (heap s)).
  { clear -Hcl. unfold class_of in Hcl.
    destruct (Nat.lt_trichotomy (length (heap t)) (length (heap s))) as [H|[H|H]]; [|done|].
    - specialize (Hcl (length (heap t))).
      rewrite (lookup_ge_None_2 (heap t)) in Hcl by lia.
      destruct (lookup_lt_is_Some_2 (heap s) _ H) as [x Hx]. by rewrite Hx in Hcl.
    - specialize (Hcl (length (heap s))).
      rewrite (lookup_ge_None_2 (heap s)) in Hcl by lia.
      destruct (lookup_lt_is_Some_2 (heap t) _ H) as [x Hx]. by rewrite Hx in Hcl. }
  exists (put_own r "__isBusy__" (VBool false) (put_own r "__sourceState__" LOADED t)).
  split.
  { unfold load_into. unfold bind at 1. rewrite Hrun.
    unfold bind at 1. rewrite (get_prop_id E r c t Hct Hot Hid).
    rewrite Hit, Hhas. reflexivity. }
  split; [by rewrite !own_get_put_own_ne by (right; discriminate)|].
  split.
  { rewrite own_get_put_own_ne by (right; discriminate).
    by apply (own_get_put_own_eq _ _ _ _ c). }
  split; [apply (own_get_put_own_eq _ _ _ _ c); by rewrite class_of_put_own|].
  split; [by rewrite !idmap_put_own|].
  split; [by rewrite !heap_length_put_own|].
  intros r' k Hne. split.
  - by rewrite !class_of_put_own.
  - rewrite !own_lookup_put_own_ne by by left. apply Hfr. by left.
Qed.

(** ** [Model.empty] and [Model.local] *)

Lemma alter_last {A} (f : A -> A) (l : list A) (x : A) :
  alter f (length l) (l ++ [x]) = l ++ [f x].
Proof. rewrite alter_app_r_alt by lia. by rewrite Nat.sub_diag. Qed.

(** [empty(id)] creates an instance that holds the id and the [empty] source
    state, and registers it. *)
Lemma Model_empty_run E c id s :
  proto_lookup E c "id" = Some PId ->
  Model_empty E c id s
  = (Ok (length (heap s)),
     {| heap := heap s ++ [ {| i_class := c;
                               i_own := <["__sourceState__" := EMPTY]> (<["__id__" := id]> ∅) |} ];
        idmap := (c, id, length (heap s)) :: idmap s |}).
Proof.
  intros Hid. unfold Model_empty, Model_new. unfold bind at 1. unfold bind at 1.
  unfold alloc at 1.
  set (r := length (heap s)).
  set (sa := {| heap := heap s ++ [ {| i_class := c; i_own := ∅ |} ]; idmap := idmap s |}).
  assert (Hca : class_of r sa = Some c).
  { unfold class_of, sa, r. simpl. by rewrite list_lookup_middle. }
  assert (Hempty : forall k, own_lookup r k sa = None).
  { intros k. unfold own_lookup, sa, r. simpl. by rewrite list_lookup_middle. }
  unfold bind at 1. unfold assign_known. simpl for_each. unfold bind at 1.
  simpl fst. simpl snd.
  rewrite (has_prop_known E r c "id" PId sa Hca Hid).
  rewrite (set_prop_id E r c id sa Hca (Hempty "id") Hid).
  unfold set_id, own_get. rewrite Hempty. simpl.
  unfold bind, own_set, IdMap_insert, ret.
  rewrite class_of_put_own, Hca.
  fold (own_get r "__id__" (put_own r "__id__" id sa)).
  rewrite (own_get_put_own_eq _ _ _ _ c Hca).
  unfold put_own, sa, r. simpl. rewrite !alter_last. reflexivity.
Qed.

(** [local(id)] answers with the instance registered under the id and
    changes nothing; when there is none it creates an empty one, registers
    it, and answers with that one from then on. *)
Theorem local_creates_one_instance_per_id E c id s :
  proto_lookup E c "id" = Some PId ->
  same_value_zero id id = true ->
  exists r s1,
    Model_local E c id s = (Ok r, s1) /\
    Model_local E c id s1 = (Ok r, s1) /\
    match IdMap_get c id s with
    | Some r0 => r = r0 /\ s1 = s
    | None =>
        r = length (heap s) /\
        class_of r s1 = Some c /\
        own_get r "__id__" s1 = id /\
        own_get r "__sourceState__" s1 = EMPTY /\
        forall r' k, r' < length (heap s) ->
          class_of r' s1 = class_of r' s /\ own_lookup r' k s1 = own_lookup r' k s
    end.
Proof.
  intros Hid Hrefl. unfold Model_local.
  destruct (IdMap_get c id s) as [r0|] eqn:Hget.
  - exists r0, s. rewrite Hget. auto.
  - rewrite (Model_empty_run E c id s Hid).
    eexists _, _. split; [reflexivity|].
    assert (Hfound : IdMap_get c id
              {| heap := heap s ++ [ {| i_class := c;
                                        i_own := <["__sourceState__" := EMPTY]>
                                                   (<["__id__" := id]> ∅) |} ];
                 idmap := (c, id, length (heap s)) :: idmap s |} = Some (length (heap s))).
    { unfold IdMap_get. simpl. by apply idmap_find_head. }
    rewrite Hfound. split; [reflexivity|]. split; [reflexivity|].
    split; [unfold class_of; simpl; by rewrite list_lookup_middle|].
    split; [unfold own_get, own_lookup; simpl; by rewrite list_lookup_middle|].
    split; [unfold own_get, own_lookup; simpl; by rewrite list_lookup_middle|].
    intros r' k Hlt. unfold class_of, own_lookup. simpl.
    by rewrite lookup_app_l by exact Hlt.
Qed.

Lemma attribute_payload_example :
  attribute_payload Blog.env Blog.BasicModel
    (obj_delete "id" [("id", VNum 200); ("str", VStr "s1"); ("zip", VNum 1)]).
Proof.
  intros k v Hin. simpl in Hin.
  apply elem_of_cons in Hin. destruct Hin as [Heq | Hin].
  - inversion Heq; subst. split; [reflexivity|]. right.
    exists (fun v => Ok (RynoAttrs.StringAttr_coerce String_of_primitive v)), VUndef, (VStr "s1").
    split; reflexivity.
  - apply list_elem_of_singleton in Hin. inversion Hin; subst.
    split; [reflexivity|]. left. reflexivity.
Defined.

Lemma load_creates_a_registered_instance_witness :
  exists s',
    Model_load Blog.env Blog.BasicModel
      [("id", VNum 200); ("str", VStr "s1"); ("zip", VNum 1)] empty_state = (Ok 0, s') /\
    IdMap_get Blog.BasicModel (VNum 200) s' = Some 0 /\
    own_get 0 "__sourceState__" s' = LOADED.
Proof.
  destruct (load_creates_a_registered_instance Blog.env Blog.BasicModel
              [("id", VNum 200); ("str", VStr "s1"); ("zip", VNum 1)] empty_state
              eq_refl eq_refl eq_refl attribute_payload_example eq_refl)
    as (s' & H1 & _ & H2 & _ & H3 & _).
  exists s'. split; [exact H1|]. split; [exact H2|exact H3].
Defined.

Lemma local_creates_one_instance_per_id_witness :
  exists r s1,
    Model_local Blog.env Blog.BasicModel (VNum 7) empty_state = (Ok r, s1) /\
    Model_local Blog.env Blog.BasicModel (VNum 7) s1 = (Ok r, s1).
Proof.
  destruct (local_creates_one_instance_per_id Blog.env Blog.BasicModel (VNum 7) empty_state
              eq_refl eq_refl) as (r & s1 & H1 & H2 & _).
  exists r, s1. split; [exact H1|exact H2].
Defined.

(** [Model.local(7)] followed by [Model.load({id: 7, str: 's1', zip: 1})]. *)
Lemma load_updates_the_registered_instance_witness :
  let s := snd (Model_local Blog.env Blog.BasicModel (VNum 7) empty_state) in
  exists s',
    Model_load Blog.env Blog.BasicModel
      [("id", VNum 7); ("str", VStr "s1"); ("zip", VNum 1)] s = (Ok 0, s') /\
    own_get 0 "__sourceState__" s = EMPTY /\
    own_get 0 "__sourceState__" s' = LOADED /\
    own_get 0 "__id__" s' = VNum 7.
Proof.
  cbv zeta.
  destruct (load_updates_the_registered_instance Blog.env Blog.BasicModel
              [("id", VNum 7); ("str", VStr "s1"); ("zip", VNum 1)] 0
              (snd (Model_local Blog.env Blog.BasicModel (VNum 7) empty_state)))
    as (s' & H1 & H2 & H3 & _).
  - reflexivity.
  - reflexivity.
  - exact attribute_payload_example.
  - reflexivity.
  - reflexivity.
  - intros k Hk.
    change (snd (Model_local Blog.env Blog.BasicModel (VNum 7) empty_state))
      with (snd (Model_empty Blog.env Blog.BasicModel (VNum 7) empty_state)).
    rewrite (Model_empty_run Blog.env Blog.BasicModel (VNum 7) empty_state eq_refl).
    unfold own_lookup. simpl.
    rewrite lookup_insert_ne by (intros <-; discriminate).
    rewrite lookup_insert_ne by (intros <-; discriminate).
    reflexivity.
  - reflexivity.
  - exists s'. split; [exact H1|]. split; [reflexivity|]. split; [exact H3|].
    rewrite H2. reflexivity.
Defined.

(** ** [Model.registerClass] *)

(** A class registered under a name is what an association that names its
    class by that string resolves to; the table of classes is unchanged, and
    the name cannot be registered again. *)
Theorem registerClass_makes_the_name_resolve E klass nm E' :
  Model_registerClass klass (VStr nm) E = Ok E' ->
  registeredClasses E' !! nm = Some klass /\
  classes E' = classes E /\
  (forall other, exists e, Model_registerClass other (VStr nm) E' = Throw e) /\
  Model_registerClass klass (VStr nm) E' = Throw (DuplicateName nm) /\
  forall this d o s,
    desc_klass d = KName nm ->
    checkAssociatedType E' this d o s
    = if instanceof E' o klass s then (Ok tt, s) else (Throw (TypeMismatch (desc_name d) o), s).
Proof.
  intros H. unfold Model_registerClass in H.
  destruct klass as [|n]; [discriminate|].
  destruct (classes E !! n) as [kd|] eqn:Hn; [|discriminate].
  simpl in H. destruct (String.eqb nm "") eqn:Hnm; [discriminate|].
  destruct (bool_decide (is_Some (registeredClasses E !! nm)) || in_Object_prototype nm)
    eqn:Hdup; [discriminate|].
  inversion H; subst E'. clear H. simpl.
  assert (Hlook : (<[nm := Sub n]> (registeredClasses E)) !! nm = Some (Sub n))
    by apply lookup_insert_eq.
  split; [exact Hlook|]. split; [reflexivity|].
  assert (Hagain : forall m kd',
            classes E !! m = Some kd' ->
            Model_registerClass (Sub m) (VStr nm)
              {| classes := classes E; registeredClasses := <[nm := Sub n]> (registeredClasses E) |}
            = Throw (DuplicateName nm)).
  { intros m kd' Hm. unfold Model_registerClass. simpl. rewrite Hm. simpl. rewrite Hnm.
    rewrite Hlook. rewrite (bool_decide_eq_true_2 (is_Some (Some (Sub n)))) by eauto.
    reflexivity. }
  split; [|split; [by apply (Hagain n kd)|]].
  - intros [|m]; [by eexists|].
    destruct (classes E !! m) as [kd'|] eqn:Hm.
    + exists (DuplicateName nm). by apply (Hagain m kd').
    + exists NotAModelSubclass. unfold Model_registerClass. simpl. by rewrite Hm.
  - intros this d o s Hd. unfold checkAssociatedType. rewrite Hd. simpl. rewrite Hlook.
    reflexivity.
Qed.

Lemma registerClass_makes_the_name_resolve_witness :
  exists E',
    Model_registerClass (Sub 0) (VStr "Foo") OneOne.env = Ok E' /\
    registeredClasses E' !! "Foo" = Some (Sub 0) /\
    Model_registerClass (Sub 1) (VStr "Foo") E' = Throw (DuplicateName "Foo").
Proof.
  eexists. split; [reflexivity|].
  destruct (registerClass_makes_the_name_resolve OneOne.env (Sub 0) "Foo" _ eq_refl)
    as (H1 & _ & _ & _ & _).
  split; [exact H1|reflexivity].
Defined.

(** ** [Model.registerAttr] *)



(** ** Read-only properties in a payload *)



(** ** Ids that [load] does not accept *)

Lemma load_tests_the_truthiness_of_the_id E c attrs s :
  truthy (obj_get attrs "id") = false ->
  Model_load E c attrs s = (Throw MissingIdentity, s).
Proof. intros H. unfold Model_load. by rewrite H. Qed.

(** [load] tests the truthiness of the id, [local] and the id setter do
    not: [local] registers an instance under [0], the empty string, [null]
    or [false], and answers with it from then on, but every payload that
    carries such an id is rejected like one without id, so that the
    instance stays as [local] has left it. *)
Theorem falsy_id_is_registered_but_never_loaded E c id attrs s :
  proto_lookup E c "id" = Some PId ->
  same_value_zero id id = true ->
  truthy id = false ->
  obj_get attrs "id" = id ->
  exists r s1,
    Model_local E c id s = (Ok r, s1) /\
    IdMap_get c id s1 = Some r /\
    Model_load E c attrs s1 = (Throw MissingIdentity, s1).
Proof.
  intros Hid Hrefl Hf Hattrs.
  assert (Hload : forall s1, Model_load E c attrs s1 = (Throw MissingIdentity, s1)).
  { intros s1. apply load_tests_the_truthiness_of_the_id. by rewrite Hattrs. }
  unfold Model_local. destruct (IdMap_get c id s) as [r0|] eqn:Hget.
  - exists r0, s. auto.
  - rewrite (Model_empty_run E c id s Hid). eexists _, _.
    split; [reflexivity|]. split; [|apply Hload].
    unfold IdMap_get. simpl. by apply idmap_find_head.
Qed.

Lemma falsy_id_is_registered_but_never_loaded_witness :
  exists r s1,
    Model_local Blog.env Blog.BasicModel (VNum 0) empty_state = (Ok r, s1) /\
    IdMap_get Blog.BasicModel (VNum 0) s1 = Some r /\
    Model_load Blog.env Blog.BasicModel [("id", VNum 0); ("str", VStr "a")] s1
    = (Throw MissingIdentity, s1).
Proof.
  apply (falsy_id_is_registered_but_never_loaded Blog.env Blog.BasicModel (VNum 0)
           [("id", VNum 0); ("str", VStr "a")] empty_state); reflexivity.
Defined.

(** ** Coercing twice *)

(** Every converter of [src/attrs.js] that is modelled, and the boolean
    converter of the later revision, gives back what it is given when that
    is a value it has produced, as long as [String] is the identity on
    strings and [parseNumber] answers with a number or [null]; the string
    converter lets [null] and [undefined] through, and the number converter
    turns [undefined] into [null]. *)
Theorem coercion_is_idempotent (String_ : value -> string) (parseNumber : string -> value) :
  (forall str, String_ (VStr str) = str) ->
  (forall str, is_number (parseNumber str) = true \/ parseNumber str = VNull) ->
  forall v,
    RynoAttrs.IdentityAttr_coerce (RynoAttrs.IdentityAttr_coerce v)
      = RynoAttrs.IdentityAttr_coerce v /\
    RynoAttrs.StringAttr_coerce String_ (RynoAttrs.StringAttr_coerce String_ v)
      = RynoAttrs.StringAttr_coerce String_ v /\
    RynoAttrs.NumberAttr_coerce parseNumber (RynoAttrs.NumberAttr_coerce parseNumber v)
      = RynoAttrs.NumberAttr_coerce parseNumber v /\
    RynoAttrs.BooleanAttr_coerce (RynoAttrs.BooleanAttr_coerce v)
      = RynoAttrs.BooleanAttr_coerce v /\
    TransisAttrs.BooleanAttr_coerce (TransisAttrs.BooleanAttr_coerce v)
      = TransisAttrs.BooleanAttr_coerce v /\
    (not_nullish v = false -> RynoAttrs.StringAttr_coerce String_ v = v) /\
    RynoAttrs.NumberAttr_coerce parseNumber VUndef = VNull.
Proof.
  intros Hstr Hnum v. split; [reflexivity|]. split; [|split; [|split; [|split; [|split]]]].
  - unfold RynoAttrs.StringAttr_coerce. destruct (not_nullish v) eqn:Hv; simpl.
    + by rewrite Hstr.
    + by rewrite Hv.
  - unfold RynoAttrs.NumberAttr_coerce. destruct v; try reflexivity.
    destruct (Hnum s) as [H | ->]; [|reflexivity].
    destruct (parseNumber s); try discriminate; reflexivity.
  - unfold RynoAttrs.BooleanAttr_coerce. reflexivity.
  - unfold TransisAttrs.BooleanAttr_coerce. destruct (strict_eq v VUndef) eqn:Hv.
    + by rewrite Hv.
    + reflexivity.
  - intros Hv. unfold RynoAttrs.StringAttr_coerce. by rewrite Hv.
  - reflexivity.
Qed.

Lemma parse_digits_number cs : forall acc,
  is_number (parse_digits acc cs) = true \/ parse_digits acc cs = VNull.
Proof.
  induction cs as [|c cs IH]; intros acc; [by left|].
  cbn [parse_digits]. cbv zeta.
  destruct ((48 <=? nat_of_ascii c)%nat && (nat_of_ascii c <=? 57)%nat); [apply IH|by right].
Qed.

Lemma parse_decimal_number str :
  is_number (parse_decimal str) = true \/ parse_decimal str = VNull.
Proof.
  unfold parse_decimal. destruct (list_ascii_of_string str) as [|c cs]; [by right|].
  apply parse_digits_number.
Qed.

Lemma coercion_is_idempotent_witness :
  RynoAttrs.StringAttr_coerce String_of_primitive
    (RynoAttrs.StringAttr_coerce String_of_primitive (VNum 12)) = VStr "12" /\
  RynoAttrs.NumberAttr_coerce parse_decimal
    (RynoAttrs.NumberAttr_coerce parse_decimal (VStr "12")) = VNum 12.
Proof.
  destruct (coercion_is_idempotent String_of_primitive parse_decimal
              (fun str => eq_refl) parse_decimal_number (VNum 12)) as (_ & H1 & _).
  destruct (coercion_is_idempotent String_of_primitive parse_decimal
              (fun str => eq_refl) parse_decimal_number (VStr "12")) as (_ & _ & H2 & _).
  split.
  - rewrite H1. vm_compute. reflexivity.
  - rewrite H2. reflexivity.
Defined.

(** ** The converters of the later revision *)

Import LaterAttrs.

Lemma drop_spaces_idem l : drop_spaces (drop_spaces l) = drop_spaces l.
Proof.
  induction l as [|c l IH]; [done|]. simpl.
  destruct (is_space c) eqn:Hc; [done|]. simpl. by rewrite Hc.
Qed.

Lemma drop_spaces_snoc l c :
  is_space c = false -> exists u, drop_spaces (l ++ [c]) = u ++ [c].
Proof.
  intros Hc. induction l as [|x l IH]; simpl.
  - rewrite Hc. by exists [].
  - destruct (is_space x); [done|]. by exists (x :: l).
Qed.

Lemma drop_spaces_fixed c l : is_space c = false -> drop_spaces (c :: l) = c :: l.
Proof. intros Hc. simpl. by rewrite Hc. Qed.

Lemma drop_spaces_head l : drop_spaces l = [] \/ exists c t, drop_spaces l = c :: t /\ is_space c = false.
Proof.
  induction l as [|x l IH]; [by left|]. simpl.
  destruct (is_space x) eqn:Hx; [done|]. right. by exists x, l.
Qed.

(** What [trim] returns starts and ends with a character that is not white
    space, if it is not empty. *)
Lemma trimmed_chars l :
  let r := rev (drop_spaces (rev (drop_spaces l))) in
  drop_spaces r = r /\ drop_spaces (rev r) = rev r.
Proof.
  cbv zeta. rewrite rev_involutive. split; [|apply drop_spaces_idem].
  destruct (drop_spaces_head l) as [-> | (c & t & -> & Hc)]; [done|].
  simpl rev. destruct (drop_spaces_snoc (rev t) c Hc) as [u ->].
  rewrite rev_app_distr. simpl. by rewrite Hc.
Qed.

Lemma trim_idem str : trim (trim str) = trim str.
Proof.
  unfold trim. rewrite list_ascii_of_string_of_list_ascii.
  destruct (trimmed_chars (list_ascii_of_string str)) as [H1 H2].
  cbv zeta in H1, H2. rewrite H1, H2. by rewrite rev_involutive.
Qed.

(** The string converter of the later revision trims what the earlier one
    returns, unless the option [trim] is given and falsy; what it returns
    neither starts nor ends with white space, and coercing it again changes
    nothing when [String] is the identity on strings.  The number converter
    of the later revision lets [undefined] through and is the earlier one
    on every other value. *)
Theorem later_converters_refine_the_earlier_ones
    (String_ : value -> string) (parseNumber : string -> value) :
  (forall str, String_ (VStr str) = str) ->
  forall opts v,
    (trim_option opts = false ->
     StringAttr_coerce String_ opts v = RynoAttrs.StringAttr_coerce String_ v) /\
    (trim_option opts = true ->
     StringAttr_coerce String_ opts v
     = match RynoAttrs.StringAttr_coerce String_ v with
       | VStr str => VStr (trim str)
       | w => w
       end) /\
    (forall str, StringAttr_coerce String_ opts v = VStr str -> trim_option opts = true ->
       LaterAttrs.drop_spaces (list_ascii_of_string str) = list_ascii_of_string str /\
       LaterAttrs.drop_spaces (rev (list_ascii_of_string str)) = rev (list_ascii_of_string str)) /\
    StringAttr_coerce String_ opts (StringAttr_coerce String_ opts v)
      = StringAttr_coerce String_ opts v /\
    NumberAttr_coerce parseNumber v
      = (if strict_eq v VUndef then VUndef else RynoAttrs.NumberAttr_coerce parseNumber v).
Proof.
  intros Hstr opts v.
  unfold StringAttr_coerce, RynoAttrs.StringAttr_coerce.
  split; [|split; [|split; [|split]]].
  - intros ->. by destruct (not_nullish v), v.
  - intros ->. by destruct (not_nullish v), v.
  - intros str H Ht. rewrite Ht in H.
    assert (Hex : exists s0, str = trim s0).
    { destruct (not_nullish v); [inversion H; eauto|].
      destruct v; inversion H; eauto. }
    destruct Hex as [s0 ->]. unfold trim. rewrite list_ascii_of_string_of_list_ascii.
    apply trimmed_chars.
  - destruct (trim_option opts).
    + destruct (not_nullish v) eqn:Hv.
      * simpl. by rewrite Hstr, trim_idem.
      * destruct v; try done.
    + destruct (not_nullish v) eqn:Hv.
      * simpl. by rewrite Hstr.
      * destruct v; try done.
  - by destruct v.
Qed.

Lemma later_converters_refine_the_earlier_ones_witness :
  StringAttr_coerce String_of_primitive [] (VStr "  a b  ") = VStr "a b" /\
  StringAttr_coerce String_of_primitive [("trim", VBool false)] (VStr "  a b  ")
  = VStr "  a b  " /\
  NumberAttr_coerce parse_decimal VUndef = VUndef.
Proof.
  destruct (later_converters_refine_the_earlier_ones String_of_primitive parse_decimal
              (fun str => eq_refl) [] (VStr "  a b  ")) as (_ & H1 & _ & _ & _).
  destruct (later_converters_refine_the_earlier_ones String_of_primitive parse_decimal
              (fun str => eq_refl) [("trim", VBool false)] (VStr "  a b  "))
    as (H2 & _ & _ & _ & _).
  destruct (later_converters_refine_the_earlier_ones String_of_primitive parse_decimal
              (fun str => eq_refl) [] VUndef) as (_ & _ & _ & _ & H3).
  split; [rewrite (H1 eq_refl); reflexivity|].
  split; [rewrite (H2 eq_refl); reflexivity|exact H3].
Defined.

(** ** The query collection: fulfilment and the queue *)

Import QueryArrayStates.

Lemma default_opts_idem o : default_opts (default_opts o) = default_opts o.
Proof. unfold default_opts. destruct (strict_eq o VUndef) eqn:H; simpl; rewrite ?H; reflexivity. Qed.

Lemma has_queued_in_flight q0 opts qd init last :
  has_queued (in_flight q0 opts qd init last)
  = match qd with Some v => truthy v | None => false end.
Proof. reflexivity. Qed.

Lemma query_busy_queued q0 opts v init last o :
  truthy v = true ->
  query Working o (in_flight q0 opts (Some v) init last)
  = (Ok tt, in_flight q0 opts (Some (default_opts o)) init last).
Proof.
  intros Hv. unfold query. simpl isBusy. cbv iota.
  rewrite has_queued_in_flight, Hv. reflexivity.
Qed.

Lemma query_busy_chain q0 opts qd init last o :
  match qd with Some v => truthy v | None => false end = false ->
  query Working o (in_flight q0 opts qd init last)
  = (Ok tt, in_flight q0 opts (Some (default_opts o)) (init ++ [last]) []).
Proof.
  intros Hq. unfold query. simpl isBusy. cbv iota.
  rewrite has_queued_in_flight, Hq.
  set (q := in_flight q0 opts qd init last).
  assert (Hcur : promises q !! current q = Some {| p_state := None; p_reactions := last |})
    by apply QueryArrayFacts.in_flight_current.
  assert (Hlen : length (promises q) = S (current q)).
  { unfold q. simpl. rewrite length_app. simpl.
    rewrite length_app, QueryArrayFacts.chain_init_length. simpl. lia. }
  unfold new_promise, subscribe. cbn [promises with_promises].
  rewrite lookup_app_l by lia. rewrite Hcur.
  rewrite insert_app_l by lia.
  unfold q at 2 3. rewrite QueryArrayFacts.in_flight_insert_current. fold q.
  rewrite Hlen. unfold with_promises, with_current, with_queued, in_flight. simpl.
  f_equal. f_equal.
  - rewrite length_app. simpl. lia.
  - rewrite <- app_assoc. f_equal. simpl. f_equal.
    rewrite QueryArrayFacts.chain_init_snoc. reflexivity.
Qed.

(** Three calls of [query] on an idle collection with nothing queued. *)
Lemma three_calls q0 o1 o2 o3 :
  isBusy q0 = false -> jobs q0 = [] -> has_queued q0 = false ->
  exists rest,
    perform_all Working [CallQuery o2; CallQuery o3] (snd (query Working o1 q0))
    = in_flight q0 (default_opts o1) (Some (default_opts o3)) ([] :: rest) [] /\
    (rest = [] \/ rest = [[]]).
Proof.
  intros Hb Hj Hq. rewrite (QueryArrayFacts.query_idle q0 o1 Hb Hj).
  unfold perform_all, perform. cbn [fold_left snd].
  rewrite (query_busy_chain q0 (default_opts o1) (queued q0) [] [] o2) by exact Hq.
  cbn [snd app].
  destruct (truthy (default_opts o2)) eqn:Ht.
  - exists []. rewrite (query_busy_queued _ _ _ _ _ _ Ht). auto.
  - exists [[]]. rewrite (query_busy_chain _ _ (Some (default_opts o2)) [[]] [] o3 Ht). auto.
Qed.

Lemma settle_in_flight q0 opts qd init last o :
  settle (length (promises q0)) o (in_flight q0 opts qd init last)
  = with_promises
      (promises q0 ++ {| p_state := Some o; p_reactions := [] |}
         :: chain_init (S (length (promises q0))) init
         ++ [ {| p_state := None; p_reactions := last |} ])
      [React (OnMapper (S (length (promises q0)))) o]
      (in_flight q0 opts qd init last).
Proof.
  unfold settle. simpl promises. rewrite list_lookup_middle by done.
  rewrite QueryArrayFacts.insert_middle. reflexivity.
Qed.


Lemma fulfil_first_step E q0 opts qd init last objs ms st' k :
  Model_loadAll E (modelClass q0) objs (models q0) = (Ok ms, st') ->
  drain E Working (S k)
    (settle (length (promises q0)) (Ok objs) (in_flight q0 opts qd init last))
  = drain E Working k
      (settle (S (length (promises q0))) (Ok VUndef)
         (with_current (S (length (promises q0)) + length init)
            (loaded q0 opts qd objs ms st'
               (chain_init (S (length (promises q0))) init
                ++ [ {| p_state := None; p_reactions := last |} ]) []))).
Proof.
  intros Hload. rewrite settle_in_flight. 
  cbn [drain jobs with_promises]. f_equal.
  unfold run_job. cbn [modelClass models with_promises in_flight].
  rewrite Hload. reflexivity.
Qed.

Lemma lookup_after {A} (l : list A) x y tl : (l ++ x :: y :: tl) !! S (length l) = Some y.
Proof. rewrite lookup_app_r by lia. by replace (S (length l) - length l) with 1 by lia. Qed.

Lemma insert_after {A} (l : list A) x y z tl :
  <[S (length l) := z]> (l ++ x :: y :: tl) = l ++ x :: z :: tl.
Proof. rewrite insert_app_r_alt by lia. by replace (S (length l) - length l) with 1 by lia. Qed.


Lemma drain_consumers_ok E v seg : forall J q k,
  Forall (fun r => is_consumer r = true) seg ->
  jobs q = map (fun r => React r (Ok v)) seg ++ J ->
  drain E Working (length seg + k) q
  = drain E Working k
      (with_observed_all (map (fun t => (t, Ok v)) (then_tags seg))
         (with_promises (promises q) J q)).
Proof.
  induction seg as [|r seg IH]; intros J q k Hc Hj.
  - simpl in *. f_equal. destruct q; simpl in *. subst.
    unfold with_observed_all, with_promises. simpl. by rewrite app_nil_r.
  - rewrite Forall_cons in Hc. destruct Hc as [Hr Hc].
    simpl. rewrite Hj. simpl.
    rewrite (IH J); [| done |].
    + f_equal. destruct r; try discriminate; destruct q; simpl; unfold with_observed_all;
        simpl; unfold then_tags; simpl; by rewrite <- ?app_assoc.
    + destruct r; try discriminate; reflexivity.
Qed.

Lemma perform_all_handlers cs : forall q0 opts qd last,
  Forall (fun c => is_query c = false) cs ->
  perform_all Working cs (in_flight q0 opts qd [] last)
  = in_flight q0 opts qd [] (last ++ concat (map reaction_of cs)).
Proof.
  induction cs as [|c cs IH]; intros q0 opts qd last Hc.
  - simpl. by rewrite app_nil_r.
  - rewrite Forall_cons in Hc. destruct Hc as [Hq Hc].
    unfold perform_all in *. cbn [fold_left].
    destruct c as [o|tag|tag]; [discriminate| |]; unfold perform.
    + unfold then_. rewrite QueryArrayFacts.subscribe_in_flight. rewrite IH by done.
      simpl. by rewrite <- app_assoc.
    + unfold catch. rewrite QueryArrayFacts.subscribe_in_flight. rewrite IH by done.
      simpl. by rewrite <- app_assoc.
Qed.

Lemma reactions_are_consumers cs :
  Forall (fun r => is_consumer r = true) (concat (map reaction_of cs)).
Proof.
  induction cs as [|c cs IH]; simpl; [constructor|].
  apply Forall_app. split; [|done]. destruct c; simpl; repeat constructor.
Qed.

Lemma then_tags_reactions cs :
  then_tags (concat (map reaction_of cs)) = fulfilment_handlers_of cs.
Proof.
  unfold then_tags, fulfilment_handlers_of.
  induction cs as [|c cs IH]; simpl; [done|].
  rewrite map_app, concat_app, IH. by destruct c.
Qed.

Lemma length_reactions cs :
  Forall (fun c => is_query c = false) cs -> length (concat (map reaction_of cs)) = length cs.
Proof.
  induction 1 as [|c cs Hq _ IH]; simpl; [done|].
  rewrite length_app, IH. by destruct c.
Qed.

Lemma fulfil_in_flight_consumers E q0 opts qd last objs ms st' :
  Forall (fun r => is_consumer r = true) last ->
  Model_loadAll E (modelClass q0) objs (models q0) = (Ok ms, st') ->
  drain E Working (S (length last))
    (settle (length (promises q0)) (Ok objs) (in_flight q0 opts qd [] last))
  = with_observed_all (map (fun t => (t, Ok VUndef)) (then_tags last))
      (with_current (S (length (promises q0)))
         (loaded q0 opts qd objs ms st' [fulfilled VUndef] [])).
Proof.
  intros Hc Hload.
  rewrite (fulfil_first_step E q0 _ _ [] _ objs ms st' (length last) Hload).
  cbn [chain_init app length]. rewrite Nat.add_0_r.
  unfold settle. cbn [promises with_current loaded].
  rewrite lookup_after, insert_after.
  cbn [jobs with_current loaded app].
  replace (length last) with (length last + 0) at 1 by lia.
  rewrite (drain_consumers_ok E VUndef last []);
    [| done | cbn [jobs with_promises]; by rewrite app_nil_r].
  cbn [drain]. reflexivity.
Qed.

(** Let an idle collection dispatch a call of [query], let consumers call
    [then] and [catch] while the request is in flight, and let the mapper
    fulfil its promise, the one at index [length (promises q0)], with data
    that [loadAll] accepts.  Once the queued jobs have run, the collection
    is idle, [error] is unset, the contents are the loaded models, the
    mapper has been called once, and the fulfilment handlers registered
    through [then] have been called, in order, with [undefined]; the
    handlers registered through [catch] have not been called.  A handler
    registered through [then] afterwards is called with [undefined] as
    well, one registered through [catch] is not called. *)
Theorem fulfilment_replaces_contents E q0 opts cs objs ms st' :
  isBusy q0 = false ->
  jobs q0 = [] ->
  Forall (fun c => is_query c = false) cs ->
  Model_loadAll E (modelClass q0) objs (models q0) = (Ok ms, st') ->
  let q := perform_all Working cs (snd (query Working opts q0)) in
  let q' := drain E Working (S (length cs)) (settle (length (promises q0)) (Ok objs) q) in
  isBusy q = true /\
  jobs q' = [] /\
  isBusy q' = false /\
  error q' = None /\
  contents q' = ms /\
  models q' = st' /\
  calls q' = calls q0 ++ [default_opts opts] /\
  observed q' = observed q0 ++ map (fun t => (t, Ok VUndef)) (fulfilment_handlers_of cs) /\
  (forall tag,
      observed (drain E Working 1 (then_ tag q')) = observed q' ++ [(tag, Ok VUndef)]) /\
  (forall tag, observed (drain E Working 1 (catch tag q')) = observed q').
Proof.
  intros Hb Hj Hcs Hload. cbv zeta.
  rewrite (QueryArrayFacts.query_idle q0 opts Hb Hj). cbn [snd].
  rewrite perform_all_handlers by done. cbn [app].
  split; [reflexivity|].
  rewrite <- (length_reactions cs Hcs).
  rewrite (fulfil_in_flight_consumers E q0 _ _ _ objs ms st' (reactions_are_consumers cs) Hload).
  rewrite then_tags_reactions.
  repeat split; try reflexivity.
  - intros tag. unfold then_, subscribe.
    cbn [current promises with_observed_all with_current loaded].
    rewrite lookup_after. reflexivity.
  - intros tag. unfold catch, subscribe.
    cbn [current promises with_observed_all with_current loaded].
    rewrite lookup_after. reflexivity.
Qed.

Lemma drain_step E m k q j js :
  jobs q = j :: js ->
  drain E m (S k) q = drain E m k (run_job E m j (with_promises (promises q) js q)).
Proof. intros H. simpl. by rewrite H. Qed.

Lemma fulfil_dispatches_queued E q0 o1 o rest last objs ms st' :
  Model_loadAll E (modelClass q0) objs (models q0) = (Ok ms, st') ->
  drain E Working 3
    (settle (length (promises q0)) (Ok objs) (in_flight q0 o1 (Some o) ([] :: rest) last))
  = in_flight
      (loaded q0 o1 (Some o) objs ms st'
         (fulfilled VUndef :: chain_init (S (S (length (promises q0)))) rest
            ++ [ {| p_state := None; p_reactions := last |} ]) [])
      (default_opts o) None [] [Adopt (S (S (length (promises q0))))].
Proof.
  intros Hload.
  rewrite (fulfil_first_step E q0 _ _ _ _ objs ms st' 2 Hload).
  cbn [chain_init app].
  set (tail := chain_init (S (S (length (promises q0)))) rest
               ++ [ {| p_state := None; p_reactions := last |} ]).
  set (qb := loaded q0 o1 (Some o) objs ms st' (fulfilled VUndef :: tail) []).
  set (d := S (S (length (promises q0)))).
  unfold settle. cbn [promises with_current loaded].
  rewrite lookup_after, insert_after.
  cbn [jobs with_current loaded app map].
  (* the handler of the queued call *)
  erewrite drain_step by reflexivity.
  match goal with
  | |- context [run_job _ _ _ ?x] =>
      change x with (with_current (S (length (promises q0)) + length ([] :: rest)) qb)
  end.
  set (qc := with_current (S (length (promises q0)) + length ([] :: rest)) qb).
  unfold run_job at 1.
  change (queued qc) with (Some o). cbn [from_option default]. unfold id.
  rewrite (QueryArrayFacts.query_idle qc o eq_refl eq_refl).
  cbv beta iota.
  change (with_queued None (in_flight qc (default_opts o) (queued qc) [] []))
    with (in_flight qb (default_opts o) None [] []).
  assert (Hcur : (current (in_flight qb (default_opts o) None [] []) =? d)%nat = false).
  { apply Nat.eqb_neq. cbn [current in_flight]. unfold qb. cbn [promises loaded].
    rewrite length_app. simpl. unfold d. lia. }
  rewrite Hcur.
  erewrite drain_step by reflexivity.
  cbn [run_job promises with_promises].
  match goal with
  | |- context [subscribe _ _ ?x] => change x with (in_flight qb (default_opts o) None [] [])
  end.
  rewrite QueryArrayFacts.subscribe_in_flight. reflexivity.
Qed.

(** Three calls of [query] on an idle collection with nothing queued: the
    first is dispatched at once and the others are not; when the mapper
    fulfils the first request with data that [loadAll] accepts, the models
    are loaded and the mapper is called again, once, with the options of the
    third call (the default [{}] for [undefined]); the collection then is
    busy with that request and nothing is queued. *)
Theorem queued_call_runs_on_fulfilment E q0 o1 o2 o3 objs ms st' :
  isBusy q0 = false ->
  jobs q0 = [] ->
  has_queued q0 = false ->
  Model_loadAll E (modelClass q0) objs (models q0) = (Ok ms, st') ->
  let q3 := perform_all Working [CallQuery o2; CallQuery o3] (snd (query Working o1 q0)) in
  let q4 := drain E Working 3 (settle (length (promises q0)) (Ok objs) q3) in
  calls q3 = calls q0 ++ [default_opts o1] /\
  isBusy q3 = true /\
  queued q3 = Some (default_opts o3) /\
  calls q4 = calls q0 ++ [default_opts o1; default_opts o3] /\
  jobs q4 = [] /\
  contents q4 = ms /\
  models q4 = st' /\
  isBusy q4 = true /\
  queued q4 = None /\
  error q4 = None.
Proof.
  intros Hb Hj Hq Hload. cbv zeta.
  destruct (three_calls q0 o1 o2 o3 Hb Hj Hq) as (rest & -> & _).
  split; [reflexivity|]. split; [reflexivity|]. split; [reflexivity|].
  rewrite (fulfil_dispatches_queued E q0 _ _ rest [] objs ms st' Hload).
  cbn [calls jobs contents models isBusy queued error in_flight loaded].
  rewrite default_opts_idem, <- app_assoc. repeat split; reflexivity.
Qed.


Lemma reject_in_flight E q0 opts qd init last e :
  Forall (Forall (fun r => is_consumer r = true)) (init ++ [last]) ->
  exists fuel,
    drain E Working fuel
      (settle (length (promises q0)) (Throw e) (in_flight q0 opts qd init last))
    = with_observed_all (map (fun t => (t, Throw e)) (all_tags init last))
        (failed q0 opts qd e (replicate (S (length init)) (rejected e))
           (S (length (promises q0)) + length init)).
Proof.
  intros Hc.
  set (q1 := with_error (Some e) (with_busy false
               (with_promises (promises q0 ++ rejected e
                                 :: chain_init (S (length (promises q0))) init
                                 ++ [ {| p_state := None; p_reactions := last |} ]) []
                  (in_flight q0 opts qd init last)))).
  destruct (QueryArrayFacts.drain_chain E e init (promises q0 ++ [rejected e]) last q1 Hc)
    as [fuel Hfuel].
  { unfold q1. simpl. rewrite length_app. simpl. rewrite Nat.add_1_r.
    by rewrite <- app_assoc. }
  { reflexivity. }
  exists (S fuel).
  rewrite settle_in_flight. erewrite drain_step by reflexivity.
  cbn [run_job promises with_promises].
  replace (length (promises q0 ++ [rejected e])) with (S (length (promises q0))) in Hfuel
    by (rewrite length_app; simpl; lia).
  match goal with
  | |- drain _ _ _ (settle _ _ ?x) = _ => change x with q1
  end.
  rewrite Hfuel. unfold q1, with_observed_all, failed. cbn.
  rewrite <- app_assoc. reflexivity.
Qed.

(** Three calls of [query] on an idle collection with nothing queued,
    followed by the rejection of the first request: the handler that would
    dispatch the queued call is registered for fulfilment only, so the
    mapper is not called again, the collection becomes idle with the
    rejection as [error], and [__queued__] keeps the options of the third
    call.  When these are truthy, a later call dispatches, but a call made
    while that request is in flight only replaces the stale entry: once the
    request is fulfilled the collection is idle and the mapper has not been
    called for it. *)
Theorem queued_call_is_lost_on_rejection E q0 o1 o2 o3 e :
  isBusy q0 = false ->
  jobs q0 = [] ->
  has_queued q0 = false ->
  let q3 := perform_all Working [CallQuery o2; CallQuery o3] (snd (query Working o1 q0)) in
  exists fuel,
    let q4 := drain E Working fuel (settle (length (promises q0)) (Throw e) q3) in
    jobs q4 = [] /\
    isBusy q4 = false /\
    error q4 = Some e /\
    calls q4 = calls q0 ++ [default_opts o1] /\
    queued q4 = Some (default_opts o3) /\
    forall o4 o5 objs ms st',
      truthy (default_opts o3) = true ->
      Model_loadAll E (modelClass q0) objs (models q0) = (Ok ms, st') ->
      let q6 := perform_all Working [CallQuery o5] (snd (query Working o4 q4)) in
      let q7 := drain E Working 1 (settle (length (promises q4)) (Ok objs) q6) in
      isBusy q6 = true /\
      calls q7 = calls q0 ++ [default_opts o1; default_opts o4] /\
      jobs q7 = [] /\
      isBusy q7 = false /\
      contents q7 = ms /\
      queued q7 = Some (default_opts o5).
Proof.
  intros Hb Hj Hq. cbv zeta.
  destruct (three_calls q0 o1 o2 o3 Hb Hj Hq) as (rest & -> & Hrest).
  destruct (reject_in_flight E q0 (default_opts o1) (Some (default_opts o3))
              ([] :: rest) [] e) as [fuel Hfuel].
  { destruct Hrest as [-> | ->]; repeat constructor. }
  exists fuel. rewrite Hfuel.
  assert (Htags : all_tags ([] :: rest) [] = []).
  { destruct Hrest as [-> | ->]; reflexivity. }
  rewrite Htags. cbn [map].
  set (q4 := with_observed_all [] _).
  split; [reflexivity|]. split; [reflexivity|]. split; [reflexivity|].
  split; [reflexivity|]. split; [reflexivity|].
  intros o4 o5 objs ms st' Ht Hload.
  rewrite (QueryArrayFacts.query_idle q4 o4 eq_refl eq_refl).
  unfold perform_all, perform. cbn [fold_left snd].
  change (queued q4) with (Some (default_opts o3)).
  rewrite (query_busy_queued q4 (default_opts o4) (default_opts o3) [] [] o5 Ht).
  cbn [snd]. split; [reflexivity|].
  rewrite (fulfil_in_flight_consumers E q4 _ _ [] objs ms st' (Forall_nil_2 _) Hload).
  cbn. rewrite <- app_assoc. repeat split; reflexivity.
Qed.

Lemma queued_call_is_lost_on_rejection_witness :
  let q0 := make Blog.BasicModel empty_state in
  isBusy q0 = false /\
  jobs q0 = [] /\
  has_queued q0 = false /\
  exists fuel,
    let q4 := drain Blog.env Working fuel
                (settle 1 (Throw (Rejected (VStr "boom")))
                   (perform_all Working [CallQuery (VObj [("foo", VNum 2)]); CallQuery (VObj [("foo", VNum 3)])]
                      (snd (query Working (VObj [("foo", VNum 1)]) q0)))) in
    calls q4 = [VObj [("foo", VNum 1)]] /\
    queued q4 = Some (VObj [("foo", VNum 3)]) /\
    calls (drain Blog.env Working 1
             (settle (length (promises q4)) (Ok (VArr []))
                (perform_all Working [CallQuery (VObj [("foo", VNum 5)])] (snd (query Working (VObj [("foo", VNum 4)]) q4)))))
    = [VObj [("foo", VNum 1)]; VObj [("foo", VNum 4)]].
Proof.
  cbv zeta. split; [reflexivity|]. split; [reflexivity|]. split; [reflexivity|].
  destruct (queued_call_is_lost_on_rejection Blog.env (make Blog.BasicModel empty_state)
              (VObj [("foo", VNum 1)]) (VObj [("foo", VNum 2)]) (VObj [("foo", VNum 3)])
              (Rejected (VStr "boom")) eq_refl eq_refl eq_refl)
    as (fuel & _ & _ & _ & Hcalls & Hqueued & Hlater).
  exists fuel. split; [exact Hcalls|]. split; [exact Hqueued|].
  destruct (Hlater (VObj [("foo", VNum 4)]) (VObj [("foo", VNum 5)]) (VArr []) [] empty_state
              eq_refl eq_refl) as (_ & H & _).
  exact H.
Defined.

Lemma seg_tags_reactions cs : seg_tags (concat (map reaction_of cs)) = handlers_of cs.
Proof.
  unfold seg_tags, handlers_of.
  induction cs as [|c cs IH]; simpl; [done|].
  rewrite map_app, concat_app, IH. by destruct c.
Qed.


Lemma fulfil_first_step_throw E q0 opts qd init last objs e st' k :
  Model_loadAll E (modelClass q0) objs (models q0) = (Throw e, st') ->
  drain E Working (S k)
    (settle (length (promises q0)) (Ok objs) (in_flight q0 opts qd init last))
  = drain E Working k
      (settle (S (length (promises q0))) (Throw e)
         (stuck q0 opts qd objs st'
            (chain_init (S (length (promises q0))) init
             ++ [ {| p_state := None; p_reactions := last |} ]) []
            (S (length (promises q0)) + length init))).
Proof.
  intros Hload. rewrite settle_in_flight.
  cbn [drain jobs with_promises]. f_equal.
  unfold run_job. cbn [modelClass models with_promises in_flight].
  rewrite Hload. reflexivity.
Qed.

(** When [loadAll] throws on what the mapper has answered, the handler of
    [query] is left before [__isBusy__] is reset: the collection stays busy,
    [error] and the contents are what they were, and the consumers receive
    the exception. *)
Theorem load_failure_leaves_the_collection_busy E q0 opts cs objs e st' :
  isBusy q0 = false ->
  jobs q0 = [] ->
  Forall (fun c => is_query c = false) cs ->
  Model_loadAll E (modelClass q0) objs (models q0) = (Throw e, st') ->
  let q := perform_all Working cs (snd (query Working opts q0)) in
  let q' := drain E Working (S (length cs)) (settle (length (promises q0)) (Ok objs) q) in
  jobs q' = [] /\
  isBusy q' = true /\
  error q' = error q0 /\
  contents q' = contents q0 /\
  models q' = st' /\
  calls q' = calls q0 ++ [default_opts opts] /\
  observed q' = observed q0 ++ map (fun t => (t, Throw e)) (handlers_of cs).
Proof.
  intros Hb Hj Hcs Hload. cbv zeta.
  rewrite (QueryArrayFacts.query_idle q0 opts Hb Hj). cbn [snd].
  rewrite perform_all_handlers by done. cbn [app].
  set (last := concat (map reaction_of cs)).
  rewrite (fulfil_first_step_throw E q0 _ _ [] _ objs e st' (length cs) Hload).
  unfold settle. cbn [promises stuck chain_init app].
  rewrite lookup_after, insert_after.
  cbn [jobs stuck app].
  replace (length cs) with (length last + 0)
    by (unfold last; rewrite length_reactions by done; lia).
  rewrite (QueryArrayFacts.drain_consumers E e last []);
    [| apply reactions_are_consumers | cbn [jobs with_promises]; by rewrite app_nil_r].
  cbn [drain]. unfold last. rewrite seg_tags_reactions.
  repeat split; reflexivity.
Qed.

Lemma load_failure_leaves_the_collection_busy_witness :
  let q := perform_all Working [CallThen 1; CallCatch 2]
             (snd (query Working VUndef (make Blog.BasicModel empty_state))) in
  let q' := drain Blog.env Working 3 (settle 1 (Ok (VArr [VObj [("str", VStr "a")]])) q) in
  isBusy q' = true /\
  error q' = None /\
  observed q' = [(1, Throw MissingIdentity); (2, Throw MissingIdentity)].
Proof.
  destruct (load_failure_leaves_the_collection_busy Blog.env (make Blog.BasicModel empty_state)
              VUndef [CallThen 1; CallCatch 2] (VArr [VObj [("str", VStr "a")]])
              MissingIdentity empty_state eq_refl eq_refl)
    as (_ & H1 & H2 & _ & _ & _ & H3).
  - repeat constructor.
  - reflexivity.
  - cbv zeta. split; [exact H1|]. split; [exact H2|exact H3].
Defined.

Lemma fulfilment_replaces_contents_witness :
  let q := perform_all Working [CallThen 1; CallCatch 2]
             (snd (query Working VUndef (make Blog.BasicModel empty_state))) in
  let q' := drain Blog.env Working 3
              (settle 1 (Ok (VArr [VObj [("id", VNum 1); ("str", VStr "a")]])) q) in
  isBusy q' = false /\
  contents q' = [0] /\
  observed q' = [(1, Ok VUndef)].
Proof.
  destruct (fulfilment_replaces_contents Blog.env (make Blog.BasicModel empty_state)
              VUndef [CallThen 1; CallCatch 2]
              (VArr [VObj [("id", VNum 1); ("str", VStr "a")]]) [0]
              (snd (Model_load Blog.env Blog.BasicModel [("id", VNum 1); ("str", VStr "a")]
                      empty_state))
              eq_refl eq_refl)
    as (_ & _ & H1 & _ & H2 & _ & _ & H3 & _).
  - repeat constructor.
  - vm_compute. reflexivity.
  - cbv zeta. split; [exact H1|]. split; [exact H2|exact H3].
Defined.

Lemma queued_call_runs_on_fulfilment_witness :
  let q0 := make Blog.BasicModel empty_state in
  let q3 := perform_all Working
              [CallQuery (VObj [("foo", VNum 2)]); CallQuery (VObj [("foo", VNum 3)])]
              (snd (query Working (VObj [("foo", VNum 1)]) q0)) in
  let q4 := drain Blog.env Working 3 (settle 1 (Ok (VArr [])) q3) in
  calls q3 = [VObj [("foo", VNum 1)]] /\
  calls q4 = [VObj [("foo", VNum 1)]; VObj [("foo", VNum 3)]].
Proof.
  destruct (queued_call_runs_on_fulfilment Blog.env (make Blog.BasicModel empty_state)
              (VObj [("foo", VNum 1)]) (VObj [("foo", VNum 2)]) (VObj [("foo", VNum 3)])
              (VArr []) [] empty_state eq_refl eq_refl eq_refl eq_refl)
    as (H1 & _ & _ & H2 & _).
  cbv zeta. split; [exact H1|exact H2].
Defined.
